(** * zhipu-video-sdk: frame extraction and JPEG demuxing

    A shallow embedding of [processor/video_processor.go] (type
    [VideoProcessor]) and of the stream processor (type [StreamProcessor]
    and [StreamFrameExtractor]), with the properties of the demuxer, the
    NAL injector, the configuration setters and the streaming worker.

    Conventions.
    - A Go [[]byte] is a [list byte]; a Go [int] is a [Z] (64-bit, the
      wrap-around is written out by [wrap64] where the code does
      arithmetic that can leave the range).
    - A Go result [(v, err)] is a pair whose second component is an
      [option error]; [None] is Go's [nil] error and the empty list is
      the [nil] slice.
    - Loops that are not structurally recursive carry a fuel argument and
      return [None] when it runs out; the adequacy lemmas show that the
      fuel handed over by the callers is always enough. *)

From Stdlib Require Import ZArith QArith Qround List Lia Bool String Ascii SpecFloat
  DecimalString.
From Stdlib.Strings Require Import Byte.
From stdpp Require Import base list.
Import ListNotations.
Local Open Scope Z_scope.

(** ** Go basics *)

Definition len {A} (l : list A) : Z := Z.of_nat (length l).

(** [s[i:]] and [s[i:j]] for in-range indices (all uses below are in
    range, see [nextFrame_bounds] and [scanFrames_bounds]). *)
Definition slice_from {A} (s : list A) (i : Z) : list A := drop (Z.to_nat i) s.
Definition slice {A} (s : list A) (i j : Z) : list A :=
  take (Z.to_nat (j - i)) (drop (Z.to_nat i) s).

Definition min_int64 : Z := - 2 ^ 63.
Definition max_int64 : Z := 2 ^ 63 - 1.
Definition wrap64 (z : Z) : Z := (z + 2 ^ 63) mod 2 ^ 64 - 2 ^ 63.

(** Errors built with [fmt.Errorf]; the wrapped ones keep their cause. *)
Inductive error : Type :=
| ErrNoFrames                      (* "no valid JPEG frames found" *)
| ErrInvalidSPS (cause : error)    (* "invalid SPS: %w" *)
| ErrInvalidPPS (cause : error)    (* "invalid PPS: %w" *)
| ErrTooShort                      (* "video too short or invalid" *)
| ErrFFmpegNotFound (cause : error)
| ErrDuration (cause : error)
| ErrFFmpeg (cause : error) (stderr : list byte)
| ErrSplit (cause : error)
| ErrTempDir (cause : error)
| ErrInject (cause : error)
| ErrWriteFile (cause : error)
| ErrExtract (cause : error)
| ErrEOF                           (* io.EOF *)
| ErrExternal (msg : string).      (* an error of the runtime or a library *)

(** ** [bytes.Index] *)

Module bytes.

Fixpoint HasPrefix (s prefix : list byte) {struct prefix} : bool :=
  match prefix with
  | [] => true
  | p :: prefix' =>
    match s with
    | x :: s' => Byte.eqb x p && HasPrefix s' prefix'
    | [] => false
    end
  end.

(** First position at which [sep] occurs in [s]. *)
Fixpoint index_opt (s sep : list byte) : option nat :=
  if HasPrefix s sep then Some O
  else match s with
       | [] => None
       | _ :: s' => option_map S (index_opt s' sep)
       end.

(** [bytes.Index(s, sep)], by the contract of the library: the index of
    the first instance of [sep] in [s], or -1 if [sep] is not present. *)
Definition Index (s sep : list byte) : Z :=
  match index_opt s sep with
  | Some k => Z.of_nat k
  | None => -1
  end.

End bytes.

(** ** JPEG markers *)

Definition jpegStart : list byte := [xff; xd8]. (* SOI *)
Definition jpegEnd : list byte := [xff; xd9].   (* EOI *)

(** ** The frame demuxer of [VideoProcessor] *)

Record framePos : Type := mkFramePos { start : Z; end_ : Z; index : Z }.

Record VideoProcessor : Type := mkVideoProcessor {
  FPS : Z;
  MaxWorkers : Z;
  BufferSize : Z;
  EnableHWAccel : bool;
  UseStreamMode : bool
}.

(** The loop of [splitJPEGFrames]; [frames] is the slice the loop appends
    to and [i] the scan cursor. *)
Fixpoint splitJPEGFrames_loop (fuel : nat) (data : list byte) (i : Z)
    (frames : list (list byte)) : option (list (list byte)) :=
  match fuel with
  | O => None
  | S fuel' =>
    if i <? len data then
      let startIdx := bytes.Index (slice_from data i) jpegStart in
      if startIdx =? -1 then Some frames
      else
        let startIdx := startIdx + i in
        let endIdx := bytes.Index (slice_from data (startIdx + 2)) jpegEnd in
        if endIdx =? -1 then Some frames
        else
          let endIdx := endIdx + startIdx + 2 + 2 in
          let frame := slice data startIdx endIdx in
          splitJPEGFrames_loop fuel' data endIdx (frames ++ [frame])
    else Some frames
  end.

Definition splitJPEGFrames (data : list byte)
    : option (list (list byte) * option error) :=
  match splitJPEGFrames_loop (S (length data)) data 0 [] with
  | None => None
  | Some frames =>
    if len frames =? 0 then Some ([], Some ErrNoFrames)
    else Some (frames, None)
  end.

(** The first pass of [splitJPEGFramesConcurrent]: the boundary scan. *)
Fixpoint scan_loop (fuel : nat) (data : list byte) (i frameIndex : Z)
    (positions : list framePos) : option (list framePos) :=
  match fuel with
  | O => None
  | S fuel' =>
    if i <? len data then
      let startIdx := bytes.Index (slice_from data i) jpegStart in
      if startIdx =? -1 then Some positions
      else
        let startIdx := startIdx + i in
        let endIdx := bytes.Index (slice_from data (startIdx + 2)) jpegEnd in
        if endIdx =? -1 then Some positions
        else
          let endIdx := endIdx + startIdx + 2 + 2 in
          scan_loop fuel' data endIdx (frameIndex + 1)
            (positions ++ [mkFramePos startIdx endIdx frameIndex])
    else Some positions
  end.

Definition scanFrames (data : list byte) : option (list framePos) :=
  scan_loop (S (length data)) data 0 0 [].

(** *** The second pass: a pool of workers copying the frames

    The goroutines of [splitJPEGFramesConcurrent] are modelled by an
    interleaving semantics. The state holds what the sender (the calling
    goroutine) has still to send, the buffer of the channel [jobs], the
    state of every worker and the shared slice [frames]. A schedule is
    the list of the atomic actions in the order they happen. *)

Inductive worker : Type :=
| Waiting                    (* blocked in [range jobs] *)
| Holding (pos : framePos)   (* received [pos], has not stored the frame *)
| Exited.                    (* left the loop, ran [wg.Done] *)

Record pool : Type := mkPool {
  pending : list framePos;
  jobs : list framePos;
  closed : bool;
  workers : list worker;
  frames : list (list byte);
  panicked : bool
}.

Inductive action : Type :=
| Send              (* [jobs <- pos] into a free slot of the buffer *)
| Handoff (w : nat) (* [jobs <- pos] taken directly by the waiting worker [w] *)
| Close             (* [close(jobs)] *)
| Recv (w : nat)    (* worker [w] takes the oldest job of the buffer *)
| Copy (w : nat)    (* worker [w] copies its frame and stores it *)
| Exit (w : nat).   (* worker [w] sees the closed, drained channel *)

Definition set_worker (w : nat) (x : worker) (s : pool) : pool :=
  mkPool (pending s) (jobs s) (closed s) (<[w := x]> (workers s))
         (frames s) (panicked s).

Section Pool.

Variable data : list byte.
Variable capacity : Z. (* [vp.BufferSize], the capacity of [jobs] *)

Definition exec (a : action) (s : pool) : option pool :=
  if panicked s then None
  else
    match a with
    | Send =>
      match pending s with
      | pos :: rest =>
        if len (jobs s) <? capacity
        then Some (mkPool rest (jobs s ++ [pos]) (closed s) (workers s)
                          (frames s) (panicked s))
        else None
      | [] => None
      end
    | Handoff w =>
      match pending s, jobs s, workers s !! w with
      | pos :: rest, [], Some Waiting =>
        Some (mkPool rest [] (closed s) (<[w := Holding pos]> (workers s))
                     (frames s) (panicked s))
      | _, _, _ => None
      end
    | Close =>
      match pending s, closed s with
      | [], false =>
        Some (mkPool [] (jobs s) true (workers s) (frames s) (panicked s))
      | _, _ => None
      end
    | Recv w =>
      match jobs s, workers s !! w with
      | pos :: rest, Some Waiting =>
        Some (mkPool (pending s) rest (closed s)
                     (<[w := Holding pos]> (workers s))
                     (frames s) (panicked s))
      | _, _ => None
      end
    | Copy w =>
      match workers s !! w with
      | Some (Holding pos) =>
        let frame := slice data (start pos) (end_ pos) in
        if (0 <=? index pos) && (index pos <? len (frames s))
        then Some (mkPool (pending s) (jobs s) (closed s)
                          (<[w := Waiting]> (workers s))
                          (<[Z.to_nat (index pos) := frame]> (frames s))
                          (panicked s))
        else (* index out of range *)
          Some (mkPool (pending s) (jobs s) (closed s) (workers s)
                       (frames s) true)
      | _ => None
      end
    | Exit w =>
      match workers s !! w, jobs s, closed s with
      | Some Waiting, [], true => Some (set_worker w Exited s)
      | _, _, _ => None
      end
    end.

Fixpoint run (sched : list action) (s : pool) : option pool :=
  match sched with
  | [] => Some s
  | a :: sched' =>
    match exec a s with
    | Some s' => run sched' s'
    | None => None
    end
  end.

End Pool.

Definition is_exited (w : worker) : bool :=
  match w with Exited => true | _ => false end.

(** [wg.Wait()] returns: everything is sent, the channel is closed and
    every worker has run [wg.Done]. *)
Definition returned (s : pool) : bool :=
  match pending s with
  | [] => closed s && forallb is_exited (workers s)
  | _ :: _ => false
  end.

Definition init_pool (vp : VideoProcessor) (positions : list framePos) : pool :=
  mkPool positions [] false
         (replicate (Z.to_nat (MaxWorkers vp)) Waiting)
         (replicate (length positions) [])
         false.

Inductive outcome (A : Type) : Type :=
| Returns (a : A)
| Panics.
Arguments Returns {A} a.
Arguments Panics {A}.

(** [splitJPEGFramesConcurrent] under the schedule [sched]; [None] when
    [sched] is not a complete run of the goroutines (an action that is
    not enabled, or [wg.Wait()] still blocked at its end). *)
Definition splitJPEGFramesConcurrent (vp : VideoProcessor) (data : list byte)
    (sched : list action) : option (outcome (list (list byte) * option error)) :=
  match scanFrames data with
  | None => None
  | Some positions =>
    if len positions =? 0 then Some (Returns ([], Some ErrNoFrames))
    else if BufferSize vp <? 0 then Some Panics (* makechan: size out of range *)
    else
      match run data (BufferSize vp) sched (init_pool vp positions) with
      | None => None
      | Some s =>
        if panicked s then Some Panics
        else if returned s then Some (Returns (frames s, None))
        else None
      end
  end.

(** The schedule in which worker 0 does all the work, one job at a time. *)
Definition serial_schedule (njobs nworkers : nat) : list action :=
  concat (replicate njobs [Handoff 0; Copy 0]) ++ [Close] ++ map Exit (seq 0 nworkers).

(** ** [float64] and the conversions the code uses

    IEEE 754 binary64 with round-to-nearest-even, on the specification
    floats of the standard library. *)

Module Float64.

Definition prec : Z := 53.
Definition emax : Z := 1024.

(** [float64(z)] *)
Definition of_int (z : Z) : spec_float := binary_normalize prec emax z 0 false.
Definition div : spec_float -> spec_float -> spec_float := SFdiv prec emax.
Definition mul : spec_float -> spec_float -> spec_float := SFmul prec emax.

(** [int(f)]: the fraction is discarded. Where the value does not fit
    the result is implementation-dependent; this is what amd64 gives. *)
Definition to_int (f : spec_float) : Z :=
  match f with
  | S754_zero _ => 0
  | S754_finite s m e =>
    let mag := if 0 <=? e then Zpos m * 2 ^ e else Zpos m / 2 ^ (- e) in
    let v := if s then - mag else mag in
    if (min_int64 <=? v) && (v <=? max_int64) then v else min_int64
  | _ => min_int64
  end.

End Float64.

(** [fmt.Sprintf("%d", z)] *)
Definition itoa (z : Z) : string := NilZero.string_of_int (Z.to_int z).

(** ** [VideoProcessor.ExtractFramesWithContext] *)

(** What the call does to the outside, in order. *)
Inductive event : Type :=
| EvLookPath (file : string)
| EvProbe (videoPath : string)            (* the ffprobe subprocess *)
| EvRun (name : string) (args : list string) (* the decode subprocess *)
| EvDemux (data : list byte).             (* the frame demuxer *)

Definition buildFFmpegArgs (vp : VideoProcessor) (videoPath : string) : list string :=
  let args := [] in
  let args := if EnableHWAccel vp then args ++ ["-hwaccel"; "auto"]%string else args in
  let args := args ++ ["-i"; videoPath]%string in
  let args := args ++ ["-vf"; String.append "fps=" (itoa (FPS vp))]%string in
  args ++ ["-f"; "image2pipe"; "-vcodec"; "mjpeg"; "-q:v"; "5";
           "-threads"; itoa (MaxWorkers vp); "-"]%string.

Section Extract.

(** The outside world: [exec.LookPath], [getVideoDuration] (the ffprobe
    subprocess and [strconv.ParseFloat] on its output) and [cmd.Run]
    with the captured standard output and standard error. *)
Variable LookPath : string -> option error.
Variable getVideoDuration : string -> spec_float * option error.
Variable Run : string -> list string -> list byte * list byte * option error.

Definition ExtractFramesWithContext (vp : VideoProcessor)
    (sched : list action) (videoPath : string)
    : list event * option (outcome (list (list byte) * option error)) :=
  let tr := [EvLookPath "ffmpeg"%string] in
  match LookPath "ffmpeg"%string with
  | Some err => (tr, Some (Returns ([], Some (ErrFFmpegNotFound err))))
  | None =>
    let tr := tr ++ [EvProbe videoPath] in
    match getVideoDuration videoPath with
    | (_, Some err) => (tr, Some (Returns ([], Some (ErrDuration err))))
    | (duration, None) =>
      let totalFrames := wrap64 (Float64.to_int duration * FPS vp) in
      if totalFrames =? 0 then (tr, Some (Returns ([], Some ErrTooShort)))
      else
        let args := buildFFmpegArgs vp videoPath in
        let tr := tr ++ [EvRun "ffmpeg"%string args] in
        match Run "ffmpeg"%string args with
        | (_, stderr, Some err) =>
          (tr, Some (Returns ([], Some (ErrFFmpeg err stderr))))
        | (stdout, _, None) =>
          let tr := tr ++ [EvDemux stdout] in
          match splitJPEGFramesConcurrent vp stdout sched with
          | Some (Returns (_, Some err)) =>
            (tr, Some (Returns ([], Some (ErrSplit err))))
          | r => (tr, r)
          end
        end
    end
  end.

End Extract.

(** ** [encoding/base64], the standard encoding with padding

    The stream processor is stated over any decoder and encoder (the
    section variables below); this one, RFC 4648 with the padding
    character, instantiates them. (Go's decoder also skips carriage
    returns and line feeds, which this one rejects.) *)

Module base64.

Definition value (c : ascii) : option N :=
  let n := N_of_ascii c in
  (if (65 <=? n) && (n <=? 90) then Some (n - 65)
   else if (97 <=? n) && (n <=? 122) then Some (n - 71)
   else if (48 <=? n) && (n <=? 57) then Some (n + 4)
   else if n =? 43 then Some 62
   else if n =? 47 then Some 63
   else None)%N.

Definition digit (v : N) : ascii :=
  (if v <? 26 then ascii_of_N (v + 65)
   else if v <? 52 then ascii_of_N (v + 71)
   else if v <? 62 then ascii_of_N (v - 4)
   else if v =? 62 then "+"%char
   else "/"%char)%N.

Definition byte_of (n : N) : byte :=
  match Byte.of_N (n mod 256) with Some x => x | None => x00 end.

Definition pad : ascii := "="%char.

Fixpoint decode (l : list ascii) : option (list byte) :=
  match l with
  | [] => Some []
  | a :: b :: c :: d :: rest =>
    match value a, value b with
    | Some va, Some vb =>
      let b0 := byte_of (va * 4 + vb / 16) in
      match value c, value d, rest with
      | Some vc, Some vd, _ =>
        option_map
          (fun tl => b0 :: byte_of (vb * 16 + vc / 4) :: byte_of (vc * 64 + vd) :: tl)
          (decode rest)
      | Some vc, None, [] =>
        if Ascii.eqb d pad then Some [b0; byte_of (vb * 16 + vc / 4)] else None
      | None, None, [] =>
        if Ascii.eqb c pad && Ascii.eqb d pad then Some [b0] else None
      | _, _, _ => None
      end
    | _, _ => None
    end%N
  | _ => None
  end.

Definition DecodeString (s : string) : list byte * option error :=
  match decode (list_ascii_of_string s) with
  | Some bytes => (bytes, None)
  | None => ([], Some (ErrExternal "illegal base64 data"))
  end.

Fixpoint encode (l : list byte) : list ascii :=
  match l with
  | [] => []
  | [x] =>
    let n := Byte.to_N x in
    [digit (n / 4); digit (n mod 4 * 16); pad; pad]%N
  | [x; y] =>
    let n := Byte.to_N x in
    let m := Byte.to_N y in
    [digit (n / 4); digit (n mod 4 * 16 + m / 16); digit (m mod 16 * 4); pad]%N
  | x :: y :: z :: rest =>
    let n := Byte.to_N x in
    let m := Byte.to_N y in
    let k := Byte.to_N z in
    ([digit (n / 4); digit (n mod 4 * 16 + m / 16);
      digit (m mod 16 * 4 + k / 64); digit (k mod 64)] ++ encode rest)%N
  end.

Definition EncodeToString (l : list byte) : string :=
  string_of_list_ascii (encode l).

End base64.

(** ** The stream processor *)

Module Stream.

Record StreamProcessor : Type := mkStreamProcessor {
  FPS : Z;
  TargetWidth : Z;
  TargetHeight : Z;
  Quality : Z;
  SPS : string;
  PPS : string;
  tempDir : string
}.

Definition NewStreamProcessor : StreamProcessor :=
  mkStreamProcessor 2 1120 1120 90 "Z0LADJoFAAABMA==" "aM48gA==" "".

Definition WithFPS (fps : Z) (sp : StreamProcessor) : StreamProcessor :=
  mkStreamProcessor fps (TargetWidth sp) (TargetHeight sp) (Quality sp)
                    (SPS sp) (PPS sp) (tempDir sp).

(** [((v + 13) / 28) * 28] on 64-bit integers; [/] truncates. *)
Definition round28 (v : Z) : Z := wrap64 (Z.quot (wrap64 (v + 13)) 28 * 28).

Definition WithResolution (width height : Z) (sp : StreamProcessor)
    : StreamProcessor :=
  let '(width, height) :=
    if negb (Z.rem width 28 =? 0) || negb (Z.rem height 28 =? 0)
    then (round28 width, round28 height)
    else (width, height) in
  mkStreamProcessor (FPS sp) width height (Quality sp)
                    (SPS sp) (PPS sp) (tempDir sp).

Definition WithQuality (quality : Z) (sp : StreamProcessor) : StreamProcessor :=
  let quality := if quality <? 1 then 1 else quality in
  let quality := if quality >? 100 then 100 else quality in
  mkStreamProcessor (FPS sp) (TargetWidth sp) (TargetHeight sp) quality
                    (SPS sp) (PPS sp) (tempDir sp).

Definition WithSPSPPS (sps pps : string) (sp : StreamProcessor)
    : StreamProcessor :=
  mkStreamProcessor (FPS sp) (TargetWidth sp) (TargetHeight sp) (Quality sp)
                    sps pps (tempDir sp).

Definition set_tempDir (dir : string) (sp : StreamProcessor) : StreamProcessor :=
  mkStreamProcessor (FPS sp) (TargetWidth sp) (TargetHeight sp) (Quality sp)
                    (SPS sp) (PPS sp) dir.

(** The first lines of [extractFramesFromH264]: quality to qscale. *)
Definition qscale (sp : StreamProcessor) : Z :=
  let q :=
    wrap64 (31 - Float64.to_int
                   (Float64.mul
                      (Float64.div (Float64.of_int (wrap64 (Quality sp - 1)))
                                   (Float64.of_int 99))
                      (Float64.of_int 29))) in
  let q := if q <? 2 then 2 else q in
  if q >? 31 then 31 else q.

(** The demuxer of the stream processor, the same loop as
    [VideoProcessor.splitJPEGFrames]. *)
Fixpoint splitJPEGFrames_loop (fuel : nat) (data : list byte) (i : Z)
    (frames : list (list byte)) : option (list (list byte)) :=
  match fuel with
  | O => None
  | S fuel' =>
    if i <? len data then
      let startIdx := bytes.Index (slice_from data i) jpegStart in
      if startIdx =? -1 then Some frames
      else
        let startIdx := startIdx + i in
        let endIdx := bytes.Index (slice_from data (startIdx + 2)) jpegEnd in
        if endIdx =? -1 then Some frames
        else
          let endIdx := endIdx + startIdx + 2 + 2 in
          let frame := slice data startIdx endIdx in
          splitJPEGFrames_loop fuel' data endIdx (frames ++ [frame])
    else Some frames
  end.

Definition splitJPEGFrames (data : list byte)
    : option (list (list byte) * option error) :=
  match splitJPEGFrames_loop (S (length data)) data 0 [] with
  | None => None
  | Some frames =>
    if len frames =? 0 then Some ([], Some ErrNoFrames)
    else Some (frames, None)
  end.

(** [os.RemoveAll] answers [rm]; the result carries the paths handed to
    it. The mutex is taken and released around the body. *)
Definition Cleanup (RemoveAll : string -> option error) (sp : StreamProcessor)
    : StreamProcessor * option error * list string :=
  if negb (String.eqb (tempDir sp) "")
  then
    let err := RemoveAll (tempDir sp) in
    (set_tempDir "" sp, err, [tempDir sp])
  else (sp, None, []).

(** What the system answers during one call of
    [ProcessH264StreamWithContext]. *)
Record syscalls : Type := mkSyscalls {
  MkdirTemp : string * option error;   (* [os.MkdirTemp("", "h264stream-*")] *)
  UnixNano : Z;                        (* [time.Now().UnixNano()] *)
  WriteFile : option error;            (* [os.WriteFile(h264Path, ...)] *)
  Run : list byte * list byte * option error (* ffmpeg: stdout, stderr, err *)
}.

Section Codec.

Variable DecodeString : string -> list byte * option error.
Variable EncodeToString : list byte -> string.

Definition startCode : list byte := [x00; x00; x00; x01].

Definition injectSPSPPS (sp : StreamProcessor) (h264Data : list byte)
    : list byte * option error :=
  match DecodeString (SPS sp) with
  | (_, Some err) => ([], Some (ErrInvalidSPS err))
  | (spsData, None) =>
    match DecodeString (PPS sp) with
    | (_, Some err) => ([], Some (ErrInvalidPPS err))
    | (ppsData, None) =>
      let buf := [] in
      let buf := buf ++ startCode in
      let buf := buf ++ spsData in
      let buf := buf ++ startCode in
      let buf := buf ++ ppsData in
      let buf := buf ++ h264Data in
      (buf, None)
    end
  end.

Definition ffmpegArgs (sp : StreamProcessor) (h264Path : string) : list string :=
  let d := itoa in
  ["-f"; "h264"; "-i"; h264Path; "-vf";
   String.concat ""
     ["fps="; d (FPS sp); ",scale="; d (TargetWidth sp); ":"; d (TargetHeight sp);
      ":force_original_aspect_ratio=decrease,pad="; d (TargetWidth sp); ":";
      d (TargetHeight sp); ":(ow-iw)/2:(oh-ih)/2"];
   "-f"; "image2pipe"; "-vcodec"; "mjpeg"; "-q:v"; d (qscale sp); "-"]%string.

Definition extractFramesFromH264 (w : syscalls) (sp : StreamProcessor)
    (h264Path : string) : option (list (list byte) * option error) :=
  let args := ffmpegArgs sp h264Path in
  match Run w with
  | (_, stderr, Some err) => Some ([], Some (ErrFFmpeg err stderr))
  | (stdout, _, None) =>
    match splitJPEGFrames stdout with
    | None => None
    | Some (_, Some err) => Some ([], Some (ErrSplit err))
    | Some (frames, None) => Some (frames, None)
    end
  end.

Definition ProcessH264StreamWithContext (w : syscalls) (sp : StreamProcessor)
    (h264Data : list byte)
    : option (StreamProcessor * (list string * option error)) :=
  let mk :=
    if String.eqb (tempDir sp) ""
    then match MkdirTemp w with
         | (_, Some err) => inl (ErrTempDir err)
         | (dir, None) => inr (set_tempDir dir sp)
         end
    else inr sp in
  match mk with
  | inl err => Some (sp, ([], Some err))
  | inr sp =>
    match injectSPSPPS sp h264Data with
    | (_, Some err) => Some (sp, ([], Some (ErrInject err)))
    | (fixedData, None) =>
      let h264Path :=
        String.concat "" [tempDir sp; "/stream_"; itoa (UnixNano w); ".h264"]%string in
      match WriteFile w with
      | Some err => Some (sp, ([], Some (ErrWriteFile err)))
      | None =>
        match extractFramesFromH264 w sp h264Path with
        | None => None
        | Some (_, Some err) => Some (sp, ([], Some (ErrExtract err)))
        | Some (frames, None) => Some (sp, (map EncodeToString frames, None))
        end
      end
    end
  end.

(** *** The worker of [StreamFrameExtractor.Start]

    The worker is run over the answers of its environment, one
    [turn] per iteration of the loop, and leaves a log of what it
    did. The channels are the [Send] and [Close] entries of the log. *)

Inductive entry : Type :=
| Call (chunk : list byte)      (* [ProcessH264StreamWithContext(ctx, chunk)] *)
| SendError (err : error)       (* [errorChannel <- err] *)
| SendFrame (frame : list byte) (* [frameChannel <- frameData] *)
| CloseError                    (* [close(errorChannel)] *)
| CloseFrame                    (* [close(frameChannel)] *)
| WgDone.                       (* [wg.Done()] *)

Record turn : Type := mkTurn {
  ctxDone : bool;                  (* [<-ctx.Done()] is ready at the top *)
  read : list byte * option error; (* [buffer[:n]] and [err] of [Read] *)
  sys : syscalls;
  cancelAt : option nat            (* the publish at which [<-ctx.Done()] wins *)
}.

Record session : Type := mkSession {
  processor : StreamProcessor;
  log : list entry;
  exited : bool
}.

(** The deferred calls, last first. *)
Definition leave (s : session) : session :=
  mkSession (processor s) (log s ++ [CloseError; CloseFrame; WgDone]) true.

Definition emit (es : list entry) (s : session) : session :=
  mkSession (processor s) (log s ++ es) (exited s).

Definition is_EOF (err : error) : bool :=
  match err with ErrEOF => true | _ => false end.

Definition frameData (frameB64 : string) : list byte := fst (DecodeString frameB64).

Definition step (t : turn) (s : session) : option session :=
  if exited s then Some s
  else if ctxDone t then Some (leave s)
  else
    match read t with
    | (_, Some err) =>
      Some (leave (if negb (is_EOF err) then emit [SendError err] s else s))
    | (chunk, None) =>
      if 0 <? len chunk then
        match ProcessH264StreamWithContext (sys t) (processor s) chunk with
        | None => None
        | Some (sp, (_, Some err)) =>
          Some (mkSession sp (log s ++ [Call chunk; SendError err]) false)
        | Some (sp, (frames, None)) =>
          let s := mkSession sp (log s ++ [Call chunk]) false in
          match cancelAt t with
          | Some k =>
            if (k <? length frames)%nat
            then Some (leave (emit (map SendFrame (map frameData (take k frames))) s))
            else Some (emit (map SendFrame (map frameData frames)) s)
          | None => Some (emit (map SendFrame (map frameData frames)) s)
          end
        end
      else Some s
    end.

Fixpoint worker (turns : list turn) (s : session) : option session :=
  match turns with
  | [] => Some s
  | t :: turns' =>
    match step t s with
    | Some s' => worker turns' s'
    | None => None
    end
  end.

Definition Start (sp : StreamProcessor) (turns : list turn) : option session :=
  worker turns (mkSession sp [] false).

End Codec.

End Stream.

(** ** Definitions used to state the properties *)

(** [l] contains the byte [a] immediately followed by the byte [b]. *)
Fixpoint has_pair (a b : byte) (l : list byte) : bool :=
  match l with
  | [] => false
  | x :: t =>
    (Byte.eqb x a && match t with y :: _ => Byte.eqb y b | [] => false end)
    || has_pair a b t
  end.

(** One iteration of the scan at cursor [i]: the byte range of the next
    frame, if the loop body reaches its end. *)
Definition nextFrame (data : list byte) (i : Z) : option (Z * Z) :=
  if i <? len data then
    let startIdx := bytes.Index (slice_from data i) jpegStart in
    if startIdx =? -1 then None
    else
      let startIdx := startIdx + i in
      let endIdx := bytes.Index (slice_from data (startIdx + 2)) jpegEnd in
      if endIdx =? -1 then None
      else Some (startIdx, endIdx + startIdx + 2 + 2)
  else None.

(** The byte ranges the scan visits from cursor [i] on. *)
Fixpoint frames_from (fuel : nat) (data : list byte) (i : Z)
    : option (list (Z * Z)) :=
  match fuel with
  | O => None
  | S fuel' =>
    match nextFrame data i with
    | None => Some []
    | Some (s, e) => option_map (cons (s, e)) (frames_from fuel' data e)
    end
  end.

Definition copy_range (data : list byte) (r : Z * Z) : list byte :=
  slice data (fst r) (snd r).

Definition copy_frame (data : list byte) (pos : framePos) : list byte :=
  slice data (start pos) (end_ pos).

(** A JPEG image with body [body], and a buffer of images, each after
    its filler, with a last filler [tail]. *)
Definition jpeg (body : list byte) : list byte := jpegStart ++ body ++ jpegEnd.

Definition stream (segs : list (list byte * list byte)) (tail : list byte)
    : list byte :=
  concat (map (fun seg => fst seg ++ jpeg (snd seg)) segs) ++ tail.



(** The qscale as the specification words it:
    [clamp(round(31 - (quality - 1) / 99 * 29), 2, 31)], on the rationals. *)
Definition clamp (v lo hi : Z) : Z := Z.max lo (Z.min hi v).
Definition spec_round (x : Q) : Z := Qfloor (x + (1 # 2))%Q.
Definition spec_qscale (quality : Z) : Z :=
  clamp (spec_round (31 - inject_Z (quality - 1) / 99 * 29)%Q) 2 31.

(** The smallest multiple of 28 at or above [v]. *)
Definition round_up28 (v : Z) : Z := 28 * ((v + 27) / 28).

Definition with_quality (quality : Z) : Stream.StreamProcessor :=
  Stream.mkStreamProcessor 2 1120 1120 quality "" "" "".

(** The buffer holds a start marker followed, later, by an end marker. *)
Definition has_frame (data : list byte) : Prop :=
  exists pre mid post, data = pre ++ jpegStart ++ mid ++ jpegEnd ++ post.

(** The positions the first pass records for the ranges [l], counted
    from [frameIndex]. *)
Definition positions_of (frameIndex : Z) (l : list (Z * Z)) : list framePos :=
  imap (fun k r => mkFramePos (fst r) (snd r) (frameIndex + Z.of_nat k)) l.

(** A worker holds [p]; [p] is still to be copied. *)
Definition holds (ws : list worker) (p : framePos) : Prop :=
  exists w, ws !! w = Some (Holding p).

Definition outstanding (s : pool) (p : framePos) : Prop :=
  p ∈ pending s \/ p ∈ jobs s \/ holds (workers s) p.

Definition weight (w : worker) : nat :=
  match w with Waiting => 1 | Holding _ => 2 | Exited => 0 end.

(** Every action makes this smaller. *)
Definition measure (s : pool) : nat :=
  3 * length (pending s) + 2 * length (jobs s)
  + list_sum (map weight (workers s)) + (if closed s then 0 else 1).

(** The invariant of the pool: what is still to be copied is a position
    of the scan, every position is either still to be copied or has its
    frame in its slot, and workers exit only from a closed, drained
    channel. *)
Record pool_inv (data : list byte) (positions : list framePos) (nworkers : nat)
    (s : pool) : Prop := mkPoolInv {
  inv_not_panicked : panicked s = false;
  inv_frames : length (frames s) = length positions;
  inv_workers : length (workers s) = nworkers;
  inv_known : forall p, outstanding s p -> exists k, positions !! k = Some p;
  inv_done : forall k p, positions !! k = Some p ->
             outstanding s p \/ frames s !! k = Some (copy_frame data p);
  inv_open : closed s = false -> forall w, workers s !! w <> Some Exited;
  inv_closed : closed s = true -> pending s = [];
  inv_drained : forall w, workers s !! w = Some Exited -> jobs s = []
}.
Arguments inv_not_panicked {data positions nworkers} s _.
Arguments inv_frames {data positions nworkers} s _.
Arguments inv_workers {data positions nworkers} s _.
Arguments inv_known {data positions nworkers} s _.
Arguments inv_done {data positions nworkers} s _.
Arguments inv_open {data positions nworkers} s _.
Arguments inv_closed {data positions nworkers} s _.
Arguments inv_drained {data positions nworkers} s _.

Definition example_vp : VideoProcessor := mkVideoProcessor 2 3 100 true false.

Definition half_second : spec_float := S754_finite false 4503599627370496 (-53).

(** The session of the specification: three chunks, the second of which
    the decoder rejects, then the end of the input. *)
Definition scenario_sys (run : list byte * list byte * option error) : Stream.syscalls :=
  Stream.mkSyscalls ("/tmp/h264stream-1"%string, None) 1 None run.

Definition scenario : list Stream.turn :=
  [Stream.mkTurn false ([x65; x01], None)
     (scenario_sys (jpeg [x0a] ++ jpeg [x0b], [], None)) None;
   Stream.mkTurn false ([x41; x02], None)
     (scenario_sys ([], [x45], Some (ErrExternal "exit status 1"))) None;
   Stream.mkTurn false ([x65; x03], None)
     (scenario_sys (jpeg [x0c], [], None)) None;
   Stream.mkTurn false ([], Some ErrEOF)
     (scenario_sys ([], [], None)) None].

(** Fillers hold no start marker and bodies no end marker; stray end
    markers in a filler are allowed. *)
Definition delimited (segs : list (list byte * list byte)) : bool :=
  forallb (fun seg => negb (has_pair xff xd8 (fst seg))
                      && negb (has_pair xff xd9 (snd seg))) segs.

Definition images (segs : list (list byte * list byte)) : list (list byte) :=
  map (fun seg => jpeg (snd seg)) segs.

(** The invariant of a pool without workers: nothing is ever copied. *)
Definition idle_inv (capacity : Z) (n : nat) (s : pool) : Prop :=
  workers s = [] /\ panicked s = false /\ frames s = replicate n [] /\
  (length (pending s) + length (jobs s) = n)%nat /\
  (jobs s = [] \/ len (jobs s) <= capacity).

(** ** The other operations of [VideoProcessor] *)

(** [numCPU] is [runtime.NumCPU()]. *)
Definition NewVideoProcessor (numCPU : Z) (fps : Z) : VideoProcessor :=
  mkVideoProcessor fps numCPU 100 true false.

Definition WithMaxWorkers (workers : Z) (vp : VideoProcessor) : VideoProcessor :=
  mkVideoProcessor (FPS vp) workers (BufferSize vp) (EnableHWAccel vp) (UseStreamMode vp).

Definition WithBufferSize (size : Z) (vp : VideoProcessor) : VideoProcessor :=
  mkVideoProcessor (FPS vp) (MaxWorkers vp) size (EnableHWAccel vp) (UseStreamMode vp).

Definition WithHWAccel (enable : bool) (vp : VideoProcessor) : VideoProcessor :=
  mkVideoProcessor (FPS vp) (MaxWorkers vp) (BufferSize vp) enable (UseStreamMode vp).

Definition WithStreamMode (enable : bool) (vp : VideoProcessor) : VideoProcessor :=
  mkVideoProcessor (FPS vp) (MaxWorkers vp) (BufferSize vp) (EnableHWAccel vp) enable.

Section ExtractStream.

(** [cmd.Run] of the ffmpeg subprocess fed with [videoData] on its
    standard input. *)
Variable RunStdin :
  string -> list string -> list byte -> list byte * list byte * option error.

Definition ExtractFramesFromStream (vp : VideoProcessor) (videoData : list byte)
    : option (list (list byte) * option error) :=
  let args :=
    ["-i"; "pipe:0"; "-vf"; String.append "fps=" (itoa (FPS vp));
     "-f"; "image2pipe"; "-vcodec"; "mjpeg"; "-"]%string in
  match RunStdin "ffmpeg"%string args videoData with
  | (_, stderr, Some err) => Some ([], Some (ErrFFmpeg err stderr))
  | (stdout, _, None) =>
    match splitJPEGFrames stdout with
    | None => None
    | Some (_, Some err) => Some ([], Some (ErrSplit err))
    | Some (frames, None) => Some (frames, None)
    end
  end.

End ExtractStream.

(** [jpegBounds frame] is [jpeg.Decode] of the frame: the width of the
    image, or the error. *)
Definition OptimizeFrameSize (jpegBounds : list byte -> Z * option error)
    (frame : list byte) (maxWidth : Z) : list byte * option error :=
  match jpegBounds frame with
  | (_, Some err) => ([], Some err)
  | (dx, None) =>
    if dx <=? maxWidth then (frame, None)
    else (frame, None)
  end.

(** A frame that is a complete image: start marker, body without end
    marker, end marker. *)
Definition is_image (frame : list byte) : Prop :=
  exists body, frame = jpegStart ++ body ++ jpegEnd /\ has_pair xff xd9 body = false.

(** Answers of the outside world used in the examples. *)
Definition found : string -> option error := fun _ => None.
Definition three_seconds : string -> spec_float * option error :=
  fun _ => (Float64.of_int 3, None).
Definition two_images : string -> list string -> list byte * list byte * option error :=
  fun _ _ => (jpeg [x0a] ++ jpeg [x0b], [], None).
Definition cut_image : string -> list string -> list byte * list byte * option error :=
  fun _ _ => ([xff; xd8; x00], [], None).

Definition in_int64 (z : Z) : Prop := min_int64 <= z <= max_int64.


(** The chunks handed to the pipeline, in the order of the log. *)
Fixpoint calls (log : list Stream.entry) : list (list byte) :=
  match log with
  | [] => []
  | Stream.Call chunk :: log' => chunk :: calls log'
  | _ :: log' => calls log'
  end.

(** The frames sent on the frame channel, in the order of the log. *)
Fixpoint sent_frames (log : list Stream.entry) : list (list byte) :=
  match log with
  | [] => []
  | Stream.SendFrame frame :: log' => frame :: sent_frames log'
  | _ :: log' => sent_frames log'
  end.

(** The non-empty chunks the source yields before its first error or
    end of input and before the cancellation is seen. *)
Fixpoint chunks_read (turns : list Stream.turn) : list (list byte) :=
  match turns with
  | [] => []
  | t :: turns' =>
    if Stream.ctxDone t then []
    else match Stream.read t with
         | (_, Some _) => []
         | (chunk, None) =>
           if 0 <? len chunk then chunk :: chunks_read turns'
           else chunks_read turns'
         end
  end.


Definition same_configuration (sp sp' : Stream.StreamProcessor) : Prop :=
  Stream.FPS sp' = Stream.FPS sp /\
  Stream.TargetWidth sp' = Stream.TargetWidth sp /\
  Stream.TargetHeight sp' = Stream.TargetHeight sp /\
  Stream.Quality sp' = Stream.Quality sp /\
  Stream.SPS sp' = Stream.SPS sp /\ Stream.PPS sp' = Stream.PPS sp.

(** ** The data model of the API ([models/types.go]) *)

Module models.

Record ImageURL : Type := mkImageURL {
  URL : string;
  Detail : string
}.

Record Content : Type := mkContent {
  Type_ : string;
  Text : string;
  ImageURL_ : option ImageURL  (* a pointer, [nil] for a text *)
}.

Record Message : Type := mkMessage {
  Role : string;
  Content_ : list Content
}.

Record ChatRequest : Type := mkChatRequest {
  Model : string;
  Messages : list Message;
  Temperature : option spec_float;
  TopP : option spec_float;
  MaxTokens : option Z;
  Stream : bool
}.

(** An element of [Choices]: the anonymous struct, with the fields of
    its [Message] beside the others. *)
Record Choice : Type := mkChoice {
  Index : Z;
  MessageRole : string;
  MessageContent : string;
  FinishReason : string
}.

Record Usage : Type := mkUsage {
  PromptTokens : Z;
  CompletionTokens : Z;
  TotalTokens : Z
}.

Record ChatResponse : Type := mkChatResponse {
  ID : string;
  Created : Z;
  ResponseModel : string;
  Choices : list Choice;
  Usage_ : Usage
}.

End models.

(** ** The client of the H.264 pipeline *)

Module http.

Record Request : Type := mkRequest {
  Method : string;
  URL : string;
  Header : list (string * string);
  Body : list byte
}.

(** [Header.Set]: the key gets the value, whatever it had. *)
Definition Set_ (key value : string) (r : Request) : Request :=
  mkRequest (Method r) (URL r)
            (filter (fun kv => negb (String.eqb (fst kv) key)) (Header r)
             ++ [(key, value)])
            (Body r).

(** The answer of the server: the status, and what [io.ReadAll] reads
    from the body. *)
Record Response : Type := mkResponse {
  StatusCode : Z;
  ReadAll : list byte * option error
}.

Definition StatusOK : Z := 200.

End http.

Module client.

Definition DefaultAPIURL : string :=
  "https://open.bigmodel.cn/api/paas/v4/chat/completions".
Definition DefaultModel : string := "glm-4.5v".
Definition EnvAPIKey : string := "ZHIPU_API_KEY".

(** The HTTP client of the source is the oracle [Do] below. *)
Record Client : Type := mkClient {
  APIKey : string;
  APIURL : string;
  Model : string;
  StreamProcessor : Stream.StreamProcessor
}.

Definition set_StreamProcessor (sp : Stream.StreamProcessor) (c : Client) : Client :=
  mkClient (APIKey c) (APIURL c) (Model c) sp.

Record ChatOptions : Type := mkChatOptions {
  Temperature : option spec_float;
  TopP : option spec_float;
  MaxTokens : option Z;
  Stream_ : bool
}.

(** The errors the client wraps. *)
Inductive failure : Type :=
| ErrMarshal (cause : error)        (* failed to marshal request: %w *)
| ErrCreateRequest (cause : error)  (* failed to create request: %w *)
| ErrSendRequest (cause : error)    (* failed to send request: %w *)
| ErrReadResponse (cause : error)   (* failed to read response: %w *)
| ErrAPI (status : Z) (body : list byte) (* API error (status %d): %s *)
| ErrUnmarshal (cause : error)      (* failed to unmarshal response: %w *)
| ErrProcessStream (cause : error)  (* failed to process H.264 stream: %w *)
| ErrDecodeFrame (i : Z) (cause : error). (* failed to decode frame %d: %w *)

(** [os.Getenv] answers [Getenv]. *)
Definition NewClient (Getenv : string -> string) (apiKey : string) : Client :=
  let apiKey := if String.eqb apiKey "" then Getenv EnvAPIKey else apiKey in
  mkClient apiKey DefaultAPIURL DefaultModel Stream.NewStreamProcessor.

Definition ConfigureStreamProcessor (fps width height quality : Z) (c : Client)
    : Client :=
  set_StreamProcessor
    (Stream.WithQuality quality
       (Stream.WithResolution width height
          (Stream.WithFPS fps (StreamProcessor c)))) c.

Definition SetStreamSPSPPS (sps pps : string) (c : Client) : Client :=
  set_StreamProcessor (Stream.WithSPSPPS sps pps (StreamProcessor c)) c.

Definition CleanupStreamProcessor (RemoveAll : string -> option error) (c : Client)
    : Client * option error * list string :=
  let '(sp, err, removed) := Stream.Cleanup RemoveAll (StreamProcessor c) in
  (set_StreamProcessor sp c, err, removed).

Section World.

Variable DecodeString : string -> list byte * option error.
Variable EncodeToString : list byte -> string.
(** [json.Marshal] of a request and [json.Unmarshal] into a response. *)
Variable Marshal : models.ChatRequest -> list byte * option error.
Variable Unmarshal : list byte -> models.ChatResponse * option error.
(** [http.NewRequest] checks the method and the URL. *)
Variable NewRequest : string -> string -> option error.
(** [c.HTTPClient.Do]. *)
Variable Do : http.Request -> http.Response * option error.

(** The result carries the requests handed to [Do]. *)
Definition AnalyzeFramesWithOptions (c : Client) (prompt : string)
    (frames : list (list byte)) (options : option ChatOptions)
    : list http.Request * (option models.ChatResponse * option failure) :=
  let contents := [models.mkContent "text" prompt None] in
  let contents :=
    fold_left
      (fun contents frame =>
         let base64Image := EncodeToString frame in
         contents ++
         [models.mkContent "image_url" ""
            (Some (models.mkImageURL
                     (String.append "data:image/jpeg;base64," base64Image)
                     "high"))])
      frames contents in
  let req :=
    models.mkChatRequest (Model c) [models.mkMessage "user" contents]
                         None None None false in
  let req :=
    match options with
    | Some options =>
      models.mkChatRequest (models.Model req) (models.Messages req)
                           (Temperature options) (TopP options)
                           (MaxTokens options) (Stream_ options)
    | None => req
    end in
  match Marshal req with
  | (_, Some err) => ([], (None, Some (ErrMarshal err)))
  | (reqBody, None) =>
    match NewRequest "POST" (APIURL c) with
    | Some err => ([], (None, Some (ErrCreateRequest err)))
    | None =>
      let httpReq := http.mkRequest "POST" (APIURL c) [] reqBody in
      let httpReq := http.Set_ "Content-Type" "application/json" httpReq in
      let httpReq :=
        http.Set_ "Authorization" (String.append "Bearer " (APIKey c)) httpReq in
      match Do httpReq with
      | (_, Some err) => ([httpReq], (None, Some (ErrSendRequest err)))
      | (resp, None) =>
        match http.ReadAll resp with
        | (_, Some err) => ([httpReq], (None, Some (ErrReadResponse err)))
        | (body, None) =>
          if negb (http.StatusCode resp =? http.StatusOK)
          then ([httpReq], (None, Some (ErrAPI (http.StatusCode resp) body)))
          else
            match Unmarshal body with
            | (_, Some err) => ([httpReq], (None, Some (ErrUnmarshal err)))
            | (chatResp, None) => ([httpReq], (Some chatResp, None))
            end
        end
      end
    end
  end.

Definition AnalyzeFrames (c : Client) (prompt : string) (frames : list (list byte))
    : list http.Request * (option models.ChatResponse * option failure) :=
  AnalyzeFramesWithOptions c prompt frames None.

(** The loop that decodes the base64 frames, from index [i]. *)
Fixpoint decodeFrames (i : Z) (base64Frames : list string)
    : list (list byte) + failure :=
  match base64Frames with
  | [] => inl []
  | b64Frame :: rest =>
    match DecodeString b64Frame with
    | (_, Some err) => inr (ErrDecodeFrame i err)
    | (frameData, None) =>
      match decodeFrames (i + 1) rest with
      | inl frames => inl (frameData :: frames)
      | inr err => inr err
      end
    end
  end.

(** [w] holds the answers of the system to the call of the pipeline;
    the client comes back with the processor as the pipeline left it. *)
Definition AnalyzeH264StreamWithOptions (w : Stream.syscalls) (c : Client)
    (h264Data : list byte) (prompt : string) (options : option ChatOptions)
    : option (Client * (list http.Request
                        * (option models.ChatResponse * option failure))) :=
  match Stream.ProcessH264StreamWithContext DecodeString EncodeToString w
          (StreamProcessor c) h264Data with
  | None => None
  | Some (sp, (_, Some err)) =>
    Some (set_StreamProcessor sp c, ([], (None, Some (ErrProcessStream err))))
  | Some (sp, (base64Frames, None)) =>
    let c := set_StreamProcessor sp c in
    match decodeFrames 0 base64Frames with
    | inr err => Some (c, ([], (None, Some err)))
    | inl frames => Some (c, AnalyzeFramesWithOptions c prompt frames options)
    end
  end.

Definition AnalyzeH264Stream (w : Stream.syscalls) (c : Client)
    (h264Data : list byte) (prompt : string)
    : option (Client * (list http.Request
                        * (option models.ChatResponse * option failure))) :=
  AnalyzeH264StreamWithOptions w c h264Data prompt None.

End World.

End client.

(** The base64 text of the data URI of an image of a request. *)
Definition payload (c : models.Content) : string :=
  match models.ImageURL_ c with
  | Some u =>
    String.substring 23 (String.length (models.URL u) - 23) (models.URL u)
  | None => ""%string
  end.

(** An image of a request: a data URI, in high detail. *)
Definition is_image_content (c : models.Content) : Prop :=
  models.Type_ c = "image_url"%string /\ models.Text c = ""%string /\
  exists b64,
    models.ImageURL_ c
    = Some (models.mkImageURL (String.append "data:image/jpeg;base64," b64) "high").

(** Answers of the outside world used in the examples. *)
Definition example_marshal : models.ChatRequest -> list byte * option error :=
  fun _ => ([x7b; x7d], None).
Definition example_response : models.ChatResponse :=
  models.mkChatResponse "1" 0 "glm-4.5v" [] (models.mkUsage 0 0 0).
Definition example_unmarshal : list byte -> models.ChatResponse * option error :=
  fun _ => (example_response, None).
Definition example_new_request : string -> string -> option error :=
  fun _ _ => None.
Definition example_do : http.Request -> http.Response * option error :=
  fun _ => (http.mkResponse 200 ([x7b; x7d], None), None).
Definition example_client : client.Client :=
  client.NewClient (fun _ => "key"%string) "".

(** ** The client of the video processor

    The earlier [client] package, with the data model it was written
    against (an image has only its URL, a request no options). *)

Module legacy_models.

Record ImageURL : Type := mkImageURL {
  URL : string
}.

Record Content : Type := mkContent {
  Type_ : string;
  Text : string;
  ImageURL_ : option ImageURL
}.

Record Message : Type := mkMessage {
  Role : string;
  Content_ : list Content
}.

Record ChatRequest : Type := mkChatRequest {
  Model : string;
  Messages : list Message
}.

End legacy_models.

Module legacy_client.

Record Client : Type := mkClient {
  APIKey : string;
  APIURL : string;
  Model : string;
  VideoProcessor_ : VideoProcessor;
  DefaultFPS : Z
}.

Inductive failure : Type :=
| ErrMarshal (cause : error)        (* failed to marshal request: %w *)
| ErrCreateRequest (cause : error)  (* failed to create request: %w *)
| ErrSendRequest (cause : error)    (* failed to send request: %w *)
| ErrReadResponse (cause : error)   (* failed to read response: %w *)
| ErrAPI (status : Z) (body : list byte) (* API error (status %d): %s *)
| ErrUnmarshal (cause : error)      (* failed to unmarshal response: %w *)
| ErrExtractFrames (cause : error)  (* failed to extract frames: %w *)
| ErrExtractStream (cause : error). (* failed to extract frames from stream: %w *)

(** [os.Getenv] answers [Getenv], and [runtime.NumCPU()] is [numCPU]. The
    constants of the package are those of [client]. *)
Definition NewClient (Getenv : string -> string) (numCPU : Z) (apiKey : string)
    : Client :=
  let apiKey :=
    if String.eqb apiKey "" then Getenv client.EnvAPIKey else apiKey in
  mkClient apiKey client.DefaultAPIURL client.DefaultModel
           (NewVideoProcessor numCPU 2) 2.

Definition SetFPS (numCPU : Z) (fps : Z) (c : Client) : Client :=
  mkClient (APIKey c) (APIURL c) (Model c) (NewVideoProcessor numCPU fps) fps.

Definition ConfigureProcessor (maxWorkers bufferSize : Z) (enableHWAccel : bool)
    (c : Client) : Client :=
  mkClient (APIKey c) (APIURL c) (Model c)
           (WithHWAccel enableHWAccel
              (WithBufferSize bufferSize
                 (WithMaxWorkers maxWorkers (VideoProcessor_ c))))
           (DefaultFPS c).

Section World.

Variable EncodeToString : list byte -> string.
Variable Marshal : legacy_models.ChatRequest -> list byte * option error.
Variable Unmarshal : list byte -> models.ChatResponse * option error.
Variable NewRequest : string -> string -> option error.
Variable Do : http.Request -> http.Response * option error.
Variable LookPath : string -> option error.
Variable getVideoDuration : string -> spec_float * option error.
Variable Run : string -> list string -> list byte * list byte * option error.
Variable RunStdin :
  string -> list string -> list byte -> list byte * list byte * option error.

Definition AnalyzeFrames (c : Client) (prompt : string) (frames : list (list byte))
    : list http.Request * (option models.ChatResponse * option failure) :=
  let contents := [legacy_models.mkContent "text" prompt None] in
  let contents :=
    fold_left
      (fun contents frame =>
         let base64Image := EncodeToString frame in
         contents ++
         [legacy_models.mkContent "image_url" ""
            (Some (legacy_models.mkImageURL
                     (String.append "data:image/jpeg;base64," base64Image)))])
      frames contents in
  let req := legacy_models.mkChatRequest (Model c) [legacy_models.mkMessage "user" contents] in
  match Marshal req with
  | (_, Some err) => ([], (None, Some (ErrMarshal err)))
  | (reqBody, None) =>
    match NewRequest "POST" (APIURL c) with
    | Some err => ([], (None, Some (ErrCreateRequest err)))
    | None =>
      let httpReq := http.mkRequest "POST" (APIURL c) [] reqBody in
      let httpReq := http.Set_ "Content-Type" "application/json" httpReq in
      let httpReq :=
        http.Set_ "Authorization" (String.append "Bearer " (APIKey c)) httpReq in
      match Do httpReq with
      | (_, Some err) => ([httpReq], (None, Some (ErrSendRequest err)))
      | (resp, None) =>
        match http.ReadAll resp with
        | (_, Some err) => ([httpReq], (None, Some (ErrReadResponse err)))
        | (body, None) =>
          if negb (http.StatusCode resp =? http.StatusOK)
          then ([httpReq], (None, Some (ErrAPI (http.StatusCode resp) body)))
          else
            match Unmarshal body with
            | (_, Some err) => ([httpReq], (None, Some (ErrUnmarshal err)))
            | (chatResp, None) => ([httpReq], (Some chatResp, None))
            end
        end
      end
    end
  end.

(** [sched] is the schedule of the worker pool of the extraction. *)
Definition AnalyzeVideo (c : Client) (sched : list action)
    (videoPath prompt : string)
    : list event
      * option (outcome (list http.Request
                         * (option models.ChatResponse * option failure))) :=
  match ExtractFramesWithContext LookPath getVideoDuration Run
          (VideoProcessor_ c) sched videoPath with
  | (tr, None) => (tr, None)
  | (tr, Some Panics) => (tr, Some Panics)
  | (tr, Some (Returns (_, Some err))) =>
    (tr, Some (Returns ([], (None, Some (ErrExtractFrames err)))))
  | (tr, Some (Returns (frames, None))) =>
    (tr, Some (Returns (AnalyzeFrames c prompt frames)))
  end.

Definition AnalyzeVideoFromStream (c : Client) (videoData : list byte)
    (prompt : string)
    : option (list http.Request
              * (option models.ChatResponse * option failure)) :=
  match ExtractFramesFromStream RunStdin (VideoProcessor_ c) videoData with
  | None => None
  | Some (_, Some err) => Some ([], (None, Some (ErrExtractStream err)))
  | Some (frames, None) => Some (AnalyzeFrames c prompt frames)
  end.

End World.

End legacy_client.

Definition example_legacy_marshal
    : legacy_models.ChatRequest -> list byte * option error :=
  fun _ => ([x7b; x7d], None).
Definition example_legacy_client : legacy_client.Client :=
  legacy_client.NewClient (fun _ => "key"%string) 4 "".

(** Linear arithmetic with division and remainder by constants. *)
Ltac divlia := zify; Z.to_euclidean_division_equations; lia.

Ltac members :=
  rewrite ?elem_of_app, ?elem_of_cons, ?elem_of_nil; intuition (subst; auto).

(** ** [bytes.Index] finds the first occurrence *)

Lemma HasPrefix_true s p :
  bytes.HasPrefix s p = true <-> exists rest, s = p ++ rest.
Proof.
  revert s; induction p as [|x p IH]; intros s; simpl.
  - split; [eauto | reflexivity].
  - destruct s as [|y s]; simpl.
    + split; [discriminate | intros [r Hr]; discriminate].
    + rewrite andb_true_iff, IH. split.
      * intros [Hxy [r ->]]. apply Byte.byte_dec_bl in Hxy. subst. eauto.
      * intros [r Hr]. injection Hr as -> ->. split; eauto.
        apply Byte.byte_dec_lb. reflexivity.
Qed.

Lemma index_opt_Some s sep k :
  bytes.index_opt s sep = Some k ->
  bytes.HasPrefix (drop k s) sep = true /\
  forall j, (j < k)%nat -> bytes.HasPrefix (drop j s) sep = false.
Proof.
  revert k; induction s as [|x s IH]; intros k; cbn [bytes.index_opt].
  - destruct (bytes.HasPrefix [] sep) eqn:E; [|discriminate].
    intros [= <-]. split; [exact E | intros; lia].
  - destruct (bytes.HasPrefix (x :: s) sep) eqn:E.
    + intros [= <-]. split; [exact E | intros; lia].
    + destruct (bytes.index_opt s sep) as [k'|] eqn:Ek; [|discriminate].
      cbn [option_map]. intros [= <-]. destruct (IH k' eq_refl) as [H1 H2].
      split; [exact H1|]. intros [|j] Hj; [exact E | apply H2; lia].
Qed.

Lemma index_opt_None s sep :
  bytes.index_opt s sep = None ->
  forall j, bytes.HasPrefix (drop j s) sep = false.
Proof.
  induction s as [|x s IH]; cbn [bytes.index_opt].
  - destruct (bytes.HasPrefix [] sep) eqn:E; [discriminate|].
    intros _ j. rewrite drop_nil. exact E.
  - destruct (bytes.HasPrefix (x :: s) sep) eqn:E; [discriminate|].
    destruct (bytes.index_opt s sep) eqn:Ek; [discriminate|].
    intros _ [|j]; [exact E | apply IH; reflexivity].
Qed.

Lemma index_opt_occurs u sep v :
  exists k, bytes.index_opt (u ++ sep ++ v) sep = Some k /\ (k <= length u)%nat.
Proof.
  induction u as [|x u [k [Hk Hle]]].
  - exists O. split; [|simpl; lia]. cbn [app].
    assert (H : bytes.HasPrefix (sep ++ v) sep = true)
      by (apply HasPrefix_true; eauto).
    destruct (sep ++ v); cbn [bytes.index_opt]; rewrite H; reflexivity.
  - cbn [app bytes.index_opt].
    destruct (bytes.HasPrefix (x :: u ++ sep ++ v) sep).
    + exists O. split; [reflexivity | lia].
    + exists (S k). rewrite Hk. split; [reflexivity | simpl; lia].
Qed.

Lemma index_opt_le s sep k :
  bytes.index_opt s sep = Some k -> (k <= length s)%nat.
Proof.
  revert k; induction s as [|x s IH]; intros k; cbn [bytes.index_opt].
  - destruct (bytes.HasPrefix [] sep); intros [= <-]. simpl. lia.
  - destruct (bytes.HasPrefix (x :: s) sep); [intros [= <-]; simpl; lia|].
    destruct (bytes.index_opt s sep) as [k'|]; [|discriminate].
    intros [= <-]. specialize (IH k' eq_refl). simpl. lia.
Qed.

Lemma index_opt_bound s sep k :
  bytes.index_opt s sep = Some k -> (k + length sep <= length s)%nat.
Proof.
  intros H. pose proof (index_opt_le _ _ _ H) as Hle.
  apply index_opt_Some in H as [H _].
  apply HasPrefix_true in H as [r Hr].
  assert (L : length (drop k s) = length (sep ++ r)) by (rewrite Hr; reflexivity).
  rewrite length_drop, length_app in L. lia.
Qed.

Lemma index_opt_split s sep k :
  bytes.index_opt s sep = Some k ->
  exists rest, s = take k s ++ sep ++ rest /\ drop (k + length sep) s = rest.
Proof.
  intros H. apply index_opt_Some in H as [H _].
  apply HasPrefix_true in H as [r Hr]. exists r. split.
  - rewrite <- Hr. symmetry. apply take_drop.
  - rewrite <- drop_drop, Hr. apply drop_app_length.
Qed.

Lemma index_opt_pair a b f rest :
  a <> b -> has_pair a b f = false ->
  bytes.index_opt (f ++ a :: b :: rest) [a; b] = Some (length f).
Proof.
  intros Hab. induction f as [|x f IH]; intros Hf.
  - simpl. rewrite !Byte.byte_dec_lb by reflexivity. reflexivity.
  - simpl in Hf. apply orb_false_iff in Hf as [Hx Hf].
    cbn [app bytes.index_opt length].
    replace (bytes.HasPrefix (x :: f ++ a :: b :: rest) [a; b]) with false.
    + rewrite IH by exact Hf. reflexivity.
    + symmetry. simpl. destruct f as [|y f]; simpl in *.
      * destruct (Byte.eqb x a); simpl; [|reflexivity].
        destruct (Byte.eqb a b) eqn:E; [|reflexivity].
        apply Byte.byte_dec_bl in E. contradiction.
      * destruct (Byte.eqb x a); simpl in *; [|reflexivity].
        rewrite Hx. reflexivity.
Qed.


Lemma Index_found s sep k :
  bytes.index_opt s sep = Some k -> bytes.Index s sep = Z.of_nat k.
Proof. unfold bytes.Index. intros ->. reflexivity. Qed.

Lemma Index_missing s sep :
  bytes.index_opt s sep = None -> bytes.Index s sep = -1.
Proof. unfold bytes.Index. intros ->. reflexivity. Qed.

Lemma Index_cases s sep :
  (bytes.Index s sep = -1 /\ bytes.index_opt s sep = None) \/
  (exists k, bytes.Index s sep = Z.of_nat k /\ bytes.index_opt s sep = Some k).
Proof.
  unfold bytes.Index. destruct (bytes.index_opt s sep); [right | left]; eauto.
Qed.

(** ** The scan, one frame at a time *)

Lemma splitJPEGFrames_loop_unfold fuel data i frames :
  splitJPEGFrames_loop (S fuel) data i frames =
  match nextFrame data i with
  | None => Some frames
  | Some (s, e) => splitJPEGFrames_loop fuel data e (frames ++ [slice data s e])
  end.
Proof.
  unfold nextFrame. cbn [splitJPEGFrames_loop].
  destruct (i <? len data); [|reflexivity].
  destruct (_ =? -1); [reflexivity|].
  destruct (_ =? -1); reflexivity.
Qed.

Lemma scan_loop_unfold fuel data i frameIndex positions :
  scan_loop (S fuel) data i frameIndex positions =
  match nextFrame data i with
  | None => Some positions
  | Some (s, e) =>
    scan_loop fuel data e (frameIndex + 1) (positions ++ [mkFramePos s e frameIndex])
  end.
Proof.
  unfold nextFrame. cbn [scan_loop].
  destruct (i <? len data); [|reflexivity].
  destruct (_ =? -1); [reflexivity|].
  destruct (_ =? -1); reflexivity.
Qed.

Lemma splitJPEGFrames_loop_frames_from fuel data i frames :
  splitJPEGFrames_loop fuel data i frames =
  option_map (fun l => frames ++ map (copy_range data) l) (frames_from fuel data i).
Proof.
  revert i frames; induction fuel as [|fuel IH]; intros i frames; [reflexivity|].
  rewrite splitJPEGFrames_loop_unfold. cbn [frames_from].
  destruct (nextFrame data i) as [[s e]|]; cbn [option_map].
  - rewrite IH. destruct (frames_from fuel data e); cbn [option_map map]; [|reflexivity].
    rewrite <- app_assoc. reflexivity.
  - rewrite app_nil_r. reflexivity.
Qed.

Lemma scan_loop_frames_from fuel data i frameIndex positions :
  scan_loop fuel data i frameIndex positions =
  option_map (fun l => positions ++ positions_of frameIndex l) (frames_from fuel data i).
Proof.
  revert i frameIndex positions; induction fuel as [|fuel IH];
    intros i frameIndex positions; [reflexivity|].
  rewrite scan_loop_unfold. cbn [frames_from].
  destruct (nextFrame data i) as [[s e]|]; cbn [option_map].
  - rewrite IH. destruct (frames_from fuel data e); cbn [option_map]; [|reflexivity].
    rewrite <- app_assoc. unfold positions_of. cbn [imap app fst snd].
    rewrite Z.add_0_r. do 3 f_equal. apply imap_ext. intros k r _. simpl.
    f_equal. lia.
  - rewrite app_nil_r. reflexivity.
Qed.

Lemma len_slice_from {A} (s : list A) i :
  0 <= i <= len s -> len (slice_from s i) = len s - i.
Proof. unfold len, slice_from. rewrite length_drop. lia. Qed.

Lemma nextFrame_bounds data i s e :
  0 <= i -> nextFrame data i = Some (s, e) ->
  i <= s /\ s + 4 <= e /\ e <= len data.
Proof.
  intros Hi. unfold nextFrame.
  destruct (i <? len data) eqn:Hlt; [|discriminate]. apply Z.ltb_lt in Hlt.
  destruct (Index_cases (slice_from data i) jpegStart) as [[-> _]|[k [-> Hk]]];
    [discriminate|].
  destruct (Z.of_nat k =? -1); [discriminate|].
  apply index_opt_bound in Hk. apply Nat2Z.inj_le in Hk.
  rewrite Nat2Z.inj_add in Hk. fold (len (slice_from data i)) in Hk.
  rewrite len_slice_from in Hk by lia. simpl in Hk.
  destruct (Index_cases (slice_from data (Z.of_nat k + i + 2)) jpegEnd)
    as [[-> _]|[m [-> Hm]]]; [discriminate|].
  destruct (Z.of_nat m =? -1); [discriminate|].
  apply index_opt_bound in Hm. apply Nat2Z.inj_le in Hm.
  rewrite Nat2Z.inj_add in Hm. fold (len (slice_from data (Z.of_nat k + i + 2))) in Hm.
  rewrite len_slice_from in Hm by lia. simpl in Hm.
  intros [= <- <-]. lia.
Qed.

(** The fuel the callers hand over is enough. *)
Lemma frames_from_total fuel data i :
  0 <= i -> (Z.to_nat (len data - i) < fuel)%nat ->
  exists l, frames_from fuel data i = Some l.
Proof.
  revert i; induction fuel as [|fuel IH]; intros i Hi Hf; [lia|].
  cbn [frames_from]. destruct (nextFrame data i) as [[s e]|] eqn:En; [|eauto].
  apply nextFrame_bounds in En as (H1 & H2 & H3); [|exact Hi].
  destruct (IH e) as [l Hl]; [lia | lia |]. rewrite Hl. simpl. eauto.
Qed.

Lemma frames_from_det fuel1 fuel2 data i l1 l2 :
  frames_from fuel1 data i = Some l1 -> frames_from fuel2 data i = Some l2 ->
  l1 = l2.
Proof.
  revert fuel2 i l1 l2; induction fuel1 as [|fuel1 IH];
    intros [|fuel2] i l1 l2; try discriminate.
  cbn [frames_from]. destruct (nextFrame data i) as [[s e]|]; [|congruence].
  destruct (frames_from fuel1 data e) as [t1|] eqn:E1; [|discriminate].
  destruct (frames_from fuel2 data e) as [t2|] eqn:E2; [|discriminate].
  simpl. intros [= <-] [= <-]. f_equal. eapply IH; eassumption.
Qed.

Lemma frames_from_ranges fuel data i l :
  0 <= i -> frames_from fuel data i = Some l ->
  Forall (fun r => i <= fst r /\ fst r + 4 <= snd r /\ snd r <= len data) l.
Proof.
  revert i l; induction fuel as [|fuel IH]; intros i l Hi; [discriminate|].
  cbn [frames_from]. destruct (nextFrame data i) as [[s e]|] eqn:En.
  - apply nextFrame_bounds in En as (H1 & H2 & H3); [|exact Hi].
    destruct (frames_from fuel data e) as [t|] eqn:Et; [|discriminate].
    intros [= <-]. constructor; [simpl; lia|].
    eapply Forall_impl; [apply (IH e t); [lia | exact Et]|].
    simpl. intros r. lia.
  - intros [= <-]. constructor.
Qed.

(** The frames of a buffer: the ranges the scan finds in it. *)
Lemma scan_ranges data :
  exists l, frames_from (S (length data)) data 0 = Some l.
Proof. apply frames_from_total; unfold len; lia. Qed.

Lemma splitJPEGFrames_ranges data l :
  frames_from (S (length data)) data 0 = Some l ->
  splitJPEGFrames data =
  Some (match l with
        | [] => ([], Some ErrNoFrames)
        | _ :: _ => (map (copy_range data) l, None)
        end).
Proof.
  intros H. unfold splitJPEGFrames.
  rewrite splitJPEGFrames_loop_frames_from, H. cbn [option_map app].
  destruct l; reflexivity.
Qed.

Lemma scanFrames_ranges data l :
  frames_from (S (length data)) data 0 = Some l ->
  scanFrames data = Some (positions_of 0 l).
Proof.
  intros H. unfold scanFrames. rewrite scan_loop_frames_from, H. reflexivity.
Qed.

Lemma Stream_splitJPEGFrames_loop_eq fuel data i frames :
  Stream.splitJPEGFrames_loop fuel data i frames =
  splitJPEGFrames_loop fuel data i frames.
Proof.
  revert i frames; induction fuel as [|fuel IH]; intros i frames; [reflexivity|].
  cbn [Stream.splitJPEGFrames_loop splitJPEGFrames_loop].
  destruct (i <? len data); [|reflexivity].
  destruct (_ =? -1); [reflexivity|].
  destruct (_ =? -1); [reflexivity|]. apply IH.
Qed.

(** The sequential demuxer returns on every buffer. *)
Lemma splitJPEGFrames_total data : exists r, splitJPEGFrames data = Some r.
Proof.
  destruct (scan_ranges data) as [l Hl].
  rewrite (splitJPEGFrames_ranges data l Hl). eauto.
Qed.

(** The two copies of the sequential demuxer are the same function. *)
Lemma Stream_splitJPEGFrames_eq data :
  Stream.splitJPEGFrames data = splitJPEGFrames data.
Proof.
  unfold Stream.splitJPEGFrames, splitJPEGFrames.
  rewrite Stream_splitJPEGFrames_loop_eq. reflexivity.
Qed.

(** ** The worker pool: invariant, progress and termination *)

Lemma holds_insert (ws : list worker) w x p :
  holds (<[w := x]> ws) p -> x = Holding p \/ holds ws p.
Proof.
  intros [w' Hw']. destruct (decide (w = w')) as [->|Hne].
  - destruct (decide (w' < length ws)%nat).
    + rewrite list_lookup_insert_eq in Hw' by assumption. left. congruence.
    + rewrite list_insert_ge in Hw' by lia. right. exists w'. exact Hw'.
  - rewrite list_lookup_insert_ne in Hw' by assumption. right. exists w'. exact Hw'.
Qed.

Lemma holds_insert_other (ws : list worker) w x y p :
  ws !! w = Some y -> y <> Holding p -> holds ws p -> holds (<[w := x]> ws) p.
Proof.
  intros Hy Hne [w' Hw']. exists w'.
  rewrite list_lookup_insert_ne; [exact Hw' | congruence].
Qed.

Lemma holds_insert_same (ws : list worker) w y p :
  ws !! w = Some y -> holds (<[w := Holding p]> ws) p.
Proof.
  intros Hy. exists w. apply list_lookup_insert_eq.
  apply lookup_lt_Some in Hy. exact Hy.
Qed.

Lemma list_sum_insert (ws : list worker) w x y :
  ws !! w = Some y ->
  (list_sum (map weight (<[w := x]> ws)) + weight y
   = list_sum (map weight ws) + weight x)%nat.
Proof.
  revert w; induction ws as [|z ws IH]; intros [|w] H; try discriminate.
  - injection H as ->. simpl. lia.
  - simpl in H. specialize (IH w H). simpl. lia.
Qed.

Lemma worker_cases (ws : list worker) :
  (exists w p, ws !! w = Some (Holding p)) \/
  (forall w x, ws !! w = Some x -> x = Waiting \/ x = Exited).
Proof.
  induction ws as [|z ws [(w & p & H)|IH]].
  - right. intros w x H. discriminate.
  - left. exists (S w), p. exact H.
  - destruct z as [|p|].
    + right. intros [|w] x H; [injection H as <-; auto | eauto].
    + left. exists O, p. reflexivity.
    + right. intros [|w] x H; [injection H as <-; auto | eauto].
Qed.

Lemma not_all_exited (ws : list worker) :
  forallb is_exited ws = false ->
  exists w x, ws !! w = Some x /\ is_exited x = false.
Proof.
  induction ws as [|z ws IH]; [discriminate|]. simpl.
  destruct (is_exited z) eqn:E; simpl.
  - intros H. destruct (IH H) as (w & x & Hw & Hx). exists (S w), x. auto.
  - intros _. exists O, z. auto.
Qed.

Lemma all_exited (ws : list worker) w x :
  forallb is_exited ws = true -> ws !! w = Some x -> x = Exited.
Proof.
  revert w; induction ws as [|z ws IH]; intros w; [discriminate|]. simpl.
  intros H. apply andb_true_iff in H as [Hz Hws].
  destruct w as [|w]; simpl.
  - intros [= <-]. destruct z; try discriminate. reflexivity.
  - apply IH. exact Hws.
Qed.

Section PoolFacts.

Variable data : list byte.
Variable capacity : Z.
Variable positions : list framePos.
Variable nworkers : nat.

Hypothesis positions_index :
  forall k p, positions !! k = Some p -> index p = Z.of_nat k.

Local Abbreviation pool_inv := (pool_inv data positions nworkers).

Lemma exited_closed s w :
  pool_inv s -> workers s !! w = Some Exited -> closed s = true /\ pending s = [].
Proof.
  intros I Hw. destruct (closed s) eqn:E.
  - split; [reflexivity | apply (inv_closed s I E)].
  - exfalso. exact (inv_open s I E w Hw).
Qed.

Lemma known_index s p :
  pool_inv s -> outstanding s p ->
  positions !! Z.to_nat (index p) = Some p /\
  0 <= index p < len (frames s).
Proof.
  intros I Hp. destruct (inv_known s I p Hp) as [k Hk].
  rewrite (positions_index k p Hk), Nat2Z.id. split; [exact Hk|].
  apply lookup_lt_Some in Hk. unfold len. rewrite (inv_frames s I). lia.
Qed.

Lemma exec_inv a s s' :
  pool_inv s -> exec data capacity a s = Some s' -> pool_inv s'.
Proof.
  intros I. unfold exec. rewrite (inv_not_panicked s I).
  destruct a as [|w| |w|w|w].
  - (* Send *)
    destruct (pending s) as [|pos rest] eqn:Ep; [discriminate|].
    destruct (len (jobs s) <? capacity); [|discriminate]. intros [= <-].
    constructor; cbn [panicked frames workers closed pending jobs];
      try apply I; try reflexivity.
    + intros p Hp. apply (inv_known s I). revert Hp. unfold outstanding.
      cbn [pending jobs workers]. rewrite Ep. members.
    + intros k p Hk. destruct (inv_done s I k p Hk) as [Hp|Hp]; [left|right; exact Hp].
      revert Hp. unfold outstanding. cbn [pending jobs workers]. rewrite Ep. members.
    + intros Hc. apply (inv_closed s I) in Hc. congruence.
    + intros w Hw. destruct (exited_closed s w I Hw) as [_ Hp]. congruence.
  - (* Handoff *)
    destruct (pending s) as [|pos rest] eqn:Ep; [discriminate|].
    destruct (jobs s) as [|] eqn:Ej; [|discriminate].
    destruct (workers s !! w) as [[| |]|] eqn:Ew; try discriminate. intros [= <-].
    constructor; cbn [panicked frames workers closed pending jobs];
      try apply I; try reflexivity.
    + rewrite length_insert. apply I.
    + intros p Hp. apply (inv_known s I). revert Hp. unfold outstanding.
      cbn [pending jobs workers]. rewrite Ep, Ej.
      intros [Hp|[Hp|Hp]]; [revert Hp; members | revert Hp; members |].
      apply holds_insert in Hp as [[= ->]|Hp]; [members | auto].
    + intros k p Hk. destruct (inv_done s I k p Hk) as [Hp|Hp]; [left|right; exact Hp].
      revert Hp. unfold outstanding. cbn [pending jobs workers]. rewrite Ep, Ej.
      intros [Hp|[Hp|Hp]].
      * apply elem_of_cons in Hp as [->|Hp]; [|auto].
        right; right. eapply holds_insert_same; eassumption.
      * revert Hp; members.
      * right; right. eapply holds_insert_other; [eassumption | discriminate | exact Hp].
    + intros Hc w' Hw'. destruct (decide (w = w')) as [->|Hne].
      * rewrite list_lookup_insert_eq in Hw' by (eapply lookup_lt_Some; eassumption).
        discriminate.
      * rewrite list_lookup_insert_ne in Hw' by assumption.
        exact (inv_open s I Hc w' Hw').
    + intros Hc. apply (inv_closed s I) in Hc. congruence.
  - (* Close *)
    destruct (pending s) as [|] eqn:Ep; [|discriminate].
    destruct (closed s) eqn:Ec; [discriminate|]. intros [= <-].
    constructor; cbn [panicked frames workers closed pending jobs];
      try apply I; try reflexivity.
    + intros p Hp. apply (inv_known s I). revert Hp. unfold outstanding.
      cbn [pending jobs workers]. rewrite Ep. auto.
    + intros k p Hk. destruct (inv_done s I k p Hk) as [Hp|Hp]; [left|right; exact Hp].
      revert Hp. unfold outstanding. cbn [pending jobs workers]. rewrite Ep. auto.
    + discriminate.
  - (* Recv *)
    destruct (jobs s) as [|pos rest] eqn:Ej; [discriminate|].
    destruct (workers s !! w) as [[| |]|] eqn:Ew; try discriminate. intros [= <-].
    constructor; cbn [panicked frames workers closed pending jobs];
      try apply I; try reflexivity.
    + rewrite length_insert. apply I.
    + intros p Hp. apply (inv_known s I). revert Hp. unfold outstanding.
      cbn [pending jobs workers]. rewrite Ej.
      intros [Hp|[Hp|Hp]]; [revert Hp; members | revert Hp; members |].
      apply holds_insert in Hp as [[= ->]|Hp]; [members | auto].
    + intros k p Hk. destruct (inv_done s I k p Hk) as [Hp|Hp]; [left|right; exact Hp].
      revert Hp. unfold outstanding. cbn [pending jobs workers]. rewrite Ej.
      intros [Hp|[Hp|Hp]].
      * auto.
      * apply elem_of_cons in Hp as [->|Hp]; [|auto].
        right; right. eapply holds_insert_same; eassumption.
      * right; right. eapply holds_insert_other; [eassumption | discriminate | exact Hp].
    + intros Hc w' Hw'. destruct (decide (w = w')) as [->|Hne].
      * rewrite list_lookup_insert_eq in Hw' by (eapply lookup_lt_Some; eassumption).
        discriminate.
      * rewrite list_lookup_insert_ne in Hw' by assumption.
        exact (inv_open s I Hc w' Hw').
    + intros w' Hw'. destruct (decide (w = w')) as [->|Hne].
      * rewrite list_lookup_insert_eq in Hw' by (eapply lookup_lt_Some; eassumption).
        discriminate.
      * rewrite list_lookup_insert_ne in Hw' by assumption.
        pose proof (inv_drained s I w' Hw'). congruence.
  - (* Copy *)
    destruct (workers s !! w) as [[|pos|]|] eqn:Ew; try discriminate.
    assert (Hout : outstanding s pos) by (right; right; exists w; exact Ew).
    destruct (known_index s pos I Hout) as [Hpos Hrange].
    replace ((0 <=? index pos) && (index pos <? len (frames s))) with true
      by (symmetry; apply andb_true_iff; split; [apply Z.leb_le | apply Z.ltb_lt]; lia).
    intros [= <-].
    constructor; cbn [panicked frames workers closed pending jobs];
      try apply I; try reflexivity.
    + rewrite length_insert. apply I.
    + rewrite length_insert. apply I.
    + intros p Hp. apply (inv_known s I). revert Hp. unfold outstanding.
      cbn [pending jobs workers].
      intros [Hp|[Hp|Hp]]; [auto | auto |].
      apply holds_insert in Hp as [Hp|Hp]; [discriminate | auto].
    + intros k p Hk.
      destruct (decide (k = Z.to_nat (index pos))) as [->|Hne].
      * right. assert (p = pos) by congruence. subst p.
        apply list_lookup_insert_eq. unfold len in Hrange. lia.
      * rewrite list_lookup_insert_ne by congruence.
        destruct (inv_done s I k p Hk) as [Hp|Hp]; [left|right; exact Hp].
        revert Hp. unfold outstanding. cbn [pending jobs workers].
        intros [Hp|[Hp|Hp]]; [auto | auto |].
        right; right. eapply holds_insert_other; [eassumption | | exact Hp].
        intros [= ->]. apply positions_index in Hk. lia.
    + intros Hc w' Hw'. destruct (decide (w = w')) as [->|Hne].
      * rewrite list_lookup_insert_eq in Hw' by (eapply lookup_lt_Some; eassumption).
        discriminate.
      * rewrite list_lookup_insert_ne in Hw' by assumption.
        exact (inv_open s I Hc w' Hw').
    + intros w' Hw'. destruct (decide (w = w')) as [->|Hne].
      * rewrite list_lookup_insert_eq in Hw' by (eapply lookup_lt_Some; eassumption).
        discriminate.
      * rewrite list_lookup_insert_ne in Hw' by assumption.
        exact (inv_drained s I w' Hw').
  - (* Exit *)
    destruct (workers s !! w) as [[| |]|] eqn:Ew; try discriminate.
    destruct (jobs s) as [|] eqn:Ej; [|discriminate].
    destruct (closed s) eqn:Ec; [|discriminate]. intros [= <-].
    unfold set_worker.
    constructor; cbn [panicked frames workers closed pending jobs];
      try apply I; try reflexivity.
    + rewrite length_insert. apply I.
    + intros p Hp. apply (inv_known s I). revert Hp. unfold outstanding.
      cbn [pending jobs workers].
      intros [Hp|[Hp|Hp]]; [auto | auto |].
      apply holds_insert in Hp as [Hp|Hp]; [discriminate | auto].
    + intros k p Hk. destruct (inv_done s I k p Hk) as [Hp|Hp]; [left|right; exact Hp].
      revert Hp. unfold outstanding. cbn [pending jobs workers].
      intros [Hp|[Hp|Hp]]; [auto | auto |].
      right; right. eapply holds_insert_other; [eassumption | discriminate | exact Hp].
    + rewrite Ec. discriminate.
    + intros ? _. exact Ej.
Qed.

Lemma run_inv sched s s' :
  pool_inv s -> run data capacity sched s = Some s' -> pool_inv s'.
Proof.
  revert s; induction sched as [|a sched IH]; intros s I; cbn [run].
  - intros [= <-]. exact I.
  - destruct (exec data capacity a s) as [s1|] eqn:E; [|discriminate].
    apply IH. eapply exec_inv; eassumption.
Qed.

Lemma exec_panicked a s s' :
  exec data capacity a s = Some s' -> panicked s = false.
Proof. unfold exec. destruct (panicked s); [discriminate | reflexivity]. Qed.

Lemma exec_measure a s s' :
  exec data capacity a s = Some s' -> panicked s' = false ->
  (measure s' < measure s)%nat.
Proof.
  unfold exec, measure. destruct (panicked s); [discriminate|].
  destruct a as [|w| |w|w|w].
  - destruct (pending s) as [|pos rest]; [discriminate|].
    destruct (len (jobs s) <? capacity); [|discriminate]. intros [= <-] _.
    cbn [pending jobs workers closed]. rewrite length_app. simpl. lia.
  - destruct (pending s) as [|pos rest]; [discriminate|].
    destruct (jobs s) as [|]; [|discriminate].
    destruct (workers s !! w) as [[| |]|] eqn:Ew; try discriminate.
    intros [= <-] _. cbn [pending jobs workers closed].
    pose proof (list_sum_insert _ w (Holding pos) _ Ew) as H. simpl in *. lia.
  - destruct (pending s) as [|]; [|discriminate].
    destruct (closed s); [discriminate|]. intros [= <-] _.
    cbn [pending jobs workers closed]. lia.
  - destruct (jobs s) as [|pos rest]; [discriminate|].
    destruct (workers s !! w) as [[| |]|] eqn:Ew; try discriminate.
    intros [= <-] _. cbn [pending jobs workers closed].
    pose proof (list_sum_insert _ w (Holding pos) _ Ew) as H. simpl in *. lia.
  - destruct (workers s !! w) as [[|pos|]|] eqn:Ew; try discriminate.
    destruct ((0 <=? index pos) && (index pos <? len (frames s)));
      intros [= <-]; [|discriminate]. intros _.
    cbn [pending jobs workers closed].
    pose proof (list_sum_insert _ w Waiting _ Ew) as H. simpl in *. lia.
  - destruct (workers s !! w) as [[| |]|] eqn:Ew; try discriminate.
    destruct (jobs s) as [|] eqn:Ej; [|discriminate].
    destruct (closed s) eqn:Ec; [|discriminate]. intros [= <-] _.
    cbn [set_worker pending jobs workers closed]. rewrite Ej, Ec.
    pose proof (list_sum_insert _ w Exited _ Ew) as H. simpl in *. lia.
Qed.

(** No schedule is longer than the measure of the state it starts in. *)
Lemma run_bounded sched s s' :
  run data capacity sched s = Some s' -> panicked s' = false ->
  (length sched + measure s' <= measure s)%nat.
Proof.
  revert s; induction sched as [|a sched IH]; intros s; cbn [run].
  - intros [= <-] _. simpl. lia.
  - destruct (exec data capacity a s) as [s1|] eqn:E; [|discriminate].
    intros Hr Hp. specialize (IH s1 Hr Hp).
    assert (panicked s1 = false).
    { destruct sched as [|b sched]; cbn [run] in Hr.
      - injection Hr as ->. exact Hp.
      - destruct (exec data capacity b s1) eqn:Eb; [|discriminate].
        eapply exec_panicked; eassumption. }
    pose proof (exec_measure a s s1 E ltac:(assumption)). simpl. lia.
Qed.

(** No deadlock: while [wg.Wait()] has not returned, some goroutine
    can move. *)
Lemma progress s :
  pool_inv s -> (0 < nworkers)%nat -> returned s = false ->
  exists a s', exec data capacity a s = Some s'.
Proof.
  intros I Hn Hr. pose proof (inv_not_panicked s I) as Hp.
  destruct (worker_cases (workers s)) as [(w & p & Hw)|Hws].
  { exists (Copy w). unfold exec. rewrite Hp, Hw. destruct (_ && _); eauto. }
  assert (H0 : exists x, workers s !! O = Some x).
  { apply lookup_lt_is_Some. rewrite (inv_workers s I). exact Hn. }
  destruct H0 as [x0 Hx0].
  unfold returned in Hr.
  destruct (pending s) as [|pos rest] eqn:Ep.
  - destruct (closed s) eqn:Ec.
    + simpl in Hr. apply not_all_exited in Hr as (w & x & Hw & Hx).
      destruct (Hws w x Hw) as [->| ->]; [|discriminate].
      destruct (jobs s) as [|j js] eqn:Ej.
      * exists (Exit w). unfold exec. rewrite Hp, Hw, Ej, Ec. eauto.
      * exists (Recv w). unfold exec. rewrite Hp, Ej, Hw. eauto.
    + exists Close. unfold exec. rewrite Hp, Ep, Ec. eauto.
  - assert (Ec : closed s = false).
    { destruct (closed s) eqn:Ec; [|reflexivity].
      apply (inv_closed s I) in Ec. congruence. }
    destruct (Hws O x0 Hx0) as [->| ->];
      [|exfalso; exact (inv_open s I Ec O Hx0)].
    destruct (jobs s) as [|j js] eqn:Ej.
    + exists (Handoff O). unfold exec. rewrite Hp, Ep, Ej, Hx0. eauto.
    + exists (Recv O). unfold exec. rewrite Hp, Ej, Hx0. eauto.
Qed.

(** Every state of a run can be continued until [wg.Wait()] returns. *)
Lemma terminates s :
  pool_inv s -> (0 < nworkers)%nat ->
  exists sched s', run data capacity sched s = Some s' /\ returned s' = true.
Proof.
  intros I Hn. remember (measure s) as m eqn:Hm. revert s I Hm.
  induction m as [m IH] using lt_wf_ind. intros s I Hm.
  destruct (returned s) eqn:Hr.
  - exists [], s. split; [reflexivity | exact Hr].
  - destruct (progress s I Hn Hr) as (a & s1 & Ha).
    pose proof (exec_inv a s s1 I Ha) as I1.
    pose proof (exec_measure a s s1 Ha (inv_not_panicked s1 I1)) as Hlt.
    destruct (IH (measure s1) ltac:(lia) s1 I1 eq_refl) as (sched & s2 & H1 & H2).
    exists (a :: sched), s2. cbn [run]. rewrite Ha. auto.
Qed.

(** When [wg.Wait()] returns every slot holds its frame. *)
Lemma returned_frames s :
  pool_inv s -> (0 < nworkers)%nat -> returned s = true ->
  frames s = map (copy_frame data) positions.
Proof.
  intros I Hn Hr. unfold returned in Hr.
  destruct (pending s) as [|] eqn:Ep; [|discriminate].
  apply andb_true_iff in Hr as [Hc Hall].
  assert (Hj : jobs s = []).
  { destruct (lookup_lt_is_Some_2 (workers s) O) as [x Hx].
    - rewrite (inv_workers s I). exact Hn.
    - apply (inv_drained s I O). rewrite Hx. f_equal.
      eapply all_exited; eassumption. }
  assert (Hnone : forall p, ~ outstanding s p).
  { intros p [Hp|[Hp|[w Hw]]].
    - rewrite Ep in Hp. inversion Hp.
    - rewrite Hj in Hp. inversion Hp.
    - pose proof (all_exited _ _ _ Hall Hw). discriminate. }
  apply list_eq. intros k. change (map (copy_frame data) positions)
    with (copy_frame data <$> positions).
  rewrite list_lookup_fmap. destruct (positions !! k) as [p|] eqn:Hk; simpl.
  - destruct (inv_done s I k p Hk) as [Hp|Hp]; [|exact Hp].
    destruct (Hnone p Hp).
  - apply lookup_ge_None. apply lookup_ge_None in Hk.
    rewrite (inv_frames s I). exact Hk.
Qed.

End PoolFacts.

Lemma positions_of_index l k p :
  positions_of 0 l !! k = Some p -> index p = Z.of_nat k.
Proof.
  unfold positions_of. rewrite list_lookup_imap.
  destruct (l !! k); simpl; intros [= <-]. simpl. lia.
Qed.

Lemma positions_of_length i l : length (positions_of i l) = length l.
Proof. apply length_imap. Qed.

Lemma copy_positions data i l :
  map (copy_frame data) (positions_of i l) = map (copy_range data) l.
Proof.
  revert i; induction l as [|r l IH]; intros i; [reflexivity|].
  unfold positions_of in *. cbn [imap map]. f_equal.
  rewrite <- (IH (i + 1)). f_equal. apply imap_ext. intros k x _. simpl.
  f_equal. lia.
Qed.

Lemma init_pool_inv data vp positions :
  pool_inv data positions (Z.to_nat (MaxWorkers vp)) (init_pool vp positions).
Proof.
  unfold init_pool. constructor; cbn [panicked frames workers closed pending jobs].
  - reflexivity.
  - apply length_replicate.
  - apply length_replicate.
  - intros p [Hp|[Hp|[w Hw]]]; cbn [pending jobs workers] in *.
    + apply list_elem_of_lookup in Hp. exact Hp.
    + inversion Hp.
    + apply lookup_replicate in Hw as [Hw _]. discriminate.
  - intros k p Hk. left. left. cbn [pending]. eapply list_elem_of_lookup_2. exact Hk.
  - intros _ w Hw. apply lookup_replicate in Hw as [Hw _]. discriminate.
  - discriminate.
  - reflexivity.
Qed.

Lemma run_app data capacity sched1 sched2 s :
  run data capacity (sched1 ++ sched2) s =
  match run data capacity sched1 s with
  | Some s1 => run data capacity sched2 s1
  | None => None
  end.
Proof.
  revert s; induction sched1 as [|a sched1 IH]; intros s; cbn [app run]; [reflexivity|].
  destruct (exec data capacity a s); [apply IH | reflexivity].
Qed.

(** What a complete run of the concurrent demuxer returns, by the ranges
    the scan finds. *)
Lemma concurrent_ranges vp data l sched o :
  1 <= MaxWorkers vp -> 0 <= BufferSize vp ->
  frames_from (S (length data)) data 0 = Some l ->
  splitJPEGFramesConcurrent vp data sched = Some o ->
  o = Returns (match l with
               | [] => ([], Some ErrNoFrames)
               | _ :: _ => (map (copy_range data) l, None)
               end).
Proof.
  intros Hw Hb Hl. unfold splitJPEGFramesConcurrent.
  rewrite (scanFrames_ranges data l Hl).
  unfold len. rewrite positions_of_length.
  destruct l as [|r l']; [intros [= <-]; reflexivity|].
  set (l := r :: l') in *. cbn [length].
  replace (Z.of_nat (S (length l')) =? 0) with false by (symmetry; apply Z.eqb_neq; lia).
  replace (BufferSize vp <? 0) with false by (symmetry; apply Z.ltb_ge; lia).
  destruct (run data (BufferSize vp) sched (init_pool vp (positions_of 0 l)))
    as [s|] eqn:Hrun; [|discriminate].
  pose proof (run_inv data (BufferSize vp) (positions_of 0 l) _
                (positions_of_index l) sched _ s (init_pool_inv data vp _) Hrun) as I.
  rewrite (inv_not_panicked s I).
  destruct (returned s) eqn:Hr; [|discriminate]. intros [= <-].
  rewrite (returned_frames data (positions_of 0 l) _ s I ltac:(lia) Hr).
  rewrite copy_positions. reflexivity.
Qed.

(** Some schedule completes; indeed every run can be completed. *)
Lemma concurrent_completes vp data sched s :
  1 <= MaxWorkers vp ->
  forall positions,
  (forall k p, positions !! k = Some p -> index p = Z.of_nat k) ->
  run data (BufferSize vp) sched (init_pool vp positions) = Some s ->
  exists sched' s',
    run data (BufferSize vp) (sched ++ sched') (init_pool vp positions) = Some s' /\
    returned s' = true /\ panicked s' = false.
Proof.
  intros Hw positions Hidx Hrun.
  pose proof (run_inv data (BufferSize vp) positions _ Hidx sched _ s
                (init_pool_inv data vp _) Hrun) as I.
  destruct (terminates data (BufferSize vp) positions _ Hidx s I ltac:(lia))
    as (sched' & s' & H1 & H2).
  exists sched', s'. rewrite run_app, Hrun. split; [exact H1|]. split; [exact H2|].
  apply (@inv_not_panicked data positions (Z.to_nat (MaxWorkers vp))).
  eapply run_inv; eassumption.
Qed.




(** Why the pool needs a worker and the channel a capacity: without
    workers the jobs stay in the buffer and the slots stay empty, and a
    negative capacity makes [make] panic. *)
Example no_workers :
  splitJPEGFramesConcurrent (mkVideoProcessor 2 0 100 true false)
    (jpeg [x0a] ++ jpeg [x0b]) [Send; Send; Close]
  = Some (Returns ([[]; []], None)).
Proof. reflexivity. Qed.

Example negative_capacity :
  splitJPEGFramesConcurrent (mkVideoProcessor 2 4 (-1) true false)
    (jpeg [x0a] ++ jpeg [x0b]) []
  = Some Panics.
Proof. reflexivity. Qed.

Example serial_schedule_runs :
  splitJPEGFramesConcurrent example_vp (jpeg [x0a] ++ jpeg [x0b]) (serial_schedule 2 3)
  = Some (Returns ([jpeg [x0a]; jpeg [x0b]], None)).
Proof. reflexivity. Qed.

(** ** Frame positions *)

Lemma scanFrames_bounds data :
  exists positions, scanFrames data = Some positions /\
    Forall (fun pos => 0 <= start pos /\ start pos + 4 <= end_ pos
                       /\ end_ pos <= len data) positions.
Proof.
  destruct (scan_ranges data) as [l Hl]. exists (positions_of 0 l).
  split; [apply scanFrames_ranges; exact Hl|].
  pose proof (frames_from_ranges _ data 0 l ltac:(lia) Hl) as H.
  apply Forall_lookup. intros k pos Hk. unfold positions_of in Hk.
  rewrite list_lookup_imap in Hk. destruct (l !! k) as [r|] eqn:Er; [|discriminate].
  injection Hk as <-. simpl. eapply Forall_lookup in H; [|exact Er]. exact H.
Qed.

(** C8, as amended. The scan of the concurrent demuxer finds its
    positions on every buffer, and each of them satisfies
    [end > start >= 0]: a frame has at least the four bytes of its two
    markers, and it may begin at offset 0. *)
Theorem framePos_bounds data :
  exists positions, scanFrames data = Some positions /\
    Forall (fun pos => end_ pos > start pos /\ start pos >= 0) positions.
Proof.
  destruct (scanFrames_bounds data) as (positions & Hs & Hb).
  exists positions. split; [exact Hs|].
  eapply Forall_impl; [exact Hb|]. simpl. intros pos. lia.
Qed.

(** C8, as stated, fails: the frame at the beginning of the buffer has
    start offset 0. *)
Lemma framePos_start_zero :
  exists pos, scanFrames [xff; xd8; xff; xd9] = Some [pos] /\
    ~ (end_ pos > start pos /\ start pos > 0).
Proof.
  exists (mkFramePos 0 4 0). split; [reflexivity|]. simpl. lia.
Qed.

(** ** No frames *)

Lemma nextFrame_eq data i :
  nextFrame data i =
  if i <? len data then
    match bytes.index_opt (slice_from data i) jpegStart with
    | None => None
    | Some k =>
      match bytes.index_opt (slice_from data (Z.of_nat k + i + 2)) jpegEnd with
      | None => None
      | Some m => Some (Z.of_nat k + i, Z.of_nat m + (Z.of_nat k + i) + 2 + 2)
      end
    end
  else None.
Proof.
  unfold nextFrame, bytes.Index. destruct (i <? len data); [|reflexivity].
  destruct (bytes.index_opt (slice_from data i) jpegStart) as [k|]; [|reflexivity].
  replace (Z.of_nat k =? -1) with false by (symmetry; apply Z.eqb_neq; lia).
  destruct (bytes.index_opt (slice_from data (Z.of_nat k + i + 2)) jpegEnd) as [m|];
    [|reflexivity].
  replace (Z.of_nat m =? -1) with false by (symmetry; apply Z.eqb_neq; lia).
  reflexivity.
Qed.

Lemma nextFrame_has_frame data r : nextFrame data 0 = Some r -> has_frame data.
Proof.
  rewrite nextFrame_eq. destruct (0 <? len data); [|discriminate].
  unfold slice_from. simpl (Z.to_nat 0). rewrite drop_0.
  destruct (bytes.index_opt data jpegStart) as [k|] eqn:Hk; [|discriminate].
  apply index_opt_split in Hk as (rest & Hd & Hrest).
  replace (Z.to_nat (Z.of_nat k + 0 + 2)) with (k + length jpegStart)%nat
    by (simpl; lia).
  rewrite Hrest.
  destruct (bytes.index_opt rest jpegEnd) as [m|] eqn:Hm; [|discriminate].
  apply index_opt_split in Hm as (post & Hr & _). intros _.
  exists (take k data), (take m rest), post. rewrite <- Hr. exact Hd.
Qed.

Lemma has_frame_nextFrame data : has_frame data -> exists r, nextFrame data 0 = Some r.
Proof.
  intros (pre & mid & post & Hd). rewrite nextFrame_eq.
  assert (Hlen : (0 <? len data) = true).
  { apply Z.ltb_lt. unfold len. rewrite Hd, !length_app. simpl. lia. }
  rewrite Hlen. unfold slice_from. change (Z.to_nat 0) with O. rewrite drop_0.
  destruct (index_opt_occurs pre jpegStart (mid ++ jpegEnd ++ post)) as (k & Hk & Hle).
  rewrite <- Hd in Hk. rewrite Hk.
  replace (Z.to_nat (Z.of_nat k + 0 + 2)) with (k + 2)%nat by lia.
  assert (Hdrop : drop (k + 2) data
                  = drop (k + 2) (pre ++ jpegStart ++ mid) ++ jpegEnd ++ post).
  { rewrite Hd. rewrite <- drop_app_le.
    - rewrite <- !app_assoc. reflexivity.
    - rewrite !length_app. simpl. lia. }
  rewrite Hdrop.
  destruct (index_opt_occurs (drop (k + 2) (pre ++ jpegStart ++ mid)) jpegEnd post)
    as (m & Hm & _).
  rewrite Hm. eauto.
Qed.

Lemma no_ranges_iff data l :
  frames_from (S (length data)) data 0 = Some l ->
  (l = [] <-> ~ has_frame data).
Proof.
  cbn [frames_from]. destruct (nextFrame data 0) as [[s e]|] eqn:En.
  - destruct (frames_from (length data) data e); [|discriminate].
    intros [= <-]. split; [discriminate|]. intros H. destruct H.
    eapply nextFrame_has_frame. exact En.
  - intros [= <-]. split; [|reflexivity]. intros _ H.
    apply has_frame_nextFrame in H as [r Hr]. congruence.
Qed.

(** The concurrent demuxer, for any pool: its error, and the number of
    frames it returns. *)
Lemma concurrent_result vp data l sched frames err :
  frames_from (S (length data)) data 0 = Some l ->
  splitJPEGFramesConcurrent vp data sched = Some (Returns (frames, err)) ->
  length frames = length l /\
  (err = Some ErrNoFrames <-> l = []) /\ (err = None <-> l <> []).
Proof.
  intros Hl. unfold splitJPEGFramesConcurrent.
  rewrite (scanFrames_ranges data l Hl). unfold len. rewrite positions_of_length.
  destruct l as [|r l'].
  - intros [= <- <-]. repeat split; auto; try discriminate.
    intros H. destruct H. reflexivity.
  - set (l := r :: l') in *.
    replace (Z.of_nat (length l) =? 0) with false
      by (symmetry; apply Z.eqb_neq; simpl; lia).
    destruct (BufferSize vp <? 0); [discriminate|].
    destruct (run data (BufferSize vp) sched (init_pool vp (positions_of 0 l)))
      as [s|] eqn:Hrun; [|discriminate].
    pose proof (run_inv data (BufferSize vp) (positions_of 0 l) _
                  (positions_of_index l) sched _ s (init_pool_inv data vp _) Hrun) as I.
    rewrite (inv_not_panicked s I).
    destruct (returned s); [|discriminate]. intros [= <- <-].
    rewrite (inv_frames s I), positions_of_length.
    repeat split; auto; discriminate.
Qed.

(** C4. On every buffer the demuxer returns, and returns the error "no
    valid JPEG frames found" exactly when the buffer holds no start
    marker followed by an end marker; there is no other error, and a
    result without error is never empty. The same holds for the copy in
    the stream processor and for every complete run of the concurrent
    demuxer. *)
Theorem no_frames_iff data :
  exists frames err,
    splitJPEGFrames data = Some (frames, err) /\
    Stream.splitJPEGFrames data = Some (frames, err) /\
    (err = Some ErrNoFrames <-> ~ has_frame data) /\
    (err = Some ErrNoFrames <-> frames = []) /\
    (err = None <-> frames <> []) /\
    (forall vp sched frames' err',
       splitJPEGFramesConcurrent vp data sched = Some (Returns (frames', err')) ->
       (err' = Some ErrNoFrames <-> ~ has_frame data) /\
       (err' = None <-> frames' <> [])).
Proof.
  destruct (scan_ranges data) as [l Hl].
  pose proof (no_ranges_iff data l Hl) as Hno.
  pose proof (splitJPEGFrames_ranges data l Hl) as Hs.
  assert (Hc : forall vp sched frames' err',
       splitJPEGFramesConcurrent vp data sched = Some (Returns (frames', err')) ->
       (err' = Some ErrNoFrames <-> ~ has_frame data) /\
       (err' = None <-> frames' <> [])).
  { intros vp sched frames' err' H.
    destruct (concurrent_result vp data l sched frames' err' Hl H) as (H1 & H2 & H3).
    split; [rewrite H2; exact Hno|]. rewrite H3.
    destruct l, frames'; simpl in H1; try discriminate; split; congruence. }
  destruct l as [|r l'].
  - exists [], (Some ErrNoFrames).
    split; [exact Hs|]. split; [rewrite Stream_splitJPEGFrames_eq; exact Hs|].
    split; [split; [intros _; apply Hno; reflexivity | reflexivity]|].
    split; [split; reflexivity|].
    split; [split; [discriminate | intros H; destruct H; reflexivity]|].
    exact Hc.
  - exists (map (copy_range data) (r :: l')), None.
    split; [exact Hs|]. split; [rewrite Stream_splitJPEGFrames_eq; exact Hs|].
    split; [split; [discriminate | intros H; apply Hno in H; discriminate]|].
    split; [split; discriminate|].
    split; [split; [discriminate | reflexivity]|].
    exact Hc.
Qed.

(** ** Buffers of well-formed images *)

Lemma ff_d8 : xff <> xd8. Proof. discriminate. Qed.
Lemma ff_d9 : xff <> xd9. Proof. discriminate. Qed.

Lemma nextFrame_image pre f body rest :
  has_pair xff xd8 f = false -> has_pair xff xd9 body = false ->
  nextFrame (pre ++ f ++ jpeg body ++ rest) (len pre)
  = Some (len pre + len f, len pre + len f + len (jpeg body)).
Proof.
  intros Hf Hb. rewrite nextFrame_eq.
  replace (len pre <? len (pre ++ f ++ jpeg body ++ rest)) with true
    by (symmetry; apply Z.ltb_lt; unfold len, jpeg; rewrite !length_app; simpl; lia).
  assert (H1 : slice_from (pre ++ f ++ jpeg body ++ rest) (len pre)
               = f ++ xff :: xd8 :: (body ++ jpegEnd ++ rest)).
  { unfold slice_from, len. rewrite Nat2Z.id, drop_app_length.
    unfold jpeg. rewrite <- !app_assoc. reflexivity. }
  rewrite H1, (index_opt_pair xff xd8 f _ ff_d8 Hf).
  assert (H2 : slice_from (pre ++ f ++ jpeg body ++ rest)
                 (Z.of_nat (length f) + len pre + 2)
               = body ++ xff :: xd9 :: rest).
  { unfold slice_from, len.
    replace (Z.to_nat (Z.of_nat (length f) + Z.of_nat (length pre) + 2))
      with (length (pre ++ f ++ jpegStart)) by (rewrite !length_app; simpl; lia).
    unfold jpeg.
    replace (pre ++ f ++ (jpegStart ++ body ++ jpegEnd) ++ rest)
      with ((pre ++ f ++ jpegStart) ++ body ++ jpegEnd ++ rest)
      by (rewrite <- !app_assoc; reflexivity).
    rewrite drop_app_length. reflexivity. }
  rewrite H2, (index_opt_pair xff xd9 body _ ff_d9 Hb).
  f_equal. f_equal; unfold len, jpeg; rewrite ?length_app; simpl; lia.
Qed.


Lemma copy_range_image pre f body rest :
  copy_range (pre ++ f ++ jpeg body ++ rest)
             (len pre + len f, len pre + len f + len (jpeg body))
  = jpeg body.
Proof.
  unfold copy_range, slice, len. cbn [fst snd].
  replace (Z.to_nat (Z.of_nat (length pre) + Z.of_nat (length f)))
    with (length (pre ++ f)) by (rewrite length_app; lia).
  replace (Z.to_nat (Z.of_nat (length pre) + Z.of_nat (length f)
                     + Z.of_nat (length (jpeg body))
                     - (Z.of_nat (length pre) + Z.of_nat (length f))))
    with (length (jpeg body)) by lia.
  replace (pre ++ f ++ jpeg body ++ rest) with ((pre ++ f) ++ jpeg body ++ rest)
    by (rewrite <- app_assoc; reflexivity).
  rewrite drop_app_length, take_app_length. reflexivity.
Qed.

Lemma stream_cons f body segs tail :
  stream ((f, body) :: segs) tail = f ++ jpeg body ++ stream segs tail.
Proof. unfold stream. cbn [map concat fst snd]. rewrite <- !app_assoc. reflexivity. Qed.

Lemma frames_from_S fuel data i :
  frames_from (S fuel) data i =
  match nextFrame data i with
  | None => Some []
  | Some (s, e) => option_map (cons (s, e)) (frames_from fuel data e)
  end.
Proof. reflexivity. Qed.


Lemma jpeg_markers body :
  take 2 (jpeg body) = [xff; xd8] /\
  drop (length (jpeg body) - 2) (jpeg body) = [xff; xd9].
Proof.
  split; [reflexivity|]. unfold jpeg.
  replace (length (jpegStart ++ body ++ jpegEnd) - 2)%nat
    with (length (jpegStart ++ body)) by (rewrite !length_app; simpl; lia).
  rewrite app_assoc, drop_app_length. reflexivity.
Qed.



(** ** NAL injection *)

(** C3. With any decoder for the stored encoding: when both parameter
    sets decode, [injectSPSPPS] returns the start code, the SPS, the start
    code, the PPS and the input, in this order, [8 + len SPS + len PPS +
    len input] bytes, and no error; when the SPS does not decode it
    returns no buffer and the error "invalid SPS", and when the SPS
    decodes and the PPS does not, no buffer and the error "invalid PPS". *)
Theorem injectSPSPPS_spec (DecodeString : string -> list byte * option error)
    (sp : Stream.StreamProcessor) (h264Data : list byte) :
  (forall spsData ppsData,
     DecodeString (Stream.SPS sp) = (spsData, None) ->
     DecodeString (Stream.PPS sp) = (ppsData, None) ->
     Stream.injectSPSPPS DecodeString sp h264Data
     = ([x00; x00; x00; x01] ++ spsData ++ [x00; x00; x00; x01] ++ ppsData ++ h264Data,
        None) /\
     len (fst (Stream.injectSPSPPS DecodeString sp h264Data))
     = 8 + len spsData + len ppsData + len h264Data) /\
  (forall err,
     snd (DecodeString (Stream.SPS sp)) = Some err ->
     Stream.injectSPSPPS DecodeString sp h264Data = ([], Some (ErrInvalidSPS err))) /\
  (forall err,
     snd (DecodeString (Stream.SPS sp)) = None ->
     snd (DecodeString (Stream.PPS sp)) = Some err ->
     Stream.injectSPSPPS DecodeString sp h264Data = ([], Some (ErrInvalidPPS err))).
Proof.
  split; [|split].
  - intros spsData ppsData Hs Hp. unfold Stream.injectSPSPPS, Stream.startCode.
    rewrite Hs, Hp. cbn [fst]. rewrite <- !app_assoc. split; [reflexivity|].
    unfold len. rewrite !length_app. cbn [length]. lia.
  - intros err H. unfold Stream.injectSPSPPS.
    destruct (DecodeString (Stream.SPS sp)) as [s [es|]]; simpl in H; [|discriminate].
    injection H as ->. reflexivity.
  - intros err Hs Hp. unfold Stream.injectSPSPPS.
    destruct (DecodeString (Stream.SPS sp)) as [s [es|]]; simpl in Hs; [discriminate|].
    destruct (DecodeString (Stream.PPS sp)) as [pp [ep|]]; simpl in Hp; [|discriminate].
    injection Hp as ->. reflexivity.
Qed.

Lemma injectSPSPPS_witness :
  (Stream.injectSPSPPS base64.DecodeString Stream.NewStreamProcessor [x65; x88; x84]
   = ([x00; x00; x00; x01] ++ [x67; x42; xc0; x0c; x9a; x05; x00; x00; x01; x30]
      ++ [x00; x00; x00; x01] ++ [x68; xce; x3c; x80] ++ [x65; x88; x84], None) /\
   len (fst (Stream.injectSPSPPS base64.DecodeString Stream.NewStreamProcessor
               [x65; x88; x84]))
   = 8 + len [x67; x42; xc0; x0c; x9a; x05; x00; x00; x01; x30]
     + len [x68; xce; x3c; x80] + len [x65; x88; x84]) /\
  Stream.injectSPSPPS base64.DecodeString
    (Stream.WithSPSPPS "Z0LADJoFAAABM" "aM48gA==" Stream.NewStreamProcessor)
    [x65; x88; x84] = ([], Some (ErrInvalidSPS (ErrExternal "illegal base64 data"))) /\
  Stream.injectSPSPPS base64.DecodeString
    (Stream.WithSPSPPS "Z0LADJoFAAABMA==" "a*" Stream.NewStreamProcessor)
    [x65; x88; x84] = ([], Some (ErrInvalidPPS (ErrExternal "illegal base64 data"))).
Proof.
  split; [|split].
  - apply (proj1 (injectSPSPPS_spec base64.DecodeString Stream.NewStreamProcessor
                    [x65; x88; x84])
             [x67; x42; xc0; x0c; x9a; x05; x00; x00; x01; x30]
             [x68; xce; x3c; x80]); reflexivity.
  - apply (proj1 (proj2 (injectSPSPPS_spec base64.DecodeString
                    (Stream.WithSPSPPS "Z0LADJoFAAABM" "aM48gA==" Stream.NewStreamProcessor)
                    [x65; x88; x84]))). reflexivity.
  - apply (proj2 (proj2 (injectSPSPPS_spec base64.DecodeString
                    (Stream.WithSPSPPS "Z0LADJoFAAABMA==" "a*" Stream.NewStreamProcessor)
                    [x65; x88; x84]))); reflexivity.
Defined.

(** ** Configuration setters *)

Lemma wrap64_small z : min_int64 <= z <= max_int64 -> wrap64 z = z.
Proof.
  unfold wrap64, min_int64, max_int64. intros H.
  rewrite Z.mod_small by lia. lia.
Qed.

Lemma round28_small v :
  0 < v -> v + 13 <= max_int64 -> Stream.round28 v = 28 * ((v + 13) / 28).
Proof.
  intros H0 H1. unfold Stream.round28.
  assert (Hm : max_int64 = 9223372036854775807) by reflexivity.
  assert (Hn : min_int64 = -9223372036854775808) by reflexivity.
  rewrite (wrap64_small (v + 13)) by lia.
  rewrite Z.quot_div_nonneg by lia.
  pose proof (Z.mul_div_le (v + 13) 28 ltac:(lia)).
  pose proof (Z.div_pos (v + 13) 28 ltac:(lia) ltac:(lia)).
  rewrite wrap64_small by lia. lia.
Qed.

(** C6, as amended. For positive arguments (up to the largest integer
    less 13) [WithResolution] stores, for each dimension [v], the multiple
    of 28 nearest to it, the smaller one on a tie: [28 * ((v + 13) / 28)],
    which lies between [v - 14] and [v + 13]. So 100 becomes 112 and 50
    becomes 56, 30 becomes 28, and multiples of 28 are left unchanged. *)
Theorem WithResolution_nearest width height sp :
  0 < width -> 0 < height ->
  width + 13 <= max_int64 -> height + 13 <= max_int64 ->
  let sp' := Stream.WithResolution width height sp in
  Stream.TargetWidth sp' = 28 * ((width + 13) / 28) /\
  Stream.TargetHeight sp' = 28 * ((height + 13) / 28) /\
  width - 14 <= Stream.TargetWidth sp' <= width + 13 /\
  height - 14 <= Stream.TargetHeight sp' <= height + 13 /\
  (width mod 28 = 0 -> Stream.TargetWidth sp' = width) /\
  (height mod 28 = 0 -> Stream.TargetHeight sp' = height).
Proof.
  intros Hw Hh Hw' Hh' sp'.
  assert (Ew : Stream.TargetWidth sp' = 28 * ((width + 13) / 28)).
  { unfold sp', Stream.WithResolution.
    destruct (negb (Z.rem width 28 =? 0) || negb (Z.rem height 28 =? 0)) eqn:E;
      cbn [Stream.TargetWidth].
    - apply round28_small; assumption.
    - apply orb_false_iff in E as [E _]. apply negb_false_iff, Z.eqb_eq in E.
      rewrite Z.rem_mod_nonneg in E by lia.
      pose proof (Z.div_mod width 28 ltac:(lia)).
      pose proof (Z.div_mod (width + 13) 28 ltac:(lia)).
      pose proof (Z.mod_pos_bound (width + 13) 28 ltac:(lia)). lia. }
  assert (Eh : Stream.TargetHeight sp' = 28 * ((height + 13) / 28)).
  { unfold sp', Stream.WithResolution.
    destruct (negb (Z.rem width 28 =? 0) || negb (Z.rem height 28 =? 0)) eqn:E;
      cbn [Stream.TargetHeight].
    - apply round28_small; assumption.
    - apply orb_false_iff in E as [_ E]. apply negb_false_iff, Z.eqb_eq in E.
      rewrite Z.rem_mod_nonneg in E by lia.
      pose proof (Z.div_mod height 28 ltac:(lia)).
      pose proof (Z.div_mod (height + 13) 28 ltac:(lia)).
      pose proof (Z.mod_pos_bound (height + 13) 28 ltac:(lia)). lia. }
  rewrite Ew, Eh.
  pose proof (Z.div_mod (width + 13) 28 ltac:(lia)).
  pose proof (Z.mod_pos_bound (width + 13) 28 ltac:(lia)).
  pose proof (Z.div_mod (height + 13) 28 ltac:(lia)).
  pose proof (Z.mod_pos_bound (height + 13) 28 ltac:(lia)).
  pose proof (Z.div_mod width 28 ltac:(lia)).
  pose proof (Z.div_mod height 28 ltac:(lia)).
  repeat split; try lia.
Qed.

Lemma WithResolution_nearest_witness :
  let sp' := Stream.WithResolution 100 50 Stream.NewStreamProcessor in
  Stream.TargetWidth sp' = 28 * ((100 + 13) / 28) /\
  Stream.TargetHeight sp' = 28 * ((50 + 13) / 28) /\
  100 - 14 <= Stream.TargetWidth sp' <= 100 + 13 /\
  50 - 14 <= Stream.TargetHeight sp' <= 50 + 13 /\
  (100 mod 28 = 0 -> Stream.TargetWidth sp' = 100) /\
  (50 mod 28 = 0 -> Stream.TargetHeight sp' = 50).
Proof.
  apply (WithResolution_nearest 100 50 Stream.NewStreamProcessor);
    unfold max_int64; lia.
Defined.

(** C6, as stated, fails: 30 is rounded down to 28, and the smallest
    multiple of 28 at or above 30 is 56. *)
Lemma WithResolution_rounds_down :
  Stream.TargetWidth (Stream.WithResolution 30 30 Stream.NewStreamProcessor) = 28 /\
  Stream.TargetHeight (Stream.WithResolution 30 30 Stream.NewStreamProcessor) = 28 /\
  round_up28 30 = 56 /\
  Stream.TargetWidth (Stream.WithResolution 30 30 Stream.NewStreamProcessor)
  <> round_up28 30.
Proof. repeat (split; [reflexivity|]). discriminate. Qed.

Lemma round_up28_smallest v :
  v <= round_up28 v /\ round_up28 v mod 28 = 0 /\
  forall m, m mod 28 = 0 -> v <= m -> round_up28 v <= m.
Proof.
  unfold round_up28.
  pose proof (Z.div_mod (v + 27) 28 ltac:(lia)).
  pose proof (Z.mod_pos_bound (v + 27) 28 ltac:(lia)).
  split; [lia|]. split.
  - rewrite Z.mul_comm. apply Z.mod_mul. lia.
  - intros m Hm Hle. pose proof (Z.div_mod m 28 ltac:(lia)).
    assert ((v + 27) / 28 < m / 28 + 1); [|lia].
    apply Z.div_lt_upper_bound; lia.
Qed.

Example WithResolution_examples :
  let sp := Stream.NewStreamProcessor in
  (Stream.TargetWidth (Stream.WithResolution 100 50 sp),
   Stream.TargetHeight (Stream.WithResolution 100 50 sp)) = (112, 56) /\
  (Stream.TargetWidth (Stream.WithResolution 1120 1120 sp),
   Stream.TargetHeight (Stream.WithResolution 1120 1120 sp)) = (1120, 1120) /\
  (Stream.TargetWidth (Stream.WithResolution 1 1 sp),
   Stream.TargetHeight (Stream.WithResolution 1 1 sp)) = (0, 0).
Proof. repeat split. Qed.

(** ** Quality and qscale *)

Lemma qscale_table :
  forallb (fun q => Stream.qscale (with_quality q) =? 31 - 29 * (q - 1) / 99)
          (map Z.of_nat (seq 1 100)) = true.
Proof. vm_compute. reflexivity. Qed.

Lemma qscale_closed_form sp :
  1 <= Stream.Quality sp <= 100 ->
  Stream.qscale sp = 31 - 29 * (Stream.Quality sp - 1) / 99.
Proof.
  intros Hq. destruct sp as [fps w h q sps pps dir]. cbn [Stream.Quality] in *.
  change (Stream.qscale (Stream.mkStreamProcessor fps w h q sps pps dir))
    with (Stream.qscale (with_quality q)).
  apply Z.eqb_eq.
  apply (proj1 (forallb_forall _ _) qscale_table q).
  apply in_map_iff. exists (Z.to_nat q). split; [lia|].
  apply in_seq. lia.
Qed.

(** C5, as amended. [WithQuality] stores the argument clamped into
    [1, 100] (0 gives 1, 150 gives 100, 90 stays 90). For a stored quality
    [q] in [1, 100] the qscale handed to the encoder is
    [31 - trunc((q - 1) / 99 * 29)], the product truncated and not the
    difference rounded; in integers [31 - 29 * (q - 1) / 99]. It lies in
    [2, 31], is 31 at quality 1 and 2 at quality 100, and does not
    increase when the quality increases. *)
Theorem quality_qscale quality sp sp1 sp2 :
  1 <= Stream.Quality sp1 -> Stream.Quality sp1 <= Stream.Quality sp2 ->
  Stream.Quality sp2 <= 100 ->
  Stream.Quality (Stream.WithQuality quality sp) = clamp quality 1 100 /\
  1 <= Stream.Quality (Stream.WithQuality quality sp) <= 100 /\
  Stream.qscale sp1 = 31 - 29 * (Stream.Quality sp1 - 1) / 99 /\
  Stream.qscale sp1 = clamp (31 - 29 * (Stream.Quality sp1 - 1) / 99) 2 31 /\
  Stream.qscale sp2 <= Stream.qscale sp1 /\
  (Stream.Quality sp1 = 1 -> Stream.qscale sp1 = 31) /\
  (Stream.Quality sp2 = 100 -> Stream.qscale sp2 = 2).
Proof.
  intros H1 H12 H2.
  assert (Hc : Stream.Quality (Stream.WithQuality quality sp) = clamp quality 1 100).
  { unfold Stream.WithQuality, clamp. cbn [Stream.Quality].
    destruct (quality <? 1) eqn:E1.
    - apply Z.ltb_lt in E1. replace (1 >? 100) with false by reflexivity. lia.
    - apply Z.ltb_ge in E1. destruct (quality >? 100) eqn:E2.
      + apply Z.gtb_lt in E2. lia.
      + rewrite Z.gtb_ltb in E2. apply Z.ltb_ge in E2. lia. }
  rewrite Hc.
  rewrite (qscale_closed_form sp1) by lia. rewrite (qscale_closed_form sp2) by lia.
  assert (Hd1 : 0 <= 29 * (Stream.Quality sp1 - 1) / 99 <= 29).
  { split; [apply Z.div_pos; lia|]. apply Z.div_le_upper_bound; lia. }
  assert (Hmono : 29 * (Stream.Quality sp1 - 1) / 99 <= 29 * (Stream.Quality sp2 - 1) / 99).
  { apply Z.div_le_mono; lia. }
  unfold clamp. repeat split; try lia.
  - intros ->. reflexivity.
  - intros ->. reflexivity.
Qed.

Lemma quality_qscale_witness :
  Stream.Quality (Stream.WithQuality 150 Stream.NewStreamProcessor) = clamp 150 1 100 /\
  1 <= Stream.Quality (Stream.WithQuality 150 Stream.NewStreamProcessor) <= 100 /\
  Stream.qscale (with_quality 1) = 31 - 29 * (Stream.Quality (with_quality 1) - 1) / 99 /\
  Stream.qscale (with_quality 1)
  = clamp (31 - 29 * (Stream.Quality (with_quality 1) - 1) / 99) 2 31 /\
  Stream.qscale (with_quality 100) <= Stream.qscale (with_quality 1) /\
  (Stream.Quality (with_quality 1) = 1 -> Stream.qscale (with_quality 1) = 31) /\
  (Stream.Quality (with_quality 100) = 100 -> Stream.qscale (with_quality 100) = 2).
Proof.
  apply (quality_qscale 150 Stream.NewStreamProcessor (with_quality 1) (with_quality 100));
    simpl; lia.
Defined.

(** C5, as stated, fails: at quality 3 the code hands over qscale 31,
    the formula of the claim gives 30. *)
Lemma qscale_not_rounded :
  Stream.qscale (Stream.WithQuality 3 Stream.NewStreamProcessor) = 31 /\
  spec_qscale 3 = 30 /\
  Stream.qscale (Stream.WithQuality 3 Stream.NewStreamProcessor) <> spec_qscale 3.
Proof. split; [|split]; vm_compute; [reflexivity | reflexivity | discriminate]. Qed.

Example WithQuality_examples :
  map (fun q => Stream.Quality (Stream.WithQuality q Stream.NewStreamProcessor))
      [0; 150; 90; -7; 1; 100] = [1; 100; 90; 1; 1; 100].
Proof. reflexivity. Qed.

(** ** Videos too short to sample *)

Lemma digits2_pos_bound m : Zpos m < 2 ^ Zpos (digits2_pos m).
Proof.
  induction m as [m IH|m IH|]; cbn [digits2_pos]; [| |reflexivity];
    rewrite Pos2Z.inj_succ, Z.pow_succ_r by lia; lia.
Qed.

(** A duration of less than one second converts to 0. *)
Lemma to_int_fraction d :
  valid_binary Float64.prec Float64.emax d = true ->
  SFleb (Float64.of_int 0) d = true -> SFltb d (Float64.of_int 1) = true ->
  Float64.to_int d = 0.
Proof.
  intros Hv H0 H1. destruct d as [s|s| |s m e]; try reflexivity.
  - destruct s; discriminate.
  - discriminate.
  - destruct s; [discriminate|].
    assert (Hm : Zpos m < 2 ^ (- e) /\ e < 0).
    { cbn [valid_binary] in Hv. unfold bounded, canonical_mantissa, fexp in Hv.
      apply andb_true_iff in Hv as [Hc _]. apply Z.eqb_eq in Hc.
      pose proof (digits2_pos_bound m) as Hd.
      assert (Hdig : Zpos (digits2_pos m) <= 53)
        by (unfold Float64.prec in Hc; clear - Hc; lia).
      change (Float64.of_int 1) with (S754_finite false 4503599627370496 (-52)) in H1.
      unfold SFltb, SFcompare in H1.
      destruct (e ?= -52) eqn:Ec; try discriminate.
      - apply Z.compare_eq in Ec. subst e. split; [|reflexivity].
        destruct (Pos.compare_cont Eq m _) eqn:Em in H1; try discriminate.
        apply (proj1 (Pos.compare_lt_iff m _)) in Em.
        change (2 ^ (- -52)) with (Zpos 4503599627370496). exact Em.
      - pose proof (proj1 (Z.compare_lt_iff _ _) Ec) as Hlt.
        split; [|clear - Hlt; lia].
        apply Z.lt_le_trans with (1 := Hd).
        apply Z.le_trans with (2 ^ 53);
          apply Z.pow_le_mono_r; clear - Hlt Hdig; lia. }
    destruct Hm as [Hm He]. unfold Float64.to_int.
    replace (0 <=? e) with false by (symmetry; apply Z.leb_gt; exact He).
    rewrite Z.div_small by (split; [apply Pos2Z.is_nonneg | exact Hm]).
    reflexivity.
Qed.

(** C9. When ffmpeg is found and the probe gives the duration [d], and
    [int(d) * FPS] is 0 -- in particular when [FPS] is 0, or when [d] is a
    duration of less than one second -- [ExtractFramesWithContext] returns
    the error "video too short or invalid" and no frames, after the
    lookup and the probe alone: the decode subprocess and the demuxer are
    not invoked. *)
Theorem too_short_or_invalid
    (LookPath : string -> option error)
    (getVideoDuration : string -> spec_float * option error)
    (Run : string -> list string -> list byte * list byte * option error)
    (vp : VideoProcessor) (sched : list action) (videoPath : string)
    (d : spec_float) :
  LookPath "ffmpeg"%string = None ->
  getVideoDuration videoPath = (d, None) ->
  wrap64 (Float64.to_int d * FPS vp) = 0 \/
  FPS vp = 0 \/
  (valid_binary Float64.prec Float64.emax d = true /\
   SFleb (Float64.of_int 0) d = true /\ SFltb d (Float64.of_int 1) = true) ->
  let result := ExtractFramesWithContext LookPath getVideoDuration Run vp sched videoPath in
  snd result = Some (Returns ([], Some ErrTooShort)) /\
  fst result = [EvLookPath "ffmpeg"; EvProbe videoPath] /\
  Forall (fun ev => match ev with
                    | EvRun _ _ | EvDemux _ => False
                    | _ => True
                    end) (fst result).
Proof.
  intros Hl Hd Hz result.
  assert (Hzero : wrap64 (Float64.to_int d * FPS vp) = 0).
  { destruct Hz as [Hz|[Hz|(Hv & H0 & H1)]]; [exact Hz| |].
    - rewrite Hz, Z.mul_0_r. reflexivity.
    - rewrite (to_int_fraction d Hv H0 H1). reflexivity. }
  assert (Hres : result = ([EvLookPath "ffmpeg"; EvProbe videoPath],
                           Some (Returns ([], Some ErrTooShort)))).
  { unfold result, ExtractFramesWithContext. rewrite Hl, Hd, Hzero. reflexivity. }
  rewrite Hres. cbn [fst snd]. repeat split. repeat constructor.
Qed.

Lemma too_short_or_invalid_witness :
  let result :=
    ExtractFramesWithContext (fun _ => None) (fun _ => (half_second, None))
      (fun _ _ => ([], [], None)) example_vp [] "clip.mp4" in
  snd result = Some (Returns ([], Some ErrTooShort)) /\
  fst result = [EvLookPath "ffmpeg"; EvProbe "clip.mp4"] /\
  Forall (fun ev => match ev with
                    | EvRun _ _ | EvDemux _ => False
                    | _ => True
                    end) (fst result).
Proof.
  apply (too_short_or_invalid (fun _ => None) (fun _ => (half_second, None))
           (fun _ _ => ([], [], None)) example_vp [] "clip.mp4" half_second);
    [reflexivity | reflexivity |].
  right. right. repeat split; vm_compute; reflexivity.
Defined.

(** ** Cleanup *)

(** C10. After [Cleanup] the temporary directory field is empty and the
    other fields are as before; a call made while the field is empty --
    a second call in particular -- returns no error, removes nothing and
    leaves the processor as it is. *)
Theorem Cleanup_idempotent (RemoveAll RemoveAll' : string -> option error)
    (sp : Stream.StreamProcessor) :
  let sp1 := fst (fst (Stream.Cleanup RemoveAll sp)) in
  Stream.tempDir sp1 = ""%string /\
  sp1 = Stream.set_tempDir "" sp /\
  Stream.Cleanup RemoveAll' sp1 = (sp1, None, []) /\
  (Stream.tempDir sp = ""%string -> Stream.Cleanup RemoveAll sp = (sp, None, [])).
Proof.
  intros sp1.
  assert (Hempty : forall rm sp0, Stream.tempDir sp0 = ""%string ->
                                  Stream.Cleanup rm sp0 = (sp0, None, [])).
  { intros rm sp0 H. unfold Stream.Cleanup. rewrite H. reflexivity. }
  assert (H1 : sp1 = Stream.set_tempDir "" sp).
  { unfold sp1, Stream.Cleanup.
    destruct (String.eqb (Stream.tempDir sp) "") eqn:E; cbn [negb fst]; [|reflexivity].
    apply String.eqb_eq in E. destruct sp. cbn in E. subst. reflexivity. }
  assert (H2 : Stream.tempDir sp1 = ""%string) by (rewrite H1; reflexivity).
  repeat split; auto.
Qed.

Lemma Cleanup_idempotent_witness :
  let sp := Stream.set_tempDir "/tmp/h264stream-1" Stream.NewStreamProcessor in
  let sp1 := fst (fst (Stream.Cleanup (fun _ => Some (ErrExternal "busy")) sp)) in
  Stream.tempDir sp1 = ""%string /\
  sp1 = Stream.set_tempDir "" sp /\
  Stream.Cleanup (fun _ => None) sp1 = (sp1, None, []) /\
  (Stream.tempDir Stream.NewStreamProcessor = ""%string ->
   Stream.Cleanup (fun _ => Some (ErrExternal "busy")) Stream.NewStreamProcessor
   = (Stream.NewStreamProcessor, None, [])).
Proof.
  intros sp sp1.
  pose proof (Cleanup_idempotent (fun _ => Some (ErrExternal "busy")) (fun _ => None) sp)
    as (H1 & H2 & H3 & _).
  pose proof (Cleanup_idempotent (fun _ => Some (ErrExternal "busy")) (fun _ => None)
                Stream.NewStreamProcessor) as (_ & _ & _ & H4).
  split; [exact H1|]. split; [exact H2|]. split; [exact H3 | exact H4].
Defined.

(** ** The streaming worker *)

Section Worker.

Variable DecodeString : string -> list byte * option error.
Variable EncodeToString : list byte -> string.

Local Abbreviation step := (Stream.step DecodeString EncodeToString).
Local Abbreviation Process :=
  (Stream.ProcessH264StreamWithContext DecodeString EncodeToString).

Lemma Stream_splitJPEGFrames_total data :
  exists r, Stream.splitJPEGFrames data = Some r.
Proof. rewrite Stream_splitJPEGFrames_eq. apply splitJPEGFrames_total. Qed.

(** The pipeline returns on every chunk. *)
Lemma Process_total w sp chunk : exists r, Process w sp chunk = Some r.
Proof.
  unfold Stream.ProcessH264StreamWithContext.
  destruct (String.eqb (Stream.tempDir sp) "").
  - destruct (Stream.MkdirTemp w) as [dir [e|]]; [eauto|].
    destruct (Stream.injectSPSPPS DecodeString _ chunk) as [fixed [e|]]; [eauto|].
    destruct (Stream.WriteFile w); [eauto|].
    unfold Stream.extractFramesFromH264.
    destruct (Stream.Run w) as [[out errout] [e|]]; [eauto|].
    destruct (Stream_splitJPEGFrames_total out) as [[fr [e|]] ->]; eauto.
  - destruct (Stream.injectSPSPPS DecodeString _ chunk) as [fixed [e|]]; [eauto|].
    destruct (Stream.WriteFile w); [eauto|].
    unfold Stream.extractFramesFromH264.
    destruct (Stream.Run w) as [[out errout] [e|]]; [eauto|].
    destruct (Stream_splitJPEGFrames_total out) as [[fr [e|]] ->]; eauto.
Qed.

(** A non-empty chunk that [Read] returns without an error is handed
    to the pipeline. *)
Lemma worker_processes_chunk t s chunk :
  Stream.exited s = false -> Stream.ctxDone t = false ->
  Stream.read t = (chunk, None) -> chunk <> [] ->
  exists s' rest, step t s = Some s' /\
    Stream.log s' = Stream.log s ++ Stream.Call chunk :: rest.
Proof.
  intros He Hc Hr Hne. unfold Stream.step. rewrite He, Hc, Hr.
  replace (0 <? len chunk) with true
    by (symmetry; apply Z.ltb_lt; destruct chunk; [congruence | unfold len; simpl; lia]).
  destruct (Process_total (Stream.sys t) (Stream.processor s) chunk)
    as [[sp [fr [e|]]] ->].
  - eexists _, _. split; [reflexivity|]. reflexivity.
  - destruct (Stream.cancelAt t) as [k|]; [destruct (k <? length fr)%nat|];
      eexists _, _; (split; [reflexivity|]);
      cbn [Stream.leave Stream.emit Stream.log Stream.processor];
      rewrite <- ?app_assoc; reflexivity.
Qed.

(** A chunk whose processing fails leaves exactly one error on the
    error channel, and the worker goes on. *)
Lemma worker_reports_failure t s chunk sp frames err :
  Stream.exited s = false -> Stream.ctxDone t = false ->
  Stream.read t = (chunk, None) -> chunk <> [] ->
  Process (Stream.sys t) (Stream.processor s) chunk = Some (sp, (frames, Some err)) ->
  step t s = Some (Stream.mkSession sp
                     (Stream.log s ++ [Stream.Call chunk; Stream.SendError err]) false).
Proof.
  intros He Hc Hr Hne Hp. unfold Stream.step. rewrite He, Hc, Hr.
  replace (0 <? len chunk) with true
    by (symmetry; apply Z.ltb_lt; destruct chunk; [congruence | unfold len; simpl; lia]).
  rewrite Hp. reflexivity.
Qed.

(** On cancellation, on end of input and on a read error the worker
    closes the error channel and the frame channel and then exits. *)
Lemma worker_leaves t s :
  Stream.exited s = false ->
  Stream.ctxDone t = true \/ (exists chunk err, Stream.read t = (chunk, Some err)) ->
  exists s' pre, step t s = Some s' /\ Stream.exited s' = true /\
    Stream.log s' = pre ++ [Stream.CloseError; Stream.CloseFrame; Stream.WgDone].
Proof.
  intros He H. unfold Stream.step. rewrite He.
  destruct (Stream.ctxDone t); [eexists _, _; repeat split|].
  destruct H as [H|(chunk & err & ->)]; [discriminate|].
  eexists _, _. repeat split.
Qed.

(** The worker takes every turn of its environment. *)
Lemma step_total t s : exists s', step t s = Some s'.
Proof.
  unfold Stream.step. destruct (Stream.exited s); [eauto|].
  destruct (Stream.ctxDone t); [eauto|].
  destruct (Stream.read t) as [chunk [e|]]; [eauto|].
  destruct (0 <? len chunk); [|eauto].
  destruct (Process_total (Stream.sys t) (Stream.processor s) chunk)
    as [[sp [fr [e|]]] ->]; [eauto|].
  destruct (Stream.cancelAt t) as [k|]; [destruct (k <? length fr)%nat|]; eauto.
Qed.

Lemma worker_total turns s :
  exists s', Stream.worker DecodeString EncodeToString turns s = Some s'.
Proof.
  revert s; induction turns as [|t turns IH]; intros s; cbn [Stream.worker]; [eauto|].
  destruct (step_total t s) as [s1 ->]. apply IH.
Qed.

End Worker.

(** C7 at the failing input. A [Read] may return the last bytes
    together with [io.EOF]; the worker then leaves without handing the
    chunk to the pipeline: its log holds the two closes and [wg.Done()],
    and no call. *)
Theorem worker_drops_chunk_read_with_EOF
    (DecodeString : string -> list byte * option error)
    (EncodeToString : list byte -> string)
    (sp : Stream.StreamProcessor) (chunk : list byte)
    (sys : Stream.syscalls) (cancelAt : option nat) :
  Stream.Start DecodeString EncodeToString sp
    [Stream.mkTurn false (chunk, Some ErrEOF) sys cancelAt]
  = Some (Stream.mkSession sp
            [Stream.CloseError; Stream.CloseFrame; Stream.WgDone] true).
Proof. reflexivity. Qed.

(** The parts of C7 that hold, on the session of the specification: the
    frames of the first and of the third chunk in order, one error for
    the second, then both channels closed before [wg.Done()]. *)
Example streaming_scenario :
  Stream.Start base64.DecodeString base64.EncodeToString Stream.NewStreamProcessor
    scenario
  = Some (Stream.mkSession
            (Stream.set_tempDir "/tmp/h264stream-1" Stream.NewStreamProcessor)
            [Stream.Call [x65; x01];
             Stream.SendFrame (jpeg [x0a]); Stream.SendFrame (jpeg [x0b]);
             Stream.Call [x41; x02];
             Stream.SendError
               (ErrExtract (ErrFFmpeg (ErrExternal "exit status 1") [x45]));
             Stream.Call [x65; x03];
             Stream.SendFrame (jpeg [x0c]);
             Stream.CloseError; Stream.CloseFrame; Stream.WgDone]
            true).
Proof. vm_compute. reflexivity. Qed.

(** * Further properties of the code *)

(** ** The demuxer and the structure of its input *)

Lemma index_opt_take_no_pair a b l k :
  bytes.index_opt l [a; b] = Some k -> has_pair a b (take k l) = false.
Proof.
  revert k; induction l as [|x l IH]; intros k; cbn [bytes.index_opt].
  - destruct (bytes.HasPrefix [] [a; b]); [|discriminate]. intros [= <-]. reflexivity.
  - destruct (bytes.HasPrefix (x :: l) [a; b]) eqn:E; [intros [= <-]; reflexivity|].
    destruct (bytes.index_opt l [a; b]) as [k'|]; [|discriminate].
    intros [= <-]. cbn [take has_pair firstn]. rewrite (IH k' eq_refl), orb_false_r.
    destruct k' as [|k'], l as [|y l]; cbn [take firstn]; try apply andb_false_r.
    simpl in E. destruct (Byte.eqb x a); [|reflexivity]. simpl in *.
    rewrite andb_true_r in E. exact E.
Qed.

Lemma nextFrame_drop data n j :
  0 <= j ->
  nextFrame (drop n data) j
  = option_map (fun r => (fst r - Z.of_nat n, snd r - Z.of_nat n))
               (nextFrame data (j + Z.of_nat n)).
Proof.
  intros Hj. rewrite !nextFrame_eq.
  assert (Hs : forall k, 0 <= k ->
            slice_from (drop n data) k = slice_from data (k + Z.of_nat n)).
  { intros k Hk. unfold slice_from. rewrite drop_drop. f_equal. lia. }
  assert (Hlen : (j <? len (drop n data)) = (j + Z.of_nat n <? len data)).
  { unfold len. rewrite length_drop.
    destruct (j + Z.of_nat n <? Z.of_nat (length data)) eqn:E.
    - apply Z.ltb_lt in E. apply Z.ltb_lt. lia.
    - apply Z.ltb_ge in E. apply Z.ltb_ge. lia. }
  rewrite Hlen. destruct (j + Z.of_nat n <? len data); [|reflexivity].
  rewrite (Hs j Hj).
  destruct (bytes.index_opt (slice_from data (j + Z.of_nat n)) jpegStart) as [k|];
    [|reflexivity].
  rewrite (Hs (Z.of_nat k + j + 2)) by lia.
  replace (Z.of_nat k + j + 2 + Z.of_nat n) with (Z.of_nat k + (j + Z.of_nat n) + 2)
    by lia.
  destruct (bytes.index_opt _ jpegEnd) as [m|]; [|reflexivity].
  cbn [option_map fst snd]. do 2 f_equal; lia.
Qed.

Lemma frames_from_drop fuel data n j :
  0 <= j ->
  frames_from fuel (drop n data) j
  = option_map (map (fun r => (fst r - Z.of_nat n, snd r - Z.of_nat n)))
               (frames_from fuel data (j + Z.of_nat n)).
Proof.
  revert j; induction fuel as [|fuel IH]; intros j Hj; [reflexivity|].
  rewrite !frames_from_S, (nextFrame_drop data n j Hj).
  destruct (nextFrame data (j + Z.of_nat n)) as [[s e]|] eqn:En; [|reflexivity].
  apply nextFrame_bounds in En as (H1 & H2 & H3); [|lia].
  cbn [option_map fst snd]. rewrite (IH (e - Z.of_nat n)) by lia.
  replace (e - Z.of_nat n + Z.of_nat n) with e by lia.
  destruct (frames_from fuel data e); reflexivity.
Qed.

Lemma copy_range_drop data n r :
  Z.of_nat n <= fst r ->
  copy_range (drop n data) (fst r - Z.of_nat n, snd r - Z.of_nat n)
  = copy_range data r.
Proof.
  intros H. unfold copy_range, slice. cbn [fst snd]. rewrite drop_drop.
  f_equal; [lia|]. f_equal. lia.
Qed.

(** The first frame the scan finds splits the buffer. *)
Lemma nextFrame_split data s e :
  nextFrame data 0 = Some (s, e) ->
  exists f body rest,
    data = f ++ jpeg body ++ rest /\
    s = len f /\ e = len f + len (jpeg body) /\
    has_pair xff xd8 f = false /\ has_pair xff xd9 body = false.
Proof.
  rewrite nextFrame_eq. destruct (0 <? len data); [|discriminate].
  unfold slice_from. change (Z.to_nat 0) with O. rewrite drop_0.
  destruct (bytes.index_opt data jpegStart) as [k|] eqn:Hk; [|discriminate].
  pose proof (index_opt_take_no_pair _ _ _ _ Hk) as Hf.
  pose proof (index_opt_le _ _ _ Hk) as Hkl.
  apply index_opt_split in Hk as (rest & Hd & Hrest).
  replace (Z.to_nat (Z.of_nat k + 0 + 2)) with (k + length jpegStart)%nat
    by (simpl; lia).
  rewrite Hrest.
  destruct (bytes.index_opt rest jpegEnd) as [m|] eqn:Hm; [|discriminate].
  pose proof (index_opt_take_no_pair _ _ _ _ Hm) as Hb.
  pose proof (index_opt_le _ _ _ Hm) as Hml.
  apply index_opt_split in Hm as (post & Hr & _).
  intros [= <- <-]. exists (take k data), (take m rest), post.
  assert (Lf : len (take k data) = Z.of_nat k)
    by (unfold len; rewrite length_take; lia).
  assert (Lb : len (take m rest) = Z.of_nat m)
    by (unfold len; rewrite length_take; lia).
  split; [|split; [|split; [|split]]]; try assumption.
  - unfold jpeg. rewrite <- !app_assoc, <- Hr. exact Hd.
  - lia.
  - unfold jpeg, len in *. rewrite !length_app. simpl. lia.
Qed.

Lemma no_frame_iff tail : nextFrame tail 0 = None <-> ~ has_frame tail.
Proof.
  split.
  - intros H Hf. apply has_frame_nextFrame in Hf as [r Hr]. congruence.
  - intros H. destruct (nextFrame tail 0) as [r|] eqn:E; [|reflexivity].
    destruct H. eapply nextFrame_has_frame. exact E.
Qed.

Lemma nextFrame_after pre tail :
  nextFrame tail 0 = None -> nextFrame (pre ++ tail) (len pre) = None.
Proof.
  intros H. pose proof (nextFrame_drop (pre ++ tail) (length pre) 0 ltac:(lia)) as E.
  rewrite drop_app_length, H in E. change (0 + Z.of_nat (length pre)) with (len pre) in E.
  destruct (nextFrame (pre ++ tail) (len pre)); [discriminate | reflexivity].
Qed.

Lemma frames_from_delimited segs :
  forall pre tail,
  delimited segs = true -> nextFrame tail 0 = None ->
  exists l,
    frames_from (S (length segs)) (pre ++ stream segs tail) (len pre) = Some l /\
    map (copy_range (pre ++ stream segs tail)) l = images segs.
Proof.
  induction segs as [|[f body] segs IH]; intros pre tail Hd Ht.
  - exists []. split; [|reflexivity]. cbn [length]. rewrite frames_from_S.
    unfold stream. cbn [map concat app]. rewrite (nextFrame_after pre tail Ht).
    reflexivity.
  - cbn [delimited forallb fst snd] in Hd.
    apply andb_true_iff in Hd as [Hseg Hd].
    apply andb_true_iff in Hseg as [Hf Hb].
    apply negb_true_iff in Hf, Hb.
    rewrite stream_cons.
    destruct (IH (pre ++ f ++ jpeg body) tail Hd Ht) as (l & Hl & Hcopy).
    replace ((pre ++ f ++ jpeg body) ++ stream segs tail)
      with (pre ++ f ++ jpeg body ++ stream segs tail) in Hl, Hcopy
      by (rewrite <- !app_assoc; reflexivity).
    replace (len (pre ++ f ++ jpeg body)) with (len pre + len f + len (jpeg body)) in Hl
      by (unfold len; rewrite !length_app; lia).
    exists ((len pre + len f, len pre + len f + len (jpeg body)) :: l). split.
    + cbn [length]. rewrite frames_from_S, (nextFrame_image pre f body _ Hf Hb).
      rewrite Hl. reflexivity.
    + unfold images. cbn [map snd]. rewrite copy_range_image.
      unfold images in Hcopy. rewrite Hcopy. reflexivity.
Qed.

(** What the demuxer returns on a buffer built from delimited images. *)
Lemma splitJPEGFrames_delimited segs tail :
  delimited segs = true -> nextFrame tail 0 = None ->
  splitJPEGFrames (stream segs tail)
  = Some (images segs, match segs with [] => Some ErrNoFrames | _ => None end).
Proof.
  intros Hd Ht. destruct (frames_from_delimited segs [] tail Hd Ht) as (l & Hl & Hc).
  cbn [app] in Hl, Hc. change (len []) with 0 in Hl.
  destruct (scan_ranges (stream segs tail)) as [l' Hl'].
  assert (l' = l) by (eapply frames_from_det; eassumption). subst l'.
  rewrite (splitJPEGFrames_ranges _ l Hl'), <- Hc.
  destruct l, segs; try discriminate; reflexivity.
Qed.

(** Every buffer is built from delimited images, and these are the ranges
    of the scan. *)
Lemma frames_from_decompose fuel :
  forall data l,
  frames_from fuel data 0 = Some l ->
  exists segs tail,
    data = stream segs tail /\ delimited segs = true /\
    nextFrame tail 0 = None /\ map (copy_range data) l = images segs.
Proof.
  induction fuel as [|fuel IH]; intros data l; [discriminate|].
  rewrite frames_from_S. destruct (nextFrame data 0) as [[s e]|] eqn:En.
  - destruct (frames_from fuel data e) as [l'|] eqn:El; [|discriminate].
    intros [= <-].
    pose proof (nextFrame_bounds data 0 s e ltac:(lia) En) as (B1 & B2 & B3).
    destruct (nextFrame_split data s e En) as (f & body & rest & Hd & Hs & He & Hf & Hb).
    pose proof (frames_from_drop fuel data (Z.to_nat e) 0 ltac:(lia)) as Hdrop.
    replace (0 + Z.of_nat (Z.to_nat e)) with e in Hdrop by lia.
    rewrite El in Hdrop. cbn [option_map] in Hdrop.
    assert (Hrest : drop (Z.to_nat e) data = rest).
    { rewrite Hd, He. unfold len.
      replace (Z.to_nat (Z.of_nat (length f) + Z.of_nat (length (jpeg body))))
        with (length (f ++ jpeg body)) by (rewrite length_app; lia).
      rewrite app_assoc, drop_app_length. reflexivity. }
    rewrite Hrest in Hdrop.
    destruct (IH rest _ Hdrop) as (segs & tail & Hr & Hdl & Ht & Hc).
    exists ((f, body) :: segs), tail. split; [|split; [|split]].
    + rewrite stream_cons, <- Hr. exact Hd.
    + cbn [delimited forallb fst snd]. rewrite Hf, Hb. exact Hdl.
    + exact Ht.
    + unfold images. cbn [map snd]. f_equal.
      * rewrite Hs, He, Hd. apply (copy_range_image [] f body rest).
      * unfold images in Hc. rewrite <- Hc, <- Hrest, map_map.
        pose proof (frames_from_ranges fuel data e l' ltac:(lia) El) as HR.
        apply map_ext_Forall. eapply Forall_impl; [exact HR|].
        intros r (R1 & _). cbn beta. symmetry.
        rewrite <- (copy_range_drop data (Z.to_nat e) r) by lia. reflexivity.
  - intros [= <-]. exists [], data. repeat split. exact En.
Qed.

Lemma demux_decompose data :
  exists segs tail,
    data = stream segs tail /\ delimited segs = true /\ nextFrame tail 0 = None /\
    splitJPEGFrames data
    = Some (images segs, match segs with [] => Some ErrNoFrames | _ => None end).
Proof.
  destruct (scan_ranges data) as [l Hl].
  destruct (frames_from_decompose _ data l Hl) as (segs & tail & Hd & Hdl & Ht & Hc).
  exists segs, tail. repeat split; try assumption.
  rewrite Hd at 1. apply splitJPEGFrames_delimited; assumption.
Qed.

Lemma delimited_bodies segs :
  delimited segs = true ->
  Forall (fun frame => exists body,
            frame = jpegStart ++ body ++ jpegEnd /\ has_pair xff xd9 body = false)
         (images segs).
Proof.
  induction segs as [|[f body] segs IH]; intros H; [constructor|].
  cbn [delimited forallb fst snd] in H.
  apply andb_true_iff in H as [Hseg H]. apply andb_true_iff in Hseg as [_ Hb].
  apply negb_true_iff in Hb. constructor; [|apply IH; exact H].
  exists body. split; [reflexivity | exact Hb].
Qed.

(** X1. On every buffer, whatever it holds, each frame the demuxer
    returns is a start marker, a body without an end marker and an end
    marker: it begins with [0xFF 0xD8], ends at the first [0xFF 0xD9]
    after its beginning and has at least four bytes. *)
Theorem demux_frames_are_images data :
  exists frames err,
    splitJPEGFrames data = Some (frames, err) /\
    Stream.splitJPEGFrames data = Some (frames, err) /\
    Forall (fun frame =>
              (exists body, frame = jpegStart ++ body ++ jpegEnd /\
                            has_pair xff xd9 body = false) /\
              take 2 frame = [xff; xd8] /\
              drop (length frame - 2) frame = [xff; xd9] /\
              (4 <= length frame)%nat) frames.
Proof.
  destruct (demux_decompose data) as (segs & tail & _ & Hdl & _ & Hs).
  eexists _, _. split; [exact Hs|]. split; [rewrite Stream_splitJPEGFrames_eq; exact Hs|].
  eapply Forall_impl; [apply delimited_bodies; exact Hdl|].
  intros frame (body & -> & Hb). split; [eauto|].
  pose proof (jpeg_markers body) as [H1 H2]. unfold jpeg in *.
  split; [exact H1|]. split; [exact H2|].
  rewrite !length_app. simpl. lia.
Qed.

(** X2. Every buffer splits, in one way the demuxer computes, into
    fillers without a start marker, each followed by an image whose body
    has no end marker, and a rest that holds no start marker followed by
    an end marker; the frames returned are these images, in this order. *)
Theorem demux_decomposition data :
  exists segs tail,
    data = stream segs tail /\
    delimited segs = true /\ ~ has_frame tail /\
    splitJPEGFrames data
    = Some (images segs, match segs with [] => Some ErrNoFrames | _ => None end) /\
    Stream.splitJPEGFrames data
    = Some (images segs, match segs with [] => Some ErrNoFrames | _ => None end).
Proof.
  destruct (demux_decompose data) as (segs & tail & Hd & Hdl & Ht & Hs).
  exists segs, tail. split; [exact Hd|]. split; [exact Hdl|].
  split; [apply no_frame_iff; exact Ht|]. split; [exact Hs|].
  rewrite Stream_splitJPEGFrames_eq. exact Hs.
Qed.

(** X3. Stray end markers in the fillers and an incomplete last image do
    not disturb the demuxer: for fillers without a start marker, bodies
    without an end marker and a rest with no start marker followed by an
    end marker, the frames returned are exactly the images, and the error
    is "no valid JPEG frames found" exactly when there is no image. *)
Theorem demux_delimited segs tail :
  delimited segs = true -> ~ has_frame tail ->
  splitJPEGFrames (stream segs tail)
  = Some (images segs, match segs with [] => Some ErrNoFrames | _ => None end) /\
  Stream.splitJPEGFrames (stream segs tail)
  = Some (images segs, match segs with [] => Some ErrNoFrames | _ => None end).
Proof.
  intros Hd Ht. apply no_frame_iff in Ht.
  split; [|rewrite Stream_splitJPEGFrames_eq];
    apply splitJPEGFrames_delimited; assumption.
Qed.

Lemma truncated_has_no_frame : ~ has_frame [xd9; xff; xd8; x01; xff].
Proof. apply no_frame_iff. reflexivity. Qed.

Lemma demux_delimited_witness :
  splitJPEGFrames
    (stream [([xff; xd9; x00], [x0a]); ([xd9], [xff])] [xd9; xff; xd8; x01; xff])
  = Some (images [([xff; xd9; x00], [x0a]); ([xd9], [xff])], None) /\
  Stream.splitJPEGFrames
    (stream [([xff; xd9; x00], [x0a]); ([xd9], [xff])] [xd9; xff; xd8; x01; xff])
  = Some (images [([xff; xd9; x00], [x0a]); ([xd9], [xff])], None).
Proof.
  apply (demux_delimited [([xff; xd9; x00], [x0a]); ([xd9], [xff])]
           [xd9; xff; xd8; x01; xff]); [reflexivity | exact truncated_has_no_frame].
Defined.

Lemma concat_images segs :
  concat (images segs) = stream (map (fun seg => ([], snd seg)) segs) [].
Proof.
  unfold stream, images. rewrite app_nil_r, map_map. reflexivity.
Qed.

Lemma delimited_no_fillers segs :
  delimited segs = true -> delimited (map (fun seg => ([], snd seg)) segs) = true.
Proof.
  induction segs as [|[f body] segs IH]; [reflexivity|].
  cbn [delimited forallb map fst snd]. intros H.
  apply andb_true_iff in H as [Hseg H]. apply andb_true_iff in Hseg as [_ Hb].
  rewrite Hb. exact (IH H).
Qed.

(** X4. Demuxing is idempotent on its own output: the frames a demux
    returned, concatenated, demux to the same frames (and an input
    without frames gives the same error again). *)
Theorem demux_concat_frames data :
  exists frames err,
    splitJPEGFrames data = Some (frames, err) /\
    splitJPEGFrames (concat frames) = Some (frames, err).
Proof.
  destruct (demux_decompose data) as (segs & tail & _ & Hdl & _ & Hs).
  eexists _, _. split; [exact Hs|].
  rewrite concat_images.
  rewrite (splitJPEGFrames_delimited _ [] (delimited_no_fillers segs Hdl) eq_refl).
  unfold images. rewrite map_map. cbn [snd]. destruct segs; reflexivity.
Qed.

Lemma length_stream segs tail :
  length (stream segs tail)
  = (list_sum (map (fun seg => length (fst seg) + length (jpeg (snd seg))) segs)
     + length tail)%nat.
Proof.
  unfold stream. rewrite length_app. f_equal.
  induction segs as [|seg segs IH]; [reflexivity|].
  transitivity (length (fst seg) + length (jpeg (snd seg))
                + list_sum (map (fun seg => length (fst seg) + length (jpeg (snd seg)))
                                segs))%nat; [|reflexivity].
  rewrite <- IH, <- !length_app. reflexivity.
Qed.

Lemma length_jpeg body : length (jpeg body) = (length body + 4)%nat.
Proof. unfold jpeg. rewrite !length_app. simpl. lia. Qed.

Lemma list_sum_cons x l : list_sum (x :: l) = (x + list_sum l)%nat.
Proof. reflexivity. Qed.

Lemma images_size segs :
  (list_sum (map length (images segs))
   <= list_sum (map (fun seg => length (fst seg) + length (jpeg (snd seg))) segs))%nat /\
  (4 * length (images segs) <= list_sum (map length (images segs)))%nat.
Proof.
  unfold images. induction segs as [|[f body] segs [IH1 IH2]]; [simpl; lia|].
  rewrite !map_cons, !list_sum_cons, length_cons. cbn [fst snd].
  rewrite length_jpeg. lia.
Qed.

(** X5. The frames returned are cut from the buffer without overlap:
    their lengths add up to at most the length of the buffer, so a buffer
    of [n] bytes gives at most [n / 4] frames. *)
Theorem demux_frames_size data :
  exists frames err,
    splitJPEGFrames data = Some (frames, err) /\
    (list_sum (map length frames) <= length data)%nat /\
    (4 * length frames <= length data)%nat.
Proof.
  destruct (demux_decompose data) as (segs & tail & Hd & _ & _ & Hs).
  eexists _, _. split; [exact Hs|].
  pose proof (images_size segs) as [H1 H2].
  rewrite Hd, length_stream. lia.
Qed.

(** ** The worker pool of the concurrent demuxer *)

Lemma scanFrames_index data positions :
  scanFrames data = Some positions ->
  forall k p, positions !! k = Some p -> index p = Z.of_nat k.
Proof.
  intros Hs. destruct (scan_ranges data) as [l Hl].
  rewrite (scanFrames_ranges data l Hl) in Hs. injection Hs as <-.
  apply positions_of_index.
Qed.

(** X6. With at least one worker the pool cannot deadlock: from every
    state that the goroutines can reach, whatever the interleaving so far
    and whatever the capacity of the job channel, they can go on until
    [wg.Wait()] returns, without a panic and with every frame copied into
    its slot. *)
Theorem pool_never_deadlocks vp data positions sched s :
  1 <= MaxWorkers vp ->
  scanFrames data = Some positions ->
  run data (BufferSize vp) sched (init_pool vp positions) = Some s ->
  exists sched' s',
    run data (BufferSize vp) (sched ++ sched') (init_pool vp positions) = Some s' /\
    returned s' = true /\ panicked s' = false /\
    frames s' = map (copy_frame data) positions.
Proof.
  intros Hw Hs Hrun. pose proof (scanFrames_index data positions Hs) as Hidx.
  destruct (concurrent_completes vp data sched s Hw positions Hidx Hrun)
    as (sched' & s' & H1 & H2 & H3).
  exists sched', s'. repeat split; try assumption.
  apply (returned_frames data positions (Z.to_nat (MaxWorkers vp))); [|lia|exact H2].
  eapply run_inv; [exact Hidx | apply init_pool_inv | exact H1].
Qed.

Lemma pool_never_deadlocks_witness :
  exists sched' s',
    run (jpeg [x0a] ++ jpeg [x0b]) (BufferSize example_vp)
        ([Send; Recv 2; Handoff 0] ++ sched')
        (init_pool example_vp [mkFramePos 0 5 0; mkFramePos 5 10 1]) = Some s' /\
    returned s' = true /\ panicked s' = false /\
    frames s' = map (copy_frame (jpeg [x0a] ++ jpeg [x0b]))
                    [mkFramePos 0 5 0; mkFramePos 5 10 1].
Proof.
  refine (pool_never_deadlocks example_vp (jpeg [x0a] ++ jpeg [x0b])
            [mkFramePos 0 5 0; mkFramePos 5 10 1] [Send; Recv 2; Handoff 0] _ _ _ _).
  - simpl. lia.
  - reflexivity.
  - reflexivity.
Defined.

Lemma list_sum_replicate_waiting n :
  list_sum (map weight (replicate n Waiting)) = n.
Proof. induction n as [|n IH]; [reflexivity|]. simpl. rewrite IH. reflexivity. Qed.

(** X7. Every run of the pool is finite: with [N] frame positions and
    [W] workers no interleaving has more than [3 * N + W + 1] actions
    (each job is sent, received and copied at most once, the channel is
    closed once and each worker exits once). *)
Theorem pool_run_bounded vp data positions sched s :
  scanFrames data = Some positions ->
  run data (BufferSize vp) sched (init_pool vp positions) = Some s ->
  (length sched <= 3 * length positions + Z.to_nat (MaxWorkers vp) + 1)%nat.
Proof.
  intros Hs Hrun. pose proof (scanFrames_index data positions Hs) as Hidx.
  pose proof (run_inv data (BufferSize vp) positions _ Hidx sched _ s
                (init_pool_inv data vp positions) Hrun) as I.
  pose proof (run_bounded data (BufferSize vp) sched _ s Hrun (inv_not_panicked s I)) as H.
  unfold measure at 2, init_pool in H. cbn [pending jobs workers closed] in H.
  rewrite list_sum_replicate_waiting in H. simpl length in H. lia.
Qed.

Lemma pool_run_bounded_witness :
  (length [Send; Recv 2; Handoff 0; Copy 0; Copy 2]
   <= 3 * length [mkFramePos 0 5 0; mkFramePos 5 10 1]
      + Z.to_nat (MaxWorkers example_vp) + 1)%nat.
Proof.
  refine (pool_run_bounded example_vp (jpeg [x0a] ++ jpeg [x0b])
            [mkFramePos 0 5 0; mkFramePos 5 10 1]
            [Send; Recv 2; Handoff 0; Copy 0; Copy 2] _ _ _); reflexivity.
Defined.

Lemma exec_idle data capacity n a s s' :
  idle_inv capacity n s -> exec data capacity a s = Some s' ->
  idle_inv capacity n s'.
Proof.
  intros (Hw & Hp & Hf & Hn & Hj). unfold exec. rewrite Hp, Hw.
  destruct a as [|w| |w|w|w]; cbn [lookup list_lookup].
  - destruct (pending s) as [|pos rest] eqn:Ep; [discriminate|].
    destruct (len (jobs s) <? capacity) eqn:Ec; [|discriminate].
    apply Z.ltb_lt in Ec. intros [= <-]. unfold idle_inv.
    cbn [workers panicked frames pending jobs].
    split; [reflexivity|]. split; [reflexivity|]. split; [exact Hf|].
    rewrite length_app. cbn [length] in *. split; [lia|]. right.
    unfold len in *. rewrite length_app. simpl. lia.
  - destruct (pending s), (jobs s); rewrite ?lookup_nil; discriminate.
  - destruct (pending s) as [|] eqn:Ep; [|discriminate].
    destruct (closed s); [discriminate|]. intros [= <-]. unfold idle_inv.
    cbn [workers panicked frames pending jobs]. auto.
  - destruct (jobs s); rewrite ?lookup_nil; discriminate.
  - rewrite lookup_nil. discriminate.
  - rewrite lookup_nil. discriminate.
Qed.

Lemma run_idle data capacity n sched s s' :
  idle_inv capacity n s -> run data capacity sched s = Some s' ->
  idle_inv capacity n s'.
Proof.
  revert s; induction sched as [|a sched IH]; intros s I; cbn [run].
  - intros [= <-]. exact I.
  - destruct (exec data capacity a s) as [s1|] eqn:E; [|discriminate].
    apply IH. eapply exec_idle; eassumption.
Qed.

Lemma init_pool_idle vp positions :
  MaxWorkers vp <= 0 ->
  idle_inv (BufferSize vp) (length positions) (init_pool vp positions).
Proof.
  intros Hw. unfold idle_inv, init_pool. cbn [workers panicked frames pending jobs].
  replace (Z.to_nat (MaxWorkers vp)) with O by lia.
  repeat split; auto.
Qed.

(** X8. Without workers ([MaxWorkers <= 0]) nothing is copied: when the
    concurrent demuxer returns frames at all, every one of them is empty;
    and when the scan finds a frame, and more frames than the job channel
    holds, the call does not return under any interleaving (it blocks in
    the send, or panics on a negative capacity). *)
Theorem pool_without_workers vp data positions :
  MaxWorkers vp <= 0 ->
  scanFrames data = Some positions ->
  (forall sched frames err,
     splitJPEGFramesConcurrent vp data sched = Some (Returns (frames, err)) ->
     length frames = length positions /\ Forall (fun frame => frame = []) frames) /\
  (0 < len positions -> BufferSize vp < len positions ->
   forall sched r, splitJPEGFramesConcurrent vp data sched <> Some (Returns r)).
Proof.
  intros Hw Hs.
  assert (Hrun : forall sched s,
            run data (BufferSize vp) sched (init_pool vp positions) = Some s ->
            idle_inv (BufferSize vp) (length positions) s).
  { intros sched s H. eapply run_idle; [apply init_pool_idle; exact Hw | exact H]. }
  split.
  - intros sched frames err. unfold splitJPEGFramesConcurrent. rewrite Hs.
    destruct (len positions =? 0) eqn:E0.
    + apply Z.eqb_eq in E0. intros [= <- <-]. split; [|constructor].
      destruct positions; [reflexivity | unfold len in E0; simpl in E0; lia].
    + destruct (BufferSize vp <? 0); [discriminate|].
      destruct (run _ _ sched _) as [s|] eqn:Er; [|discriminate].
      destruct (Hrun sched s Er) as (_ & Hp & Hf & _ & _). rewrite Hp.
      destruct (returned s); [|discriminate]. intros [= <- <-]. rewrite Hf.
      split; [apply length_replicate|]. apply Forall_forall.
      intros x Hx. apply elem_of_replicate in Hx as [-> _]. reflexivity.
  - intros Hpos Hcap sched r. unfold splitJPEGFramesConcurrent. rewrite Hs.
    replace (len positions =? 0) with false by (symmetry; apply Z.eqb_neq; lia).
    destruct (BufferSize vp <? 0); [discriminate|].
    destruct (run _ _ sched _) as [s|] eqn:Er; [|discriminate].
    destruct (Hrun sched s Er) as (_ & Hp & _ & Hn & Hj). rewrite Hp.
    destruct (returned s) eqn:Hr; [|discriminate]. exfalso.
    unfold returned in Hr. destruct (pending s); [|discriminate].
    cbn [length] in Hn. unfold len in *.
    destruct Hj as [Hj|Hj]; [rewrite Hj in Hn; simpl in Hn|]; lia.
Qed.

Lemma pool_without_workers_witness :
  (forall sched frames err,
     splitJPEGFramesConcurrent (mkVideoProcessor 2 0 1 true false)
       (jpeg [x0a] ++ jpeg [x0b]) sched = Some (Returns (frames, err)) ->
     length frames = length [mkFramePos 0 5 0; mkFramePos 5 10 1] /\
     Forall (fun frame => frame = []) frames) /\
  (0 < len [mkFramePos 0 5 0; mkFramePos 5 10 1] ->
   BufferSize (mkVideoProcessor 2 0 1 true false)
   < len [mkFramePos 0 5 0; mkFramePos 5 10 1] ->
   forall sched r,
     splitJPEGFramesConcurrent (mkVideoProcessor 2 0 1 true false)
       (jpeg [x0a] ++ jpeg [x0b]) sched <> Some (Returns r)).
Proof.
  apply (pool_without_workers (mkVideoProcessor 2 0 1 true false)
           (jpeg [x0a] ++ jpeg [x0b]) [mkFramePos 0 5 0; mkFramePos 5 10 1]);
    [simpl; lia | reflexivity].
Defined.

(** X9. The job channel is made only after the scan has found a frame:
    with a negative [BufferSize] the concurrent demuxer panics on every
    buffer that holds a frame, and still returns the error "no valid JPEG
    frames found" on every buffer that holds none. *)
Theorem negative_capacity_panics vp data sched :
  BufferSize vp < 0 ->
  (has_frame data -> splitJPEGFramesConcurrent vp data sched = Some Panics) /\
  (~ has_frame data ->
   splitJPEGFramesConcurrent vp data sched = Some (Returns ([], Some ErrNoFrames))).
Proof.
  intros Hb. destruct (scan_ranges data) as [l Hl].
  pose proof (no_ranges_iff data l Hl) as Hno.
  unfold splitJPEGFramesConcurrent. rewrite (scanFrames_ranges data l Hl).
  unfold len. rewrite positions_of_length.
  replace (BufferSize vp <? 0) with true by (symmetry; apply Z.ltb_lt; exact Hb).
  split; intros H.
  - destruct l as [|r l]; [destruct (proj1 Hno eq_refl H)|]. reflexivity.
  - apply Hno in H. subst l. reflexivity.
Qed.

Lemma negative_capacity_panics_witness :
  (has_frame (jpeg [x0a]) ->
   splitJPEGFramesConcurrent (mkVideoProcessor 2 4 (-1) true false) (jpeg [x0a]) []
   = Some Panics) /\
  (~ has_frame (jpeg [x0a]) ->
   splitJPEGFramesConcurrent (mkVideoProcessor 2 4 (-1) true false) (jpeg [x0a]) []
   = Some (Returns ([], Some ErrNoFrames))).
Proof.
  apply (negative_capacity_panics (mkVideoProcessor 2 4 (-1) true false) (jpeg [x0a]) []).
  simpl. lia.
Defined.

(** ** The extractors of [VideoProcessor] *)

Lemma demux_nonempty data frames :
  splitJPEGFrames data = Some (frames, None) -> frames <> [].
Proof.
  destruct (scan_ranges data) as [l Hl].
  rewrite (splitJPEGFrames_ranges data l Hl).
  destruct l; [discriminate|]. intros [= <-]. discriminate.
Qed.

Lemma concurrent_no_frames vp data sched frames :
  splitJPEGFramesConcurrent vp data sched = Some (Returns (frames, Some ErrNoFrames)) ->
  ~ has_frame data.
Proof.
  intros H. destruct (scan_ranges data) as [l Hl].
  destruct (concurrent_result vp data l sched frames _ Hl H) as (_ & H2 & _).
  apply (no_ranges_iff data l Hl). apply H2. reflexivity.
Qed.

Lemma concurrent_error vp data sched frames err :
  splitJPEGFramesConcurrent vp data sched = Some (Returns (frames, Some err)) ->
  frames = [] /\ err = ErrNoFrames.
Proof.
  intros H. destruct (scan_ranges data) as [l Hl].
  destruct (concurrent_result vp data l sched frames (Some err) Hl H) as (H1 & H2 & H3).
  destruct l as [|r l].
  - destruct frames; [|discriminate]. split; [reflexivity|].
    pose proof (proj2 H2 eq_refl) as E. congruence.
  - assert (E : Some err = None) by (apply H3; discriminate). discriminate.
Qed.

Lemma demux_images data frames err :
  splitJPEGFrames data = Some (frames, err) -> Forall is_image frames.
Proof.
  intros H. destruct (demux_decompose data) as (segs & tail & _ & Hdl & _ & Hs).
  rewrite Hs in H. injection H as <- _. apply delimited_bodies. exact Hdl.
Qed.

(** X10. When [ExtractFramesWithContext] (on a pool with a worker)
    returns without error, ffmpeg was found, the probe succeeded, ffmpeg
    was run once with the arguments of [buildFFmpegArgs], and the frames
    are exactly the frames the sequential demuxer cuts from its standard
    output: at least one, each a complete image. *)
Theorem extract_success
    (LookPath : string -> option error)
    (getVideoDuration : string -> spec_float * option error)
    (Run : string -> list string -> list byte * list byte * option error)
    (vp : VideoProcessor) (sched : list action) (videoPath : string)
    (frames : list (list byte)) :
  1 <= MaxWorkers vp -> 0 <= BufferSize vp ->
  snd (ExtractFramesWithContext LookPath getVideoDuration Run vp sched videoPath)
  = Some (Returns (frames, None)) ->
  exists stdout stderr,
    Run "ffmpeg"%string (buildFFmpegArgs vp videoPath) = (stdout, stderr, None) /\
    fst (ExtractFramesWithContext LookPath getVideoDuration Run vp sched videoPath)
    = [EvLookPath "ffmpeg"; EvProbe videoPath;
       EvRun "ffmpeg" (buildFFmpegArgs vp videoPath); EvDemux stdout] /\
    splitJPEGFrames stdout = Some (frames, None) /\
    frames <> [] /\ Forall is_image frames.
Proof.
  intros Hw Hb. unfold ExtractFramesWithContext.
  destruct (LookPath "ffmpeg"%string); [discriminate|].
  destruct (getVideoDuration videoPath) as [d [e|]]; [discriminate|].
  destruct (wrap64 (Float64.to_int d * FPS vp) =? 0); [discriminate|].
  destruct (Run "ffmpeg"%string (buildFFmpegArgs vp videoPath))
    as [[stdout stderr] [e|]]; [discriminate|].
  destruct (splitJPEGFramesConcurrent vp stdout sched) as [[[fr [e|]]|]|] eqn:Ec;
    try discriminate.
  cbn [fst snd]. intros [= ->].
  exists stdout, stderr. split; [reflexivity|]. split; [reflexivity|].
  destruct (scan_ranges stdout) as [l Hl].
  pose proof (concurrent_ranges vp stdout l sched _ Hw Hb Hl Ec) as E.
  pose proof (splitJPEGFrames_ranges stdout l Hl) as Hs.
  destruct l as [|r l]; [discriminate|]. injection E as ->.
  split; [exact Hs|]. split; [discriminate|].
  eapply demux_images. exact Hs.
Qed.

Lemma extract_success_witness :
  exists stdout stderr,
    two_images "ffmpeg"%string (buildFFmpegArgs example_vp "clip.mp4")
    = (stdout, stderr, None) /\
    fst (ExtractFramesWithContext found three_seconds two_images
           example_vp (serial_schedule 2 3) "clip.mp4")
    = [EvLookPath "ffmpeg"; EvProbe "clip.mp4";
       EvRun "ffmpeg" (buildFFmpegArgs example_vp "clip.mp4"); EvDemux stdout] /\
    splitJPEGFrames stdout = Some ([jpeg [x0a]; jpeg [x0b]], None) /\
    [jpeg [x0a]; jpeg [x0b]] <> [] /\ Forall is_image [jpeg [x0a]; jpeg [x0b]].
Proof.
  apply (extract_success found three_seconds two_images
           example_vp (serial_schedule 2 3) "clip.mp4" [jpeg [x0a]; jpeg [x0b]]);
    [simpl; lia | simpl; lia | reflexivity].
Defined.

(** X11. [ExtractFramesWithContext] never returns frames together with
    an error, and each failure stops the call at its stage: a missing
    ffmpeg before the probe, a failed probe or a too short video before
    the decode subprocess, a failed subprocess before the demuxer; the
    only error of the demuxer is "no valid JPEG frames found". *)
Theorem extract_failure
    (LookPath : string -> option error)
    (getVideoDuration : string -> spec_float * option error)
    (Run : string -> list string -> list byte * list byte * option error)
    (vp : VideoProcessor) (sched : list action) (videoPath : string)
    (frames : list (list byte)) (err : error) :
  snd (ExtractFramesWithContext LookPath getVideoDuration Run vp sched videoPath)
  = Some (Returns (frames, Some err)) ->
  let trace :=
    fst (ExtractFramesWithContext LookPath getVideoDuration Run vp sched videoPath) in
  frames = [] /\
  ((exists e, err = ErrFFmpegNotFound e /\ trace = [EvLookPath "ffmpeg"]) \/
   (exists e, err = ErrDuration e /\
              trace = [EvLookPath "ffmpeg"; EvProbe videoPath]) \/
   (err = ErrTooShort /\ trace = [EvLookPath "ffmpeg"; EvProbe videoPath]) \/
   (exists e stderr, err = ErrFFmpeg e stderr /\
      trace = [EvLookPath "ffmpeg"; EvProbe videoPath;
               EvRun "ffmpeg" (buildFFmpegArgs vp videoPath)]) \/
   (exists stdout, err = ErrSplit ErrNoFrames /\ ~ has_frame stdout /\
      trace = [EvLookPath "ffmpeg"; EvProbe videoPath;
               EvRun "ffmpeg" (buildFFmpegArgs vp videoPath); EvDemux stdout])).
Proof.
  unfold ExtractFramesWithContext.
  destruct (LookPath "ffmpeg"%string) as [e|].
  { cbn [fst snd]. intros [= <- <-]. split; [reflexivity|]. left. eauto. }
  destruct (getVideoDuration videoPath) as [d [e|]].
  { cbn [fst snd]. intros [= <- <-]. split; [reflexivity|]. right. left. eauto. }
  destruct (wrap64 (Float64.to_int d * FPS vp) =? 0).
  { cbn [fst snd]. intros [= <- <-]. split; [reflexivity|]. right. right. left. eauto. }
  destruct (Run "ffmpeg"%string (buildFFmpegArgs vp videoPath))
    as [[stdout stderr] [e|]].
  { cbn [fst snd]. intros [= <- <-]. split; [reflexivity|].
    right. right. right. left. eauto. }
  destruct (splitJPEGFramesConcurrent vp stdout sched) as [[[fr [e|]]|]|] eqn:Ec;
    cbn [fst snd]; try discriminate.
  intros [= <- <-]. split; [reflexivity|]. right. right. right. right.
  destruct (concurrent_error vp stdout sched fr e Ec) as [_ ->].
  exists stdout. split; [reflexivity|]. split; [|reflexivity].
  exact (concurrent_no_frames vp stdout sched fr Ec).
Qed.

Lemma extract_failure_witness :
  let trace :=
    fst (ExtractFramesWithContext found three_seconds cut_image
           example_vp [] "clip.mp4") in
  @nil (list byte) = [] /\
  ((exists e, ErrSplit ErrNoFrames = ErrFFmpegNotFound e /\
              trace = [EvLookPath "ffmpeg"]) \/
   (exists e, ErrSplit ErrNoFrames = ErrDuration e /\
              trace = [EvLookPath "ffmpeg"; EvProbe "clip.mp4"]) \/
   (ErrSplit ErrNoFrames = ErrTooShort /\
    trace = [EvLookPath "ffmpeg"; EvProbe "clip.mp4"]) \/
   (exists e stderr, ErrSplit ErrNoFrames = ErrFFmpeg e stderr /\
      trace = [EvLookPath "ffmpeg"; EvProbe "clip.mp4";
               EvRun "ffmpeg" (buildFFmpegArgs example_vp "clip.mp4")]) \/
   (exists stdout, ErrSplit ErrNoFrames = ErrSplit ErrNoFrames /\ ~ has_frame stdout /\
      trace = [EvLookPath "ffmpeg"; EvProbe "clip.mp4";
               EvRun "ffmpeg" (buildFFmpegArgs example_vp "clip.mp4");
               EvDemux stdout])).
Proof.
  apply (extract_failure found three_seconds cut_image example_vp [] "clip.mp4"
           [] (ErrSplit ErrNoFrames)).
  reflexivity.
Defined.

(** X12. [ExtractFramesFromStream] returns on every input, and returns
    either an error and no frames, or no error and the frames the demuxer
    cuts from the standard output of ffmpeg: at least one, each a
    complete image. The worker settings play no part. *)
Theorem extract_from_stream
    (RunStdin : string -> list string -> list byte -> list byte * list byte * option error)
    (vp : VideoProcessor) (videoData : list byte) :
  exists frames err,
    ExtractFramesFromStream RunStdin vp videoData = Some (frames, err) /\
    (forall e, err = Some e -> frames = []) /\
    (err = None -> frames <> [] /\ Forall is_image frames) /\
    (forall workers size,
       ExtractFramesFromStream RunStdin (WithBufferSize size (WithMaxWorkers workers vp))
         videoData = Some (frames, err)).
Proof.
  assert (Hcfg : forall workers size,
            ExtractFramesFromStream RunStdin
              (WithBufferSize size (WithMaxWorkers workers vp)) videoData
            = ExtractFramesFromStream RunStdin vp videoData) by reflexivity.
  unfold ExtractFramesFromStream in *.
  destruct (RunStdin _ _ videoData) as [[stdout stderr] [e|]].
  - eexists _, _. split; [reflexivity|]. repeat split; auto; discriminate.
  - destruct (splitJPEGFrames_total stdout) as [[fr [e|]] Hs]; rewrite Hs in *.
    + eexists _, _. split; [reflexivity|]. repeat split; auto; discriminate.
    + eexists _, _. split; [reflexivity|]. split; [discriminate|]. split; [|auto].
      intros _. split; [|eapply demux_images; exact Hs].
      exact (demux_nonempty stdout fr Hs).
Qed.

(** ** The resolution setter on all integers *)

Lemma wrap64_range z : in_int64 (wrap64 z).
Proof.
  unfold in_int64, wrap64, min_int64, max_int64.
  pose proof (Z.mod_pos_bound (z + 2 ^ 63) (2 ^ 64) ltac:(lia)). lia.
Qed.

Lemma round28_multiple v :
  Z.rem (Stream.round28 v) 28 = 0 /\ in_int64 (Stream.round28 v).
Proof.
  unfold Stream.round28. pose proof (wrap64_range (v + 13)) as Hx.
  set (x := wrap64 (v + 13)) in *. unfold in_int64 in *.
  assert (Hq : min_int64 <= Z.quot x 28 * 28 <= max_int64).
  { pose proof (Z.quot_rem' x 28) as E.
    destruct (Z_le_gt_dec 0 x) as [Hpos|Hneg].
    - pose proof (Z.rem_bound_pos_pos x 28 ltac:(lia) ltac:(lia)).
      unfold min_int64 in *. lia.
    - pose proof (Z.rem_bound_pos_neg x 28 ltac:(lia) ltac:(lia)).
      unfold max_int64 in *. lia. }
  rewrite (wrap64_small _ Hq). split; [apply Z.rem_mul; lia | exact Hq].
Qed.

(** X13. Whatever 64-bit integers are requested (zero, negative ones and
    those whose rounding overflows included), the dimensions
    [WithResolution] stores are multiples of 28 in the 64-bit range, and
    setting the stored dimensions again changes nothing. *)
Theorem WithResolution_multiples width height sp :
  in_int64 width -> in_int64 height ->
  let sp' := Stream.WithResolution width height sp in
  Z.rem (Stream.TargetWidth sp') 28 = 0 /\
  Z.rem (Stream.TargetHeight sp') 28 = 0 /\
  in_int64 (Stream.TargetWidth sp') /\ in_int64 (Stream.TargetHeight sp') /\
  Stream.WithResolution (Stream.TargetWidth sp') (Stream.TargetHeight sp') sp' = sp'.
Proof.
  intros Hw Hh sp'.
  assert (H : Z.rem (Stream.TargetWidth sp') 28 = 0 /\
              Z.rem (Stream.TargetHeight sp') 28 = 0 /\
              in_int64 (Stream.TargetWidth sp') /\ in_int64 (Stream.TargetHeight sp')).
  { unfold sp', Stream.WithResolution.
    destruct (negb (Z.rem width 28 =? 0) || negb (Z.rem height 28 =? 0)) eqn:E;
      cbn [Stream.TargetWidth Stream.TargetHeight].
    - destruct (round28_multiple width), (round28_multiple height). auto.
    - apply orb_false_iff in E as [E1 E2].
      apply negb_false_iff, Z.eqb_eq in E1, E2. auto. }
  destruct H as (H1 & H2 & H3 & H4).
  split; [exact H1|]. split; [exact H2|]. split; [exact H3|]. split; [exact H4|].
  unfold Stream.WithResolution at 1. rewrite H1, H2. cbn [Z.eqb negb orb].
  unfold sp', Stream.WithResolution.
  destruct (negb (Z.rem width 28 =? 0) || negb (Z.rem height 28 =? 0)); reflexivity.
Qed.

Lemma WithResolution_multiples_witness :
  let sp' := Stream.WithResolution (-50) 1 Stream.NewStreamProcessor in
  Z.rem (Stream.TargetWidth sp') 28 = 0 /\
  Z.rem (Stream.TargetHeight sp') 28 = 0 /\
  in_int64 (Stream.TargetWidth sp') /\ in_int64 (Stream.TargetHeight sp') /\
  Stream.WithResolution (Stream.TargetWidth sp') (Stream.TargetHeight sp') sp' = sp'.
Proof.
  apply (WithResolution_multiples (-50) 1 Stream.NewStreamProcessor);
    unfold in_int64, min_int64, max_int64; lia.
Defined.

(** X14. [WithResolution] does not reject small requests: the stored
    width is positive exactly when the requested width is at least 15,
    whatever the height; a width from 1 to 14 is stored as 0 (unless it
    is kept because both requests are multiples of 28, which a width in
    that range is not). The same holds for the height. *)
Theorem WithResolution_positive width height sp :
  in_int64 width -> in_int64 height ->
  width + 13 <= max_int64 -> height + 13 <= max_int64 ->
  let sp' := Stream.WithResolution width height sp in
  (0 < Stream.TargetWidth sp' <-> 15 <= width) /\
  (0 < Stream.TargetHeight sp' <-> 15 <= height) /\
  (1 <= width <= 14 -> Stream.TargetWidth sp' = 0) /\
  (1 <= height <= 14 -> Stream.TargetHeight sp' = 0).
Proof.
  intros Hw Hh Hw' Hh' sp'. unfold in_int64 in *.
  assert (Hr : forall v, min_int64 <= v -> v + 13 <= max_int64 ->
                 Stream.round28 v = 28 * Z.quot (v + 13) 28 /\
                 (0 < Stream.round28 v <-> 15 <= v) /\
                 (1 <= v <= 14 -> Stream.round28 v = 0)).
  { intros v H1 H2. destruct (round28_multiple v) as [_ Hin].
    unfold Stream.round28 in *. unfold in_int64, min_int64, max_int64 in *.
    rewrite (wrap64_small (v + 13)) in * by (unfold min_int64, max_int64; lia).
    pose proof (Z.quot_rem' (v + 13) 28) as E.
    assert (Hq : wrap64 (Z.quot (v + 13) 28 * 28) = 28 * Z.quot (v + 13) 28).
    { destruct (Z_le_gt_dec 0 (v + 13)) as [Hpos|Hneg].
      - pose proof (Z.rem_bound_pos_pos (v + 13) 28 ltac:(lia) ltac:(lia)).
        rewrite wrap64_small by (unfold min_int64, max_int64; lia). lia.
      - pose proof (Z.rem_bound_pos_neg (v + 13) 28 ltac:(lia) ltac:(lia)).
        rewrite wrap64_small by (unfold min_int64, max_int64; lia). lia. }
    rewrite Hq. split; [reflexivity|].
    destruct (Z_le_gt_dec 0 (v + 13)) as [Hpos|Hneg].
    - pose proof (Z.rem_bound_pos_pos (v + 13) 28 ltac:(lia) ltac:(lia)). lia.
    - pose proof (Z.rem_bound_pos_neg (v + 13) 28 ltac:(lia) ltac:(lia)). lia. }
  assert (Hm : forall v, Z.rem v 28 = 0 -> (0 < v <-> 15 <= v) /\ ~ (1 <= v <= 14)).
  { intros v H. pose proof (Z.quot_rem' v 28). lia. }
  unfold sp', Stream.WithResolution.
  destruct (negb (Z.rem width 28 =? 0) || negb (Z.rem height 28 =? 0)) eqn:E;
    cbn [Stream.TargetWidth Stream.TargetHeight].
  - destruct (Hr width) as (_ & A1 & A2); [lia | lia |].
    destruct (Hr height) as (_ & B1 & B2); [lia | lia |]. auto.
  - apply orb_false_iff in E as [E1 E2].
    apply negb_false_iff, Z.eqb_eq in E1, E2.
    destruct (Hm width E1) as [A1 A2], (Hm height E2) as [B1 B2].
    repeat split; try tauto.
Qed.

Lemma WithResolution_positive_witness :
  let sp' := Stream.WithResolution 14 15 Stream.NewStreamProcessor in
  (0 < Stream.TargetWidth sp' <-> 15 <= 14) /\
  (0 < Stream.TargetHeight sp' <-> 15 <= 15) /\
  (1 <= 14 <= 14 -> Stream.TargetWidth sp' = 0) /\
  (1 <= 15 <= 14 -> Stream.TargetHeight sp' = 0).
Proof.
  apply (WithResolution_positive 14 15 Stream.NewStreamProcessor);
    unfold in_int64, min_int64, max_int64; lia.
Defined.

(** ** The stream pipeline *)

Section Pipeline.

Variable DecodeString : string -> list byte * option error.
Variable EncodeToString : list byte -> string.

Local Abbreviation Process :=
  (Stream.ProcessH264StreamWithContext DecodeString EncodeToString).
Local Abbreviation step := (Stream.step DecodeString EncodeToString).
Local Abbreviation worker := (Stream.worker DecodeString EncodeToString).

(** What one call of the pipeline returns, by the answers of the system. *)
Lemma Process_cases w sp chunk :
  exists sp' frames err,
    Process w sp chunk = Some (sp', (frames, err)) /\
    same_configuration sp sp' /\
    (Stream.tempDir sp <> ""%string -> sp' = sp) /\
    (Stream.tempDir sp = ""%string ->
       (sp' = sp /\ exists e, err = Some (ErrTempDir e)) \/
       (sp' = Stream.set_tempDir (fst (Stream.MkdirTemp w)) sp /\
        snd (Stream.MkdirTemp w) = None)) /\
    ((frames = [] /\ exists e, err = Some e) \/
     (err = None /\ snd (Stream.Run w) = None /\
      exists images,
        Stream.splitJPEGFrames (fst (fst (Stream.Run w))) = Some (images, None) /\
        images <> [] /\ frames = map EncodeToString images)).
Proof.
  unfold Stream.ProcessH264StreamWithContext.
  assert (Hcfg : forall dir, same_configuration sp (Stream.set_tempDir dir sp))
    by (intros dir; repeat split).
  assert (Hsame : same_configuration sp sp) by (repeat split).
  assert (Hbody : forall sp0,
    exists frames err,
      match Stream.injectSPSPPS DecodeString sp0 chunk with
      | (_, Some err) => Some (sp0, ([], Some (ErrInject err)))
      | (fixedData, None) =>
        match Stream.WriteFile w with
        | Some err => Some (sp0, ([], Some (ErrWriteFile err)))
        | None =>
          match Stream.extractFramesFromH264 w sp0
                  (String.concat "" [Stream.tempDir sp0; "/stream_"%string;
                                     itoa (Stream.UnixNano w); ".h264"%string]) with
          | None => None
          | Some (_, Some err) => Some (sp0, ([], Some (ErrExtract err)))
          | Some (frames, None) => Some (sp0, (map EncodeToString frames, None))
          end
        end
      end = Some (sp0, (frames, err)) /\
      ((frames = [] /\ exists e, err = Some e) \/
       (err = None /\ snd (Stream.Run w) = None /\
        exists images,
          Stream.splitJPEGFrames (fst (fst (Stream.Run w))) = Some (images, None) /\
          images <> [] /\ frames = map EncodeToString images))).
  { intros sp0.
    destruct (Stream.injectSPSPPS DecodeString sp0 chunk) as [fixed [e|]];
      [eexists _, _; split; [reflexivity | left; eauto]|].
    destruct (Stream.WriteFile w);
      [eexists _, _; split; [reflexivity | left; eauto]|].
    unfold Stream.extractFramesFromH264.
    destruct (Stream.Run w) as [[out errout] [e|]];
      [eexists _, _; split; [reflexivity | left; eauto]|].
    cbn [fst snd]. rewrite Stream_splitJPEGFrames_eq.
    destruct (splitJPEGFrames_total out) as [[fr [e|]] Hs]; rewrite Hs;
      [eexists _, _; split; [reflexivity | left; eauto]|].
    eexists _, _. split; [reflexivity|]. right.
    split; [reflexivity|]. split; [reflexivity|]. exists fr.
    split; [reflexivity|]. split; [|reflexivity].
    exact (demux_nonempty out fr Hs). }
  destruct (String.eqb (Stream.tempDir sp) "") eqn:Et.
  - apply String.eqb_eq in Et.
    destruct (Stream.MkdirTemp w) as [dir [e|]] eqn:Em.
    + exists sp, [], (Some (ErrTempDir e)). split; [reflexivity|].
      split; [exact Hsame|]. split; [reflexivity|]. split; [|left; eauto].
      intros _. left. eauto.
    + destruct (Hbody (Stream.set_tempDir dir sp)) as (frames & err & -> & H).
      exists (Stream.set_tempDir dir sp), frames, err. split; [reflexivity|].
      split; [apply Hcfg|]. split; [congruence|]. split; [|exact H].
      intros _. right. split; reflexivity.
  - apply String.eqb_neq in Et.
    destruct (Hbody sp) as (frames & err & -> & H).
    exists sp, frames, err. split; [reflexivity|].
    split; [exact Hsame|]. split; [reflexivity|]. split; [congruence | exact H].
Qed.

End Pipeline.

(** X15. [ProcessH264StreamWithContext] returns on every chunk and never
    returns frames together with an error: it returns an error and no
    frame, or no error and the base64 strings of the frames the demuxer
    cuts from the standard output of ffmpeg, at least one. *)
Theorem process_result
    (DecodeString : string -> list byte * option error)
    (EncodeToString : list byte -> string)
    (w : Stream.syscalls) (sp : Stream.StreamProcessor) (chunk : list byte) :
  exists sp' frames err,
    Stream.ProcessH264StreamWithContext DecodeString EncodeToString w sp chunk
    = Some (sp', (frames, err)) /\
    ((frames = [] /\ exists e, err = Some e) \/
     (err = None /\ snd (Stream.Run w) = None /\
      exists images,
        Stream.splitJPEGFrames (fst (fst (Stream.Run w))) = Some (images, None) /\
        images <> [] /\ Forall is_image images /\
        frames = map EncodeToString images)).
Proof.
  destruct (Process_cases DecodeString EncodeToString w sp chunk)
    as (sp' & frames & err & H & _ & _ & _ & Hr).
  exists sp', frames, err. split; [exact H|].
  destruct Hr as [Hr|(He & Hrun & images & Hs & Hne & Hf)]; [left; exact Hr|].
  right. split; [exact He|]. split; [exact Hrun|]. exists images.
  split; [exact Hs|]. split; [exact Hne|]. split; [|exact Hf].
  rewrite Stream_splitJPEGFrames_eq in Hs. eapply demux_images. exact Hs.
Qed.

(** X16. Processing a chunk never changes the configuration of the
    processor, and the temporary directory is created lazily and kept: a
    processor that has one is returned as it is, and one that has none
    gets the directory that [os.MkdirTemp] gave, or stays as it is when
    [os.MkdirTemp] failed, in which case the call reports that error. *)
Theorem process_keeps_configuration
    (DecodeString : string -> list byte * option error)
    (EncodeToString : list byte -> string)
    (w : Stream.syscalls) (sp : Stream.StreamProcessor) (chunk : list byte) :
  exists sp' frames err,
    Stream.ProcessH264StreamWithContext DecodeString EncodeToString w sp chunk
    = Some (sp', (frames, err)) /\
    same_configuration sp sp' /\
    (Stream.tempDir sp <> ""%string -> sp' = sp) /\
    (Stream.tempDir sp = ""%string ->
       (sp' = sp /\ exists e, err = Some (ErrTempDir e)) \/
       (sp' = Stream.set_tempDir (fst (Stream.MkdirTemp w)) sp /\
        snd (Stream.MkdirTemp w) = None)).
Proof.
  destruct (Process_cases DecodeString EncodeToString w sp chunk)
    as (sp' & frames & err & H & H1 & H2 & H3 & _).
  exists sp', frames, err. auto.
Qed.

(** X17. [Cleanup] undoes what processing did to the processor: on a
    processor without temporary directory, after a call of the pipeline
    for which [os.MkdirTemp] gave the directory [dir], [Cleanup] hands
    exactly [dir] to [os.RemoveAll], returns its answer, and the
    processor is again as it was before the call. *)
Theorem process_then_cleanup
    (DecodeString : string -> list byte * option error)
    (EncodeToString : list byte -> string)
    (RemoveAll : string -> option error)
    (w : Stream.syscalls) (sp : Stream.StreamProcessor) (chunk : list byte)
    (dir : string) :
  Stream.tempDir sp = ""%string ->
  Stream.MkdirTemp w = (dir, None) -> dir <> ""%string ->
  exists sp' r,
    Stream.ProcessH264StreamWithContext DecodeString EncodeToString w sp chunk
    = Some (sp', r) /\
    Stream.tempDir sp' = dir /\
    Stream.Cleanup RemoveAll sp' = (sp, RemoveAll dir, [dir]).
Proof.
  intros Ht Hm Hd.
  destruct (Process_cases DecodeString EncodeToString w sp chunk)
    as (sp' & frames & err & H & _ & _ & H3 & _).
  exists sp', (frames, err). split; [exact H|].
  destruct (H3 Ht) as [[_ [e He]]|[-> _]].
  - exfalso. subst err. unfold Stream.ProcessH264StreamWithContext in H.
    rewrite Ht, Hm in H. cbn [String.eqb] in H.
    destruct (Stream.injectSPSPPS DecodeString _ chunk) as [fixed [e'|]];
      [discriminate|].
    destruct (Stream.WriteFile w); [discriminate|].
    destruct (Stream.extractFramesFromH264 w _ _) as [[fr [e'|]]|]; discriminate.
  - rewrite Hm. cbn [fst Stream.tempDir Stream.set_tempDir]. split; [reflexivity|].
    unfold Stream.Cleanup. cbn [Stream.tempDir Stream.set_tempDir].
    replace (String.eqb dir "") with false by (symmetry; apply String.eqb_neq; exact Hd).
    cbn [negb]. destruct sp. cbn in Ht. subst. reflexivity.
Qed.

Lemma process_then_cleanup_witness :
  exists sp' r,
    Stream.ProcessH264StreamWithContext base64.DecodeString base64.EncodeToString
      (scenario_sys (jpeg [x0a], [], None)) Stream.NewStreamProcessor [x65; x01]
    = Some (sp', r) /\
    Stream.tempDir sp' = "/tmp/h264stream-1"%string /\
    Stream.Cleanup (fun _ => None) sp'
    = (Stream.NewStreamProcessor, None, ["/tmp/h264stream-1"%string]).
Proof.
  apply (process_then_cleanup base64.DecodeString base64.EncodeToString
           (fun _ => None) (scenario_sys (jpeg [x0a], [], None))
           Stream.NewStreamProcessor [x65; x01] "/tmp/h264stream-1");
    [reflexivity | reflexivity | discriminate].
Defined.

(** ** The base64 instance decodes what it encodes *)

Lemma value_digit v : (v < 64)%N -> base64.value (base64.digit v) = Some v.
Proof.
  intros Hv.
  assert (Hall : forallb (fun v => match base64.value (base64.digit v) with
                                   | Some v' => N.eqb v' v
                                   | None => false
                                   end) (map N.of_nat (seq 0 64)) = true)
    by (vm_compute; reflexivity).
  assert (Hin : In v (map N.of_nat (seq 0 64))).
  { apply in_map_iff. exists (N.to_nat v). split; [lia|]. apply in_seq. lia. }
  pose proof (proj1 (forallb_forall _ _) Hall v Hin) as H. cbn beta in H.
  destruct (base64.value (base64.digit v)) as [v'|]; [|discriminate].
  apply N.eqb_eq in H. congruence.
Qed.

Lemma byte_of_to_N x k : base64.byte_of (k * 256 + Byte.to_N x) = x.
Proof.
  unfold base64.byte_of. pose proof (Byte.to_N_bounded x) as Hb.
  replace ((k * 256 + Byte.to_N x) mod 256)%N with (Byte.to_N x).
  - rewrite Byte.of_to_N. reflexivity.
  - rewrite N.add_comm, N.Div0.mod_add. symmetry. apply N.mod_small. lia.
Qed.

Lemma value_pad : base64.value base64.pad = None.
Proof. reflexivity. Qed.

Lemma decode_group x y z rest :
  base64.decode (base64.encode (x :: y :: z :: rest))
  = option_map (fun tl => x :: y :: z :: tl) (base64.decode (base64.encode rest)).
Proof.
  pose proof (Byte.to_N_bounded x) as Hx. pose proof (Byte.to_N_bounded y) as Hy.
  pose proof (Byte.to_N_bounded z) as Hz.
  cbn [base64.encode app base64.decode].
  remember (Byte.to_N x) as n eqn:En. remember (Byte.to_N y) as m eqn:Em.
  remember (Byte.to_N z) as k eqn:Ek.
  rewrite !value_digit by divlia.
  assert (E1 : (n / 4 * 4 + (n mod 4 * 16 + m / 16) / 16 = 0 * 256 + n)%N) by divlia.
  assert (E2 : ((n mod 4 * 16 + m / 16) * 16 + (m mod 16 * 4 + k / 64) / 4
                = n mod 4 * 256 + m)%N) by divlia.
  assert (E3 : ((m mod 16 * 4 + k / 64) * 64 + k mod 64 = m mod 16 * 256 + k)%N) by divlia.
  rewrite E1, E2, E3. subst n m k. rewrite !byte_of_to_N. reflexivity.
Qed.

Lemma decode_one x : base64.decode (base64.encode [x]) = Some [x].
Proof.
  pose proof (Byte.to_N_bounded x) as Hx.
  cbn [base64.encode base64.decode].
  remember (Byte.to_N x) as n eqn:En.
  rewrite !value_digit, value_pad by divlia.
  rewrite Ascii.eqb_refl. cbn [andb].
  replace (n / 4 * 4 + n mod 4 * 16 / 16)%N with (0 * 256 + n)%N by divlia.
  subst n. rewrite byte_of_to_N. reflexivity.
Qed.

Lemma decode_two x y : base64.decode (base64.encode [x; y]) = Some [x; y].
Proof.
  pose proof (Byte.to_N_bounded x) as Hx. pose proof (Byte.to_N_bounded y) as Hy.
  cbn [base64.encode base64.decode].
  remember (Byte.to_N x) as n eqn:En. remember (Byte.to_N y) as m eqn:Em.
  rewrite !value_digit, value_pad by divlia.
  rewrite Ascii.eqb_refl.
  replace (n / 4 * 4 + (n mod 4 * 16 + m / 16) / 16)%N with (0 * 256 + n)%N by divlia.
  replace ((n mod 4 * 16 + m / 16) * 16 + m mod 16 * 4 / 4)%N
    with (n mod 4 * 256 + m)%N by divlia.
  subst n m. rewrite !byte_of_to_N. reflexivity.
Qed.

Lemma decode_encode l : base64.decode (base64.encode l) = Some l.
Proof.
  assert (H : forall l,
            base64.decode (base64.encode l) = Some l /\
            (forall x, base64.decode (base64.encode (x :: l)) = Some (x :: l)) /\
            (forall x y, base64.decode (base64.encode (x :: y :: l)) = Some (x :: y :: l))).
  { clear l. induction l as [|z l (IH0 & IH1 & IH2)].
    - split; [reflexivity|]. split; [apply decode_one | apply decode_two].
    - split; [apply IH1|]. split; [intros x; apply IH2|].
      intros x y. rewrite decode_group, IH0. reflexivity. }
  apply H.
Qed.

Lemma base64_round_trip l :
  base64.DecodeString (base64.EncodeToString l) = (l, None).
Proof.
  unfold base64.DecodeString, base64.EncodeToString.
  rewrite list_ascii_of_string_of_list_ascii, decode_encode. reflexivity.
Qed.

(** ** The streaming worker: channels, chunks and frames *)

Lemma calls_app l1 l2 : calls (l1 ++ l2) = calls l1 ++ calls l2.
Proof.
  induction l1 as [|e l1 IH]; [reflexivity|].
  destruct e; cbn [app calls]; rewrite IH; reflexivity.
Qed.

Lemma calls_frames l : calls (map Stream.SendFrame l) = [].
Proof. induction l; [reflexivity | exact IHl]. Qed.

Lemma sent_frames_app l1 l2 : sent_frames (l1 ++ l2) = sent_frames l1 ++ sent_frames l2.
Proof.
  induction l1 as [|e l1 IH]; [reflexivity|].
  destruct e; cbn [app sent_frames]; rewrite IH; reflexivity.
Qed.

Lemma sent_frames_frames l : sent_frames (map Stream.SendFrame l) = l.
Proof. induction l as [|x l IH]; [reflexivity|]. cbn [map sent_frames]. rewrite IH. reflexivity. Qed.


Section WorkerLog.

Variable DecodeString : string -> list byte * option error.
Variable EncodeToString : list byte -> string.

Local Abbreviation Process :=
  (Stream.ProcessH264StreamWithContext DecodeString EncodeToString).
Local Abbreviation step := (Stream.step DecodeString EncodeToString).
Local Abbreviation worker := (Stream.worker DecodeString EncodeToString).

Lemma step_exited t s : Stream.exited s = true -> step t s = Some s.
Proof. intros H. unfold Stream.step. rewrite H. reflexivity. Qed.

Lemma worker_exited turns s : Stream.exited s = true -> worker turns s = Some s.
Proof.
  intros H. induction turns as [|t turns IH]; [reflexivity|].
  cbn [Stream.worker]. rewrite (step_exited t s H). exact IH.
Qed.









Lemma worker_calls_split turns s s' :
  worker turns s = Some s' -> Stream.exited s = false ->
  exists p q, chunks_read turns = p ++ q /\
    calls (Stream.log s') = calls (Stream.log s) ++ p /\
    (Forall (fun t => Stream.cancelAt t = None) turns -> q = []).
Proof.
  revert s; induction turns as [|t turns IH]; intros s; cbn [Stream.worker chunks_read].
  - intros [= <-] _. exists [], []. split; [reflexivity|].
    split; [rewrite app_nil_r; reflexivity | reflexivity].
  - destruct (step t s) as [s1|] eqn:E; [|discriminate].
    intros H He. revert E. unfold Stream.step. rewrite He.
    destruct (Stream.ctxDone t).
    { intros [= <-]. rewrite worker_exited in H by reflexivity. injection H as <-.
      exists [], []. cbn [Stream.leave Stream.log]. rewrite calls_app, !app_nil_r. auto. }
    destruct (Stream.read t) as [chunk [e|]].
    { intros [= <-]. rewrite worker_exited in H by reflexivity. injection H as <-.
      exists [], []. cbn [Stream.leave Stream.log]. rewrite calls_app, !app_nil_r.
      split; [reflexivity|]. split; [|reflexivity].
      destruct (negb (Stream.is_EOF e)); [|reflexivity].
      cbn [Stream.emit Stream.log]. rewrite calls_app, app_nil_r. reflexivity. }
    destruct (0 <? len chunk).
    2:{ intros [= <-]. destruct (IH s H He) as (p & q & H1 & H2 & H3).
        exists p, q. split; [exact H1|]. split; [exact H2|].
        intros Hf. apply H3. inversion Hf; assumption. }
    destruct (Process (Stream.sys t) (Stream.processor s) chunk)
      as [[sp [fr [e|]]]|]; [| |discriminate].
    { intros [= <-]. destruct (IH _ H eq_refl) as (p & q & H1 & H2 & H3).
      exists (chunk :: p), q. split; [rewrite H1; reflexivity|].
      split; [|intros Hf; apply H3; inversion Hf; assumption].
      rewrite H2. cbn [Stream.log]. rewrite calls_app. cbn [calls].
      rewrite <- app_assoc. reflexivity. }
    destruct (Stream.cancelAt t) as [k|] eqn:Ek; [destruct (k <? length fr)%nat|].
    + intros [= <-]. rewrite worker_exited in H by reflexivity. injection H as <-.
      exists [chunk], (chunks_read turns). split; [reflexivity|].
      split; [|intros Hf; inversion Hf; congruence].
      cbn [Stream.leave Stream.emit Stream.log].
      rewrite !calls_app, calls_frames. cbn [calls]. rewrite !app_nil_r. reflexivity.
    + intros [= <-]. destruct (IH _ H eq_refl) as (p & q & H1 & H2 & H3).
      exists (chunk :: p), q. split; [rewrite H1; reflexivity|].
      split; [|intros Hf; inversion Hf; congruence].
      rewrite H2. cbn [Stream.emit Stream.log].
      rewrite !calls_app, calls_frames. cbn [calls].
      rewrite app_nil_r, <- app_assoc. reflexivity.
    + intros [= <-]. destruct (IH _ H eq_refl) as (p & q & H1 & H2 & H3).
      exists (chunk :: p), q. split; [rewrite H1; reflexivity|].
      split; [|intros Hf; apply H3; inversion Hf; assumption].
      rewrite H2. cbn [Stream.emit Stream.log].
      rewrite !calls_app, calls_frames. cbn [calls].
      rewrite app_nil_r, <- app_assoc. reflexivity.
Qed.

Hypothesis round_trip : forall b, DecodeString (EncodeToString b) = (b, None).

Lemma frameData_encode images :
  map (Stream.frameData DecodeString) (map EncodeToString images) = images.
Proof.
  induction images as [|x l IH]; [reflexivity|].
  cbn [map]. rewrite IH. unfold Stream.frameData. rewrite round_trip. reflexivity.
Qed.

Lemma step_images t s s' :
  step t s = Some s' ->
  Forall is_image (sent_frames (Stream.log s)) ->
  Forall is_image (sent_frames (Stream.log s')).
Proof.
  unfold Stream.step. destruct (Stream.exited s) eqn:He; [intros [= <-]; auto|].
  assert (Hl : forall s0, Forall is_image (sent_frames (Stream.log s0)) ->
                          Forall is_image (sent_frames (Stream.log (Stream.leave s0)))).
  { intros s0 H0. cbn [Stream.leave Stream.log]. rewrite sent_frames_app.
    cbn [sent_frames]. rewrite app_nil_r. exact H0. }
  destruct (Stream.ctxDone t); [intros [= <-]; auto|].
  destruct (Stream.read t) as [chunk [e|]].
  - intros [= <-] H. apply Hl. destruct (negb (Stream.is_EOF e)); [|exact H].
    cbn [Stream.emit Stream.log]. rewrite sent_frames_app. cbn [sent_frames].
    rewrite app_nil_r. exact H.
  - destruct (0 <? len chunk); [|intros [= <-]; auto].
    destruct (Process_cases DecodeString EncodeToString (Stream.sys t)
                (Stream.processor s) chunk)
      as (sp & fr & err & -> & _ & _ & _ & Hr).
    destruct err as [e|].
    + intros [= <-] H. cbn [Stream.log]. rewrite sent_frames_app. cbn [sent_frames].
      rewrite app_nil_r. exact H.
    + destruct Hr as [(_ & e & He')|(_ & _ & images & Hs & _ & ->)]; [discriminate|].
      rewrite Stream_splitJPEGFrames_eq in Hs. apply demux_images in Hs.
      intros Hst H.
      assert (Hk : forall k, Forall is_image
                     (sent_frames (Stream.log s ++ [Stream.Call chunk])
                      ++ sent_frames (map Stream.SendFrame
                           (map (Stream.frameData DecodeString)
                              (take k (map EncodeToString images)))))).
      { intros k. rewrite sent_frames_app, sent_frames_frames. cbn [sent_frames].
        rewrite app_nil_r. apply Forall_app. split; [exact H|].
        rewrite <- fmap_take. change (fmap ?f ?l) with (map f l).
        rewrite frameData_encode. apply Forall_take. exact Hs. }
      assert (Ha : Forall is_image
                     (sent_frames (Stream.log s ++ [Stream.Call chunk])
                      ++ sent_frames (map Stream.SendFrame
                           (map (Stream.frameData DecodeString)
                              (map EncodeToString images))))).
      { specialize (Hk (length (map EncodeToString images))).
        rewrite firstn_all in Hk. exact Hk. }
      destruct (Stream.cancelAt t) as [k|]; [destruct (k <? length _)%nat|];
        injection Hst as <-; [apply Hl | |];
        cbn [Stream.emit Stream.log]; rewrite sent_frames_app; auto.
Qed.

Lemma worker_images turns s s' :
  worker turns s = Some s' ->
  Forall is_image (sent_frames (Stream.log s)) ->
  Forall is_image (sent_frames (Stream.log s')).
Proof.
  revert s; induction turns as [|t turns IH]; intros s; cbn [Stream.worker].
  - intros [= <-]. auto.
  - destruct (step t s) as [s1|] eqn:E; [|discriminate].
    intros H Hs. apply (IH s1 H). exact (step_images t s s1 E Hs).
Qed.

End WorkerLog.


(** X19. The worker hands to the pipeline the non-empty chunks that
    [Read] returned without an error, in the order they were read and
    each once: the calls of its log are a prefix of the chunks read
    before the first error of [Read] and before the context is seen done,
    and all of them when no publish is interrupted by the context. *)
Theorem worker_calls
    (DecodeString : string -> list byte * option error)
    (EncodeToString : list byte -> string)
    (sp : Stream.StreamProcessor) (turns : list Stream.turn) :
  exists s,
    Stream.Start DecodeString EncodeToString sp turns = Some s /\
    (exists rest, chunks_read turns = calls (Stream.log s) ++ rest) /\
    (Forall (fun t => Stream.cancelAt t = None) turns ->
     calls (Stream.log s) = chunks_read turns).
Proof.
  unfold Stream.Start.
  destruct (worker_total DecodeString EncodeToString turns
              (Stream.mkSession sp [] false)) as [s Hs].
  exists s. split; [exact Hs|].
  destruct (worker_calls_split _ _ _ _ _ Hs eq_refl) as (p & q & H1 & H2 & H3).
  cbn [Stream.log calls app] in H2. rewrite H2.
  split; [exists q; exact H1|].
  intros Hf. rewrite H1, (H3 Hf), app_nil_r. reflexivity.
Qed.

(** X20. With a base64 codec that decodes what it encodes, every frame
    the worker sends on the frame channel is a complete JPEG image:
    the start marker, a body without end marker, the end marker. *)
Theorem worker_sends_images
    (DecodeString : string -> list byte * option error)
    (EncodeToString : list byte -> string)
    (sp : Stream.StreamProcessor) (turns : list Stream.turn) :
  (forall b, DecodeString (EncodeToString b) = (b, None)) ->
  exists s,
    Stream.Start DecodeString EncodeToString sp turns = Some s /\
    Forall is_image (sent_frames (Stream.log s)).
Proof.
  intros Hrt. unfold Stream.Start.
  destruct (worker_total DecodeString EncodeToString turns
              (Stream.mkSession sp [] false)) as [s Hs].
  exists s. split; [exact Hs|].
  apply (worker_images _ _ Hrt _ _ _ Hs). constructor.
Qed.

Lemma worker_sends_images_witness :
  exists s,
    Stream.Start base64.DecodeString base64.EncodeToString Stream.NewStreamProcessor
      scenario = Some s /\
    Forall is_image (sent_frames (Stream.log s)).
Proof.
  apply (worker_sends_images base64.DecodeString base64.EncodeToString
           Stream.NewStreamProcessor scenario).
  exact base64_round_trip.
Defined.

(** X21. With a base64 codec that decodes what it encodes, a chunk that
    the pipeline processes without error is published as the frames the
    demuxer cuts from the standard output of ffmpeg, in order, after the
    call: all of them when the context does not interrupt, and the first
    [k] of them when the context is done at publish [k], after which the
    worker closes both channels and leaves. *)
Theorem worker_publishes
    (DecodeString : string -> list byte * option error)
    (EncodeToString : list byte -> string)
    (t : Stream.turn) (s : Stream.session) (chunk : list byte)
    (sp' : Stream.StreamProcessor) (frames : list string) :
  (forall b, DecodeString (EncodeToString b) = (b, None)) ->
  Stream.exited s = false -> Stream.ctxDone t = false ->
  Stream.read t = (chunk, None) -> chunk <> [] ->
  Stream.ProcessH264StreamWithContext DecodeString EncodeToString
    (Stream.sys t) (Stream.processor s) chunk = Some (sp', (frames, None)) ->
  exists images,
    Stream.splitJPEGFrames (fst (fst (Stream.Run (Stream.sys t)))) = Some (images, None) /\
    let sent := match Stream.cancelAt t with
                | Some k => take k images
                | None => images
                end in
    let cancelled := match Stream.cancelAt t with
                     | Some k => (k <? length images)%nat
                     | None => false
                     end in
    Stream.step DecodeString EncodeToString t s
    = Some (Stream.mkSession sp'
              (Stream.log s ++ Stream.Call chunk :: map Stream.SendFrame sent
               ++ (if cancelled
                   then [Stream.CloseError; Stream.CloseFrame; Stream.WgDone]
                   else []))
              cancelled).
Proof.
  intros Hrt He Hc Hr Hne Hp.
  destruct (Process_cases DecodeString EncodeToString (Stream.sys t)
              (Stream.processor s) chunk)
    as (sp0 & fr & err & Hp' & _ & _ & _ & Hres).
  rewrite Hp in Hp'. injection Hp' as <- <- <-.
  destruct Hres as [(_ & e & He')|(_ & _ & images & Hs & _ & Hf)]; [discriminate|].
  exists images. split; [exact Hs|]. cbv zeta.
  unfold Stream.step. rewrite He, Hc, Hr.
  replace (0 <? len chunk) with true
    by (symmetry; apply Z.ltb_lt; destruct chunk; [congruence | unfold len; simpl; lia]).
  rewrite Hp. subst frames.
  destruct (Stream.cancelAt t) as [k|].
  - rewrite length_map. destruct (k <? length images)%nat eqn:Ek.
    + unfold Stream.leave, Stream.emit; cbn [Stream.log Stream.processor Stream.exited].
      rewrite <- fmap_take. change (fmap ?f ?l) with (map f l).
      rewrite (frameData_encode _ _ Hrt). rewrite <- !app_assoc. reflexivity.
    + unfold Stream.emit; cbn [Stream.log Stream.processor Stream.exited].
      rewrite (frameData_encode _ _ Hrt), app_nil_r, <- app_assoc.
      apply Nat.ltb_ge in Ek. rewrite take_ge by lia. reflexivity.
  - unfold Stream.emit; cbn [Stream.log Stream.processor Stream.exited].
    rewrite (frameData_encode _ _ Hrt), app_nil_r, <- app_assoc. reflexivity.
Qed.

Lemma worker_publishes_witness :
  exists images,
    Stream.splitJPEGFrames (jpeg [x0a] ++ jpeg [x0b]) = Some (images, None) /\
    Stream.step base64.DecodeString base64.EncodeToString
      (Stream.mkTurn false ([x65; x01], None)
         (scenario_sys (jpeg [x0a] ++ jpeg [x0b], [], None)) (Some 1%nat))
      (Stream.mkSession Stream.NewStreamProcessor [] false)
    = Some (Stream.mkSession
              (Stream.set_tempDir "/tmp/h264stream-1" Stream.NewStreamProcessor)
              ([] ++ Stream.Call [x65; x01] :: map Stream.SendFrame (take 1 images)
               ++ (if (1 <? length images)%nat
                   then [Stream.CloseError; Stream.CloseFrame; Stream.WgDone]
                   else []))
              (1 <? length images)%nat).
Proof.
  apply (worker_publishes base64.DecodeString base64.EncodeToString
           (Stream.mkTurn false ([x65; x01], None)
              (scenario_sys (jpeg [x0a] ++ jpeg [x0b], [], None)) (Some 1%nat))
           (Stream.mkSession Stream.NewStreamProcessor [] false) [x65; x01]
           (Stream.set_tempDir "/tmp/h264stream-1" Stream.NewStreamProcessor)
           (map base64.EncodeToString [jpeg [x0a]; jpeg [x0b]]));
    [exact base64_round_trip | reflexivity | reflexivity | reflexivity
    | discriminate | vm_compute; reflexivity].
Defined.

(** ** The client *)

Lemma fold_left_snoc {A B : Type} (f : B -> A) (l : list B) (acc : list A) :
  fold_left (fun acc x => acc ++ [f x]) l acc = acc ++ map f l.
Proof.
  revert acc; induction l as [|x l IH]; intros acc; cbn [fold_left map].
  - rewrite app_nil_r. reflexivity.
  - rewrite IH, <- app_assoc. reflexivity.
Qed.

Lemma substring_all s : String.substring 0 (String.length s) s = s.
Proof. induction s as [|a s IH]; [reflexivity|]. cbn. rewrite IH. reflexivity. Qed.

Lemma payload_data_uri typ text b64 detail :
  payload (models.mkContent typ text
             (Some (models.mkImageURL
                      (String.append "data:image/jpeg;base64," b64) detail)))
  = b64.
Proof.
  unfold payload. cbn [models.ImageURL_ models.URL String.append String.length].
  cbn [Nat.sub String.substring]. rewrite Nat.sub_0_r. apply substring_all.
Qed.

Section ClientFacts.

Variable DecodeString : string -> list byte * option error.
Variable EncodeToString : list byte -> string.
Variable Marshal : models.ChatRequest -> list byte * option error.
Variable Unmarshal : list byte -> models.ChatResponse * option error.
Variable NewRequest : string -> string -> option error.
Variable Do : http.Request -> http.Response * option error.

Local Abbreviation AnalyzeFramesWithOptions :=
  (client.AnalyzeFramesWithOptions EncodeToString Marshal Unmarshal NewRequest Do).

Lemma decodeFrames_encode i images :
  (forall b, DecodeString (EncodeToString b) = (b, None)) ->
  client.decodeFrames DecodeString i (map EncodeToString images) = inl images.
Proof.
  intros Hrt. revert i; induction images as [|x l IH]; intros i; [reflexivity|].
  cbn [map client.decodeFrames]. rewrite Hrt, IH. reflexivity.
Qed.

End ClientFacts.

(** X22. [AnalyzeFramesWithOptions] sends at most one request and
    returns either a response or an error, never both and never
    neither. Nothing is sent exactly when the request could not be
    marshalled or created. A response is returned only for an answer
    with status 200 whose body was read and parsed, and it is the parsed
    body. *)
Theorem analyze_frames_result
    (EncodeToString : list byte -> string)
    (Marshal : models.ChatRequest -> list byte * option error)
    (Unmarshal : list byte -> models.ChatResponse * option error)
    (NewRequest : string -> string -> option error)
    (Do : http.Request -> http.Response * option error)
    (c : client.Client) (prompt : string) (frames : list (list byte))
    (options : option client.ChatOptions) :
  exists sent resp err,
    client.AnalyzeFramesWithOptions EncodeToString Marshal Unmarshal NewRequest Do
      c prompt frames options = (sent, (resp, err)) /\
    (length sent <= 1)%nat /\
    (resp = None <-> err <> None) /\
    (sent = [] <->
     exists e, err = Some (client.ErrMarshal e) \/
               err = Some (client.ErrCreateRequest e)) /\
    (forall r, resp = Some r ->
       exists httpReq answer body,
         sent = [httpReq] /\ Do httpReq = (answer, None) /\
         http.StatusCode answer = 200 /\ http.ReadAll answer = (body, None) /\
         Unmarshal body = (r, None)).
Proof.
  unfold client.AnalyzeFramesWithOptions.
  destruct (Marshal _) as [reqBody [e|]].
  { eexists _, _, _. split; [reflexivity|]. split; [simpl; lia|].
    split; [split; [discriminate | reflexivity]|].
    split; [split; [eauto | reflexivity]|]. discriminate. }
  destruct (NewRequest _ _) as [e|].
  { eexists _, _, _. split; [reflexivity|]. split; [simpl; lia|].
    split; [split; [discriminate | reflexivity]|].
    split; [split; [eauto | reflexivity]|]. discriminate. }
  destruct (Do _) as [answer [e|]] eqn:Ed.
  { eexists _, _, _. split; [reflexivity|]. split; [simpl; lia|].
    split; [split; [discriminate | reflexivity]|].
    split; [split; [discriminate | intros (e' & [H|H]); discriminate]|]. discriminate. }
  destruct (http.ReadAll answer) as [body [e|]] eqn:Er.
  { eexists _, _, _. split; [reflexivity|]. split; [simpl; lia|].
    split; [split; [discriminate | reflexivity]|].
    split; [split; [discriminate | intros (e' & [H|H]); discriminate]|]. discriminate. }
  destruct (http.StatusCode answer =? http.StatusOK) eqn:Es; cbn [negb].
  2:{ eexists _, _, _. split; [reflexivity|]. split; [simpl; lia|].
      split; [split; [discriminate | reflexivity]|].
      split; [split; [discriminate | intros (e' & [H|H]); discriminate]|]. discriminate. }
  apply Z.eqb_eq in Es.
  destruct (Unmarshal body) as [chatResp [e|]] eqn:Eu.
  { eexists _, _, _. split; [reflexivity|]. split; [simpl; lia|].
    split; [split; [discriminate | reflexivity]|].
    split; [split; [discriminate | intros (e' & [H|H]); discriminate]|]. discriminate. }
  eexists _, _, _. split; [reflexivity|]. split; [simpl; lia|].
  split; [split; [discriminate | intros H; destruct H; reflexivity]|].
  split; [split; [discriminate | intros (e' & [H|H]); discriminate]|].
  intros r [= <-]. eexists _, answer, body.
  split; [reflexivity|]. split; [exact Ed|]. split; [exact Es|].
  split; [exact Er | exact Eu].
Qed.

(** X23. With a base64 codec that decodes what it encodes, every
    request [AnalyzeFramesWithOptions] sends is a POST to the URL of the
    client, with the JSON content type and the API key as bearer token,
    whose body is the marshalled chat request of one user message: the
    prompt as text, then one image per frame, each a JPEG data URI in
    high detail whose base64 text decodes to the frame, in the order of
    the frames. *)
Theorem analyze_frames_request
    (DecodeString : string -> list byte * option error)
    (EncodeToString : list byte -> string)
    (Marshal : models.ChatRequest -> list byte * option error)
    (Unmarshal : list byte -> models.ChatResponse * option error)
    (NewRequest : string -> string -> option error)
    (Do : http.Request -> http.Response * option error)
    (c : client.Client) (prompt : string) (frames : list (list byte))
    (options : option client.ChatOptions) (r : http.Request) :
  (forall b, DecodeString (EncodeToString b) = (b, None)) ->
  In r (fst (client.AnalyzeFramesWithOptions EncodeToString Marshal Unmarshal
               NewRequest Do c prompt frames options)) ->
  http.Method r = "POST"%string /\ http.URL r = client.APIURL c /\
  http.Header r
  = [("Content-Type", "application/json");
     ("Authorization", String.append "Bearer " (client.APIKey c))]%string /\
  exists req contents,
    Marshal req = (http.Body r, None) /\
    models.Model req = client.Model c /\
    models.Messages req
    = [models.mkMessage "user" (models.mkContent "text" prompt None :: contents)] /\
    Forall is_image_content contents /\
    map (fun c => fst (DecodeString (payload c))) contents = frames.
Proof.
  intros Hrt. unfold client.AnalyzeFramesWithOptions.
  rewrite (fold_left_snoc
             (fun frame =>
                models.mkContent "image_url" ""
                  (Some (models.mkImageURL
                           (String.append "data:image/jpeg;base64,"
                              (EncodeToString frame)) "high")))).
  cbn [app].
  assert (Hc : forall l,
             Forall is_image_content
               (map (fun frame =>
                       models.mkContent "image_url" ""
                         (Some (models.mkImageURL
                                  (String.append "data:image/jpeg;base64,"
                                     (EncodeToString frame)) "high"))) l) /\
             map (fun c => fst (DecodeString (payload c)))
               (map (fun frame =>
                       models.mkContent "image_url" ""
                         (Some (models.mkImageURL
                                  (String.append "data:image/jpeg;base64,"
                                     (EncodeToString frame)) "high"))) l) = l).
  { induction l as [|x l [IH1 IH2]]; [split; [constructor | reflexivity]|].
    cbn [map]. split.
    - constructor; [|exact IH1]. split; [reflexivity|]. split; [reflexivity|].
      eexists. reflexivity.
    - rewrite payload_data_uri, Hrt, IH2. reflexivity. }
  specialize (Hc frames).
  set (contents := map _ frames) in *.
  set (req := match options with Some _ => _ | None => _ end).
  assert (Hreq : models.Model req = client.Model c /\
                 models.Messages req
                 = [models.mkMessage "user"
                      (models.mkContent "text" prompt None :: contents)])
    by (unfold req; destruct options; split; reflexivity).
  destruct (Marshal req) as [reqBody [e|]] eqn:Em; [intros []|].
  destruct (NewRequest _ _) as [e|]; [intros []|].
  assert (Hr : forall res : list http.Request
                            * (option models.ChatResponse * option client.failure),
             fst res
             = [http.Set_ "Authorization" (String.append "Bearer " (client.APIKey c))
                  (http.Set_ "Content-Type" "application/json"
                     (http.mkRequest "POST" (client.APIURL c) [] reqBody))] ->
             In r (fst res) ->
             http.Method r = "POST"%string /\ http.URL r = client.APIURL c /\
             http.Header r
             = [("Content-Type", "application/json");
                ("Authorization", String.append "Bearer " (client.APIKey c))]%string /\
             exists req contents,
               Marshal req = (http.Body r, None) /\
               models.Model req = client.Model c /\
               models.Messages req
               = [models.mkMessage "user"
                    (models.mkContent "text" prompt None :: contents)] /\
               Forall is_image_content contents /\
               map (fun c => fst (DecodeString (payload c))) contents = frames).
  { intros res -> [<-|[]]. split; [reflexivity|]. split; [reflexivity|].
    split; [reflexivity|]. exists req, contents.
    split; [exact Em|]. split; [apply Hreq|]. split; [apply Hreq|]. exact Hc. }
  apply Hr.
  destruct (Do _) as [answer [e|]]; [reflexivity|].
  destruct (http.ReadAll answer) as [body [e|]]; [reflexivity|].
  destruct (negb _); [reflexivity|].
  destruct (Unmarshal body) as [chatResp [e|]]; reflexivity.
Qed.

Lemma analyze_frames_request_witness :
  let r :=
    http.mkRequest "POST" client.DefaultAPIURL
      [("Content-Type", "application/json"); ("Authorization", "Bearer key")]%string
      [x7b; x7d] in
  http.Method r = "POST"%string /\ http.URL r = client.APIURL example_client /\
  http.Header r
  = [("Content-Type", "application/json");
     ("Authorization", String.append "Bearer " (client.APIKey example_client))]%string /\
  exists req contents,
    example_marshal req = (http.Body r, None) /\
    models.Model req = client.Model example_client /\
    models.Messages req
    = [models.mkMessage "user" (models.mkContent "text" "what is shown" None :: contents)] /\
    Forall is_image_content contents /\
    map (fun c => fst (base64.DecodeString (payload c))) contents
    = [jpeg [x0a]; jpeg [x0b]].
Proof.
  apply (analyze_frames_request base64.DecodeString base64.EncodeToString
           example_marshal example_unmarshal example_new_request example_do
           example_client "what is shown" [jpeg [x0a]; jpeg [x0b]] None);
    [exact base64_round_trip | left; reflexivity].
Defined.

(** X24. With a base64 codec that decodes what it encodes,
    [AnalyzeH264StreamWithOptions] is [AnalyzeFramesWithOptions] on the
    frames the demuxer cuts from the standard output of ffmpeg, at least
    one and each a complete image; decoding the frames never fails. When
    the pipeline fails nothing is sent, and the error of the pipeline is
    returned wrapped. In both cases the client keeps the processor as the
    pipeline left it. *)
Theorem analyze_stream_frames
    (DecodeString : string -> list byte * option error)
    (EncodeToString : list byte -> string)
    (Marshal : models.ChatRequest -> list byte * option error)
    (Unmarshal : list byte -> models.ChatResponse * option error)
    (NewRequest : string -> string -> option error)
    (Do : http.Request -> http.Response * option error)
    (w : Stream.syscalls) (c : client.Client) (h264Data : list byte)
    (prompt : string) (options : option client.ChatOptions) :
  (forall b, DecodeString (EncodeToString b) = (b, None)) ->
  exists sp base64Frames err,
    Stream.ProcessH264StreamWithContext DecodeString EncodeToString w
      (client.StreamProcessor c) h264Data = Some (sp, (base64Frames, err)) /\
    match err with
    | Some e =>
      client.AnalyzeH264StreamWithOptions DecodeString EncodeToString Marshal
        Unmarshal NewRequest Do w c h264Data prompt options
      = Some (client.set_StreamProcessor sp c,
              ([], (None, Some (client.ErrProcessStream e))))
    | None =>
      exists images,
        Stream.splitJPEGFrames (fst (fst (Stream.Run w))) = Some (images, None) /\
        images <> [] /\ Forall is_image images /\
        client.AnalyzeH264StreamWithOptions DecodeString EncodeToString Marshal
          Unmarshal NewRequest Do w c h264Data prompt options
        = Some (client.set_StreamProcessor sp c,
                client.AnalyzeFramesWithOptions EncodeToString Marshal Unmarshal
                  NewRequest Do (client.set_StreamProcessor sp c) prompt images
                  options)
    end.
Proof.
  intros Hrt. unfold client.AnalyzeH264StreamWithOptions.
  destruct (Process_cases DecodeString EncodeToString w (client.StreamProcessor c)
              h264Data) as (sp & fr & err & Hp & _ & _ & _ & Hres).
  exists sp, fr, err. split; [exact Hp|]. rewrite Hp.
  destruct err as [e|]; [reflexivity|].
  destruct Hres as [(_ & e & He)|(_ & _ & images & Hs & Hne & ->)]; [discriminate|].
  exists images. split; [exact Hs|]. split; [exact Hne|].
  split; [rewrite Stream_splitJPEGFrames_eq in Hs; eapply demux_images; exact Hs|].
  rewrite (decodeFrames_encode DecodeString EncodeToString 0 images Hrt). reflexivity.
Qed.

Lemma analyze_stream_frames_witness :
  exists sp base64Frames err,
    Stream.ProcessH264StreamWithContext base64.DecodeString base64.EncodeToString
      (scenario_sys (jpeg [x0a] ++ jpeg [x0b], [], None))
      (client.StreamProcessor example_client) [x65; x01]
    = Some (sp, (base64Frames, err)) /\
    match err with
    | Some e =>
      client.AnalyzeH264StreamWithOptions base64.DecodeString base64.EncodeToString
        example_marshal example_unmarshal example_new_request example_do
        (scenario_sys (jpeg [x0a] ++ jpeg [x0b], [], None)) example_client
        [x65; x01] "what is shown" None
      = Some (client.set_StreamProcessor sp example_client,
              ([], (None, Some (client.ErrProcessStream e))))
    | None =>
      exists images,
        Stream.splitJPEGFrames
          (fst (fst (Stream.Run (scenario_sys (jpeg [x0a] ++ jpeg [x0b], [], None)))))
        = Some (images, None) /\
        images <> [] /\ Forall is_image images /\
        client.AnalyzeH264StreamWithOptions base64.DecodeString
          base64.EncodeToString example_marshal example_unmarshal
          example_new_request example_do
          (scenario_sys (jpeg [x0a] ++ jpeg [x0b], [], None)) example_client
          [x65; x01] "what is shown" None
        = Some (client.set_StreamProcessor sp example_client,
                client.AnalyzeFramesWithOptions base64.EncodeToString
                  example_marshal example_unmarshal example_new_request example_do
                  (client.set_StreamProcessor sp example_client) "what is shown"
                  images None)
    end.
Proof.
  apply (analyze_stream_frames base64.DecodeString base64.EncodeToString
           example_marshal example_unmarshal example_new_request example_do
           (scenario_sys (jpeg [x0a] ++ jpeg [x0b], [], None)) example_client
           [x65; x01] "what is shown" None).
  exact base64_round_trip.
Defined.

(** ** The client of the video processor *)

(** X25. [SetFPS] replaces the video processor by a new one, so it
    discards what [ConfigureProcessor] set before it: the processor then
    has the default workers, buffer and hardware acceleration again.
    In the other order both settings hold. *)
Theorem SetFPS_resets_processor
    (numCPU fps maxWorkers bufferSize : Z) (enableHWAccel : bool)
    (c : legacy_client.Client) :
  legacy_client.VideoProcessor_
    (legacy_client.SetFPS numCPU fps
       (legacy_client.ConfigureProcessor maxWorkers bufferSize enableHWAccel c))
  = NewVideoProcessor numCPU fps /\
  legacy_client.VideoProcessor_
    (legacy_client.ConfigureProcessor maxWorkers bufferSize enableHWAccel
       (legacy_client.SetFPS numCPU fps c))
  = mkVideoProcessor fps maxWorkers bufferSize enableHWAccel false /\
  legacy_client.SetFPS numCPU fps
    (legacy_client.ConfigureProcessor maxWorkers bufferSize enableHWAccel c)
  = legacy_client.SetFPS numCPU fps c.
Proof. split; [reflexivity|]. split; reflexivity. Qed.

(** X26. On a pool with a worker and a channel of non-negative capacity,
    [AnalyzeVideo] does not panic, and when it returns it has either
    failed to extract frames,
    and then it sent nothing and returns that error wrapped, or it
    returns what [AnalyzeFrames] returns on the frames the sequential
    demuxer cuts from the standard output of ffmpeg, at least one and
    each a complete image. *)
Theorem analyze_video
    (EncodeToString : list byte -> string)
    (Marshal : legacy_models.ChatRequest -> list byte * option error)
    (Unmarshal : list byte -> models.ChatResponse * option error)
    (NewRequest : string -> string -> option error)
    (Do : http.Request -> http.Response * option error)
    (LookPath : string -> option error)
    (getVideoDuration : string -> spec_float * option error)
    (Run : string -> list string -> list byte * list byte * option error)
    (c : legacy_client.Client) (sched : list action) (videoPath prompt : string)
    (o : outcome (list http.Request
                  * (option models.ChatResponse * option legacy_client.failure))) :
  1 <= MaxWorkers (legacy_client.VideoProcessor_ c) ->
  0 <= BufferSize (legacy_client.VideoProcessor_ c) ->
  snd (legacy_client.AnalyzeVideo EncodeToString Marshal Unmarshal NewRequest Do
         LookPath getVideoDuration Run c sched videoPath prompt) = Some o ->
  (exists e,
     snd (ExtractFramesWithContext LookPath getVideoDuration Run
            (legacy_client.VideoProcessor_ c) sched videoPath)
     = Some (Returns ([], Some e)) /\
     o = Returns ([], (None, Some (legacy_client.ErrExtractFrames e)))) \/
  (exists stdout stderr frames,
     Run "ffmpeg"%string (buildFFmpegArgs (legacy_client.VideoProcessor_ c) videoPath)
     = (stdout, stderr, None) /\
     splitJPEGFrames stdout = Some (frames, None) /\
     frames <> [] /\ Forall is_image frames /\
     o = Returns (legacy_client.AnalyzeFrames EncodeToString Marshal Unmarshal
                    NewRequest Do c prompt frames)).
Proof.
  intros Hw Hb. unfold legacy_client.AnalyzeVideo, ExtractFramesWithContext.
  destruct (LookPath "ffmpeg"%string);
    [cbn [snd]; intros [= <-]; left; eauto|].
  destruct (getVideoDuration videoPath) as [d [e|]];
    [cbn [snd]; intros [= <-]; left; eauto|].
  destruct (wrap64 _ =? 0); [cbn [snd]; intros [= <-]; left; eauto|].
  destruct (Run "ffmpeg"%string _) as [[stdout stderr] [e|]];
    [cbn [snd]; intros [= <-]; left; eauto|].
  destruct (scan_ranges stdout) as [l Hl].
  pose proof (splitJPEGFrames_ranges stdout l Hl) as Hs.
  destruct (splitJPEGFramesConcurrent (legacy_client.VideoProcessor_ c) stdout sched)
    as [o'|] eqn:Ec; [|discriminate].
  rewrite (concurrent_ranges _ stdout l sched o' Hw Hb Hl Ec).
  destruct l as [|r l]; cbn [snd]; intros [= <-]; [left; eauto|].
  right. exists stdout, stderr, (map (copy_range stdout) (r :: l)).
  split; [reflexivity|]. split; [exact Hs|]. split; [discriminate|].
  split; [eapply demux_images; exact Hs | reflexivity].
Qed.

Lemma analyze_video_witness :
  (exists e,
     snd (ExtractFramesWithContext found three_seconds two_images
            (legacy_client.VideoProcessor_ example_legacy_client)
            (serial_schedule 2 4) "clip.mp4")
     = Some (Returns ([], Some e)) /\
     Returns (legacy_client.AnalyzeFrames base64.EncodeToString
                example_legacy_marshal example_unmarshal example_new_request
                example_do example_legacy_client "what is shown"
                [jpeg [x0a]; jpeg [x0b]])
     = Returns ([], (None, Some (legacy_client.ErrExtractFrames e)))) \/
  (exists stdout stderr frames,
     two_images "ffmpeg"%string
       (buildFFmpegArgs (legacy_client.VideoProcessor_ example_legacy_client)
          "clip.mp4")
     = (stdout, stderr, None) /\
     splitJPEGFrames stdout = Some (frames, None) /\
     frames <> [] /\ Forall is_image frames /\
     Returns (legacy_client.AnalyzeFrames base64.EncodeToString
                example_legacy_marshal example_unmarshal example_new_request
                example_do example_legacy_client "what is shown"
                [jpeg [x0a]; jpeg [x0b]])
     = Returns (legacy_client.AnalyzeFrames base64.EncodeToString
                  example_legacy_marshal example_unmarshal example_new_request
                  example_do example_legacy_client "what is shown" frames)).
Proof.
  apply (analyze_video base64.EncodeToString example_legacy_marshal
           example_unmarshal example_new_request example_do
           found three_seconds two_images example_legacy_client
           (serial_schedule 2 4) "clip.mp4" "what is shown");
    [vm_compute; discriminate | vm_compute; discriminate | vm_compute; reflexivity].
Defined.

(** X27. [AnalyzeVideoFromStream] returns on every input: when the
    extraction fails it sends nothing and returns that error wrapped,
    and otherwise it returns what [AnalyzeFrames] returns on the frames
    the demuxer cuts from the standard output of ffmpeg, at least one and
    each a complete image. *)
Theorem analyze_video_from_stream
    (EncodeToString : list byte -> string)
    (Marshal : legacy_models.ChatRequest -> list byte * option error)
    (Unmarshal : list byte -> models.ChatResponse * option error)
    (NewRequest : string -> string -> option error)
    (Do : http.Request -> http.Response * option error)
    (RunStdin : string -> list string -> list byte -> list byte * list byte * option error)
    (c : legacy_client.Client) (videoData : list byte) (prompt : string) :
  exists r,
    legacy_client.AnalyzeVideoFromStream EncodeToString Marshal Unmarshal
      NewRequest Do RunStdin c videoData prompt = Some r /\
    ((exists e,
        ExtractFramesFromStream RunStdin (legacy_client.VideoProcessor_ c) videoData
        = Some ([], Some e) /\
        r = ([], (None, Some (legacy_client.ErrExtractStream e)))) \/
     (exists frames,
        ExtractFramesFromStream RunStdin (legacy_client.VideoProcessor_ c) videoData
        = Some (frames, None) /\
        frames <> [] /\ Forall is_image frames /\
        r = legacy_client.AnalyzeFrames EncodeToString Marshal Unmarshal
              NewRequest Do c prompt frames)).
Proof.
  unfold legacy_client.AnalyzeVideoFromStream, ExtractFramesFromStream.
  destruct (RunStdin _ _ videoData) as [[stdout stderr] [e|]].
  - eexists. split; [reflexivity|]. left. eauto.
  - destruct (splitJPEGFrames_total stdout) as [[fr [e|]] Hs]; rewrite Hs.
    + eexists. split; [reflexivity|]. left. eauto.
    + eexists. split; [reflexivity|]. right. exists fr.
      split; [reflexivity|]. split; [exact (demux_nonempty stdout fr Hs)|].
      split; [eapply demux_images; exact Hs | reflexivity].
Qed.

(** ** [OptimizeFrameSize] *)

(** The frame is never resized: a frame that decodes comes back as it
    is, whatever its width and the width asked for. *)
Lemma OptimizeFrameSize_keeps_frame jpegBounds frame maxWidth :
  snd (jpegBounds frame) = None ->
  OptimizeFrameSize jpegBounds frame maxWidth = (frame, None).
Proof.
  unfold OptimizeFrameSize. destruct (jpegBounds frame) as [dx [e|]]; [discriminate|].
  intros _. destruct (dx <=? maxWidth); reflexivity.
Qed.
